(** * A shallow embedding of the tetris-golang game engine

    The development follows the Go sources [constants.go], [main.go] and the
    geometry helpers ([isWithinBoard], [getTopOffset], [getShapeDimensions],
    [findFirstNonEmptyColumn]).

    - Go's [int] is a 64-bit signed integer: it is a [Z] here, and every
      addition or subtraction on piece coordinates goes through
      [Int64.wrap].  Loop counters that range over constants (0..15, 0..19)
      are plain [Z].
    - The board is [[gameGridHeight][gameGridWidth]ShapeState]: a list of
      rows.  Array indexing is fallible ([None] is Go's index-out-of-range
      panic), so every function that touches the board returns an [option].
    - Methods on [*Game] become functions [Game -> option Game]
      (explicit state passing in the option monad).  The mutex and the
      context are left out, and so are the drawing calls of [tick];
      [g.cancel()] sets the [cancelled] flag.  [drawBoard] is modelled on
      its own, over the calls it makes on the screen. *)

From Stdlib Require Import ZArith Lia Bool List.
From stdpp Require Import base option list.
Import ListNotations.

Local Open Scope Z_scope.

(** ** 64-bit integers *)

Module Int64.
Definition half : Z := 2 ^ 63.
Definition modulus : Z := 2 ^ 64.
(** The two's-complement value of [z] in 64 bits. *)
Definition wrap (z : Z) : Z := (z + half) mod modulus - half.
(** Go's [a + b], [a - b] and [-a] on [int]: silent wrap-around. *)
Definition add (a b : Z) : Z := wrap (a + b).
Definition sub (a b : Z) : Z := wrap (a - b).
Definition neg (a : Z) : Z := wrap (- a).
Definition in_range (z : Z) : Prop := - half <= z < half.
End Int64.

(** ** constants.go *)

Definition gameGridWidth : Z := 10.
Definition gameGridHeight : Z := 20.

Inductive ShapeState : Set := EmptyState | FallingState | FixedState.

#[global] Instance ShapeState_eq_dec : EqDecision ShapeState.
Proof. solve_decision. Defined.

Definition shapes : list (list Z) :=
  [ [0x0F00; 0x2222; 0x0F00; 0x2222]
  ; [0x6600; 0x6600; 0x6600; 0x6600]
  ; [0x4C40; 0x4E00; 0xC880; 0xE400]
  ; [0x06C0; 0x8C40; 0x6C00; 0x4620]
  ; [0x0C60; 0x4C80; 0xC600; 0x2640]
  ; [0x44C0; 0x8E00; 0xE880; 0xC440]
  ; [0x4460; 0x0E80; 0xC440; 0x2E00] ].

(** ** Indexing and loops *)

(** [l[i]] for a Go slice or array: out of range is a panic. *)
Definition index {A : Type} (l : list A) (i : Z) : option A :=
  if decide (0 <= i) then l !! Z.to_nat i else None.

(** [for _, i := range idxs { s = body i s }], stopping at the first panic. *)
Fixpoint for_each {S : Type} (body : Z -> S -> option S) (idxs : list Z) (s : S)
  : option S :=
  match idxs with
  | [] => Some s
  | i :: rest => s' ← body i s; for_each body rest s'
  end.

(** [shape & (1 << uint(k)) != 0] *)
Definition bitSet (shape k : Z) : bool :=
  negb (Z.land shape (Z.shiftl 1 k) =? 0).

Definition shapeAt (shape pos : Z) : option Z :=
  row ← index shapes shape; index row pos.

(** ** Geometry helpers *)

Definition isWithinBoard (x y : Z) : bool :=
  if (0 <=? x) && (x <? gameGridWidth) && (0 <=? y) && (y <? gameGridHeight)
  then true else false.

(** The loop [for i := 3; i >= 0; i--] with its early return. *)
Fixpoint getTopOffset_from (idxs : list Z) (shape : Z) : Z :=
  match idxs with
  | [] => 0
  | i :: rest =>
      if negb (Z.land (Z.shiftr shape (i * 4)) 0xF =? 0) then 3 - i
      else getTopOffset_from rest shape
  end.

Definition getTopOffset (shape : Z) : Z :=
  getTopOffset_from [3; 2; 1; 0] shape.

Definition getShapeDimensions (shape : Z) : Z :=
  let '(minX, maxX) :=
    foldl (fun '(minX, maxX) i =>
             if bitSet shape i then
               let x := Z.rem i 4 in
               (if x <? minX then x else minX, if maxX <? x then x else maxX)
             else (minX, maxX))
          (4, 0) (seqZ 0 16) in
  maxX - minX + 1.

Definition findFirstNonEmptyColumn (shape : Z) : Z :=
  foldl (fun columnIndex i =>
           if bitSet shape (15 - i) then
             let col := Z.rem i 4 in
             if col <? columnIndex then col else columnIndex
           else columnIndex)
        4 (seqZ 0 16).

(** ** The board *)

(** [type Board [gameGridHeight][gameGridWidth]ShapeState]: the rows, top
    row first.  [wf_board] below states the two dimensions. *)
Abbreviation Board := (list (list ShapeState)).

Definition board_get (b : Board) (yy xx : Z) : option ShapeState :=
  row ← index b yy; index row xx.

Definition board_set (b : Board) (yy xx : Z) (v : ShapeState) : option Board :=
  row ← index b yy;
  _ ← index row xx;
  Some (<[Z.to_nat yy := <[Z.to_nat xx := v]> row]> b).

Definition emptyRow : list ShapeState :=
  replicate (Z.to_nat gameGridWidth) EmptyState.

(** The zero value of [Board]. *)
Definition emptyBoard : Board :=
  replicate (Z.to_nat gameGridHeight) emptyRow.

Definition wf_board (b : Board) : Prop :=
  length b = Z.to_nat gameGridHeight /\
  Forall (fun row => length row = Z.to_nat gameGridWidth) b.

(** The body of [fixPiece]'s loop, on the board alone. *)
Definition fixPiece_cell (shape x y : Z) (val : ShapeState) (i : Z) (b : Board)
  : option Board :=
  if bitSet shape (15 - i) then
    let xx := Int64.add x (Z.rem i 4) in
    let yy := Int64.add y (Z.quot i 4) in
    if (0 <=? xx) && (xx <? gameGridWidth) && (0 <=? yy) && (yy <? gameGridHeight)
    then board_set b yy xx val
    else Some b
  else Some b.

Definition fixPiece_board (b : Board) (shape x y : Z) (val : ShapeState)
  : option Board :=
  for_each (fixPiece_cell shape x y val) (seqZ 0 16) b.

(** [hasCollision]'s loop over the 16 bits, with its early [return true]. *)
Fixpoint hasCollision_from (b : Board) (shape x y : Z) (idxs : list Z)
  : option bool :=
  match idxs with
  | [] => Some false
  | i :: rest =>
      if bitSet shape (15 - i) then
        let xx := Int64.add x (Z.rem i 4) in
        let yy := Int64.add y (Z.quot i 4) in
        if negb (isWithinBoard xx yy) then Some true
        else
          c ← board_get b yy xx;
          if decide (c = FixedState) then Some true
          else hasCollision_from b shape x y rest
      else hasCollision_from b shape x y rest
  end.

Definition hasCollision_board (b : Board) (shape x y : Z) : option bool :=
  hasCollision_from b shape x y (seqZ 0 16).

(** *** removeFullLines *)

(** The inner scan of row [y], with its [break]. *)
Fixpoint rowIsFull (b : Board) (y : Z) (xs : list Z) : option bool :=
  match xs with
  | [] => Some true
  | x :: rest =>
      c ← board_get b y x;
      if decide (c = FixedState) then rowIsFull b y rest else Some false
  end.

(** [g.board[yy][xx] = g.board[yy-1][xx]] *)
Definition copy_cell (yy xx : Z) (b : Board) : option Board :=
  v ← board_get b (yy - 1) xx; board_set b yy xx v.

Definition copy_row (yy : Z) (b : Board) : option Board :=
  for_each (copy_cell yy) (seqZ 0 gameGridWidth) b.

(** [for yy := y; yy > 0; yy--]: the rows [y, y-1, ..., 1]. *)
Definition shift_down (y : Z) (b : Board) : option Board :=
  for_each copy_row (reverse (seqZ 1 y)) b.

Definition clear_top (b : Board) : option Board :=
  for_each (fun x b => board_set b 0 x EmptyState) (seqZ 0 gameGridWidth) b.

(** The body of the outer loop at row [y]. *)
Definition clear_if_full (y : Z) (b : Board) : option Board :=
  full ← rowIsFull b y (seqZ 0 gameGridWidth);
  if full : bool then b1 ← shift_down y b; clear_top b1 else Some b.

(** One turn of [for y := 0; y < gameGridHeight; y++]: the body at the
    current scan index, then the post statement [y++]. *)
Definition scan_step (s : Z * Board) : option (Z * Board) :=
  b' ← clear_if_full (fst s) (snd s); Some (fst s + 1, b').

(** The outer loop from a given scan state; [fuel] bounds the number of
    turns and is never exhausted from [gameGridHeight] (see [scan_from]). *)
Fixpoint scan (fuel : nat) (s : Z * Board) : option (Z * Board) :=
  if fst s <? gameGridHeight then
    match fuel with
    | O => None
    | S k => s' ← scan_step s; scan k s'
    end
  else Some s.

Definition removeFullLines_board (b : Board) : option Board :=
  snd <$> scan (Z.to_nat gameGridHeight) (0, b).

(** ** The game state (main.go) *)

(** [Shape], [Position] and [Piece]; a field [f] of the Go struct [T] is
    named with a short prefix for [T]. *)
Record Shape : Set := mkShape { sh_shape : Z; sh_pos : Z; sh_state : ShapeState }.

Record Position : Set := mkPosition { p_x : Z; p_y : Z; p_oldX : Z; p_oldY : Z }.

Record Piece : Set := mkPiece
  { pc_Shape : Shape; pc_Position : Position; pc_PreviousShape : Shape }.

(** [Game] without its screen, lock and context: [cancelled] records that
    [g.cancel()] was called. *)
Record Game : Type := mkGame { piece : Piece; board : Board; cancelled : bool }.

Definition set_board (g : Game) (b : Board) : Game :=
  mkGame (piece g) b (cancelled g).

Definition set_piece (g : Game) (p : Piece) : Game :=
  mkGame p (board g) (cancelled g).

Definition cancel (g : Game) : Game := mkGame (piece g) (board g) true.

Definition with_x (p : Piece) (v : Z) : Piece :=
  let q := pc_Position p in
  mkPiece (pc_Shape p) (mkPosition v (p_y q) (p_oldX q) (p_oldY q))
          (pc_PreviousShape p).

Definition with_y (p : Piece) (v : Z) : Piece :=
  let q := pc_Position p in
  mkPiece (pc_Shape p) (mkPosition (p_x q) v (p_oldX q) (p_oldY q))
          (pc_PreviousShape p).

Definition with_pos (p : Piece) (v : Z) : Piece :=
  let s := pc_Shape p in
  mkPiece (mkShape (sh_shape s) v (sh_state s)) (pc_Position p)
          (pc_PreviousShape p).

Definition with_state (p : Piece) (v : ShapeState) : Piece :=
  let s := pc_Shape p in
  mkPiece (mkShape (sh_shape s) (sh_pos s) v) (pc_Position p)
          (pc_PreviousShape p).

(** [shapes[g.piece.Shape.shape][g.piece.Shape.pos]] *)
Definition currentMask (g : Game) : option Z :=
  shapeAt (sh_shape (pc_Shape (piece g))) (sh_pos (pc_Shape (piece g))).

(** [newPiece]: [rand.Intn(1)] is always 0; [r] is the value drawn by
    [rand.Intn(4)]. *)
Definition newPiece (r : Z) (g : Game) : option Game :=
  let shape := 0 in
  let pos := r in
  m ← shapeAt shape pos;
  let x := Int64.neg (findFirstNonEmptyColumn m) in
  let y := Int64.neg (getTopOffset m) in
  Some (set_piece g
          (mkPiece (mkShape shape pos FallingState)
                   (mkPosition x y x y)
                   (mkShape shape pos EmptyState))).

Definition fixPiece (g : Game) (shape x y : Z) (val : ShapeState) : option Game :=
  b' ← fixPiece_board (board g) shape x y val; Some (set_board g b').

Definition hasCollision (g : Game) (x y pos : Z) : option bool :=
  shape ← shapeAt (sh_shape (pc_Shape (piece g))) pos;
  hasCollision_board (board g) shape x y.

Definition removeFullLines (g : Game) : option Game :=
  b' ← removeFullLines_board (board g); Some (set_board g b').

(** The four assignments that end [moveShape]. *)
Definition sync_piece (p : Piece) : Piece :=
  let q := pc_Position p in
  mkPiece (pc_Shape p)
          (mkPosition (p_x q) (p_y q) (p_x q) (p_y q))
          (mkShape (sh_shape (pc_Shape p)) (sh_pos (pc_Shape p))
                   (sh_state (pc_PreviousShape p))).

Definition moveShape (g : Game) : option Game :=
  let p := piece g in
  oldShape ← shapeAt (sh_shape (pc_PreviousShape p)) (sh_pos (pc_PreviousShape p));
  g1 ← fixPiece g oldShape (p_oldX (pc_Position p)) (p_oldY (pc_Position p))
                 EmptyState;
  current ← shapeAt (sh_shape (pc_Shape p)) (sh_pos (pc_Shape p));
  g2 ← fixPiece g1 current (p_x (pc_Position p)) (p_y (pc_Position p))
                 (sh_state (pc_Shape p));
  Some (set_piece g2 (sync_piece p)).

(** [tick], without the drawing calls. *)
Definition tick (g : Game) : option Game :=
  g1 ← moveShape g; removeFullLines g1.

Definition moveLeft (g : Game) : option Game :=
  let p := piece g in
  let q := pc_Position p in
  m ← currentMask g;
  let d := findFirstNonEmptyColumn m in
  ok ← (if 0 <=? Int64.sub (Int64.add (p_x q) d) 1
        then negb <$> hasCollision g (Int64.sub (p_x q) 1) (p_y q)
                                     (sh_pos (pc_Shape p))
        else Some false);
  tick (if ok : bool then set_piece g (with_x p (Int64.sub (p_x q) 1)) else g).

Definition moveRight (g : Game) : option Game :=
  let p := piece g in
  let q := pc_Position p in
  m ← currentMask g;
  let width := getShapeDimensions m in
  let x := Int64.add (p_x q) (findFirstNonEmptyColumn m) in
  ok ← (if Int64.add x width <? gameGridWidth
        then negb <$> hasCollision g (Int64.add (p_x q) 1) (p_y q)
                                     (sh_pos (pc_Shape p))
        else Some false);
  tick (if ok : bool then set_piece g (with_x p (Int64.add (p_x q) 1)) else g).

(** The tail of [moveDown]: [if state == FixedState { tick; newPiece }]
    followed by the final [tick]. *)
Definition moveDown_commit (r : Z) (g : Game) : option Game :=
  g1 ← (if decide (sh_state (pc_Shape (piece g)) = FixedState)
        then g' ← tick g; newPiece r g'
        else Some g);
  tick g1.

(** [moveDown]; [r] is the rotation drawn by [newPiece] when the piece
    locks. *)
Definition moveDown (r : Z) (g : Game) : option Game :=
  let p := piece g in
  let q := pc_Position p in
  c ← hasCollision g (p_x q) (Int64.add (p_y q) 1) (sh_pos (pc_Shape p));
  if c : bool then
    m ← currentMask g;
    if decide (p_y q = Int64.neg (getTopOffset m)) then Some (cancel g)
    else moveDown_commit r (set_piece g (with_state p FixedState))
  else
    moveDown_commit r
      (set_piece g (with_y (with_state p FallingState) (Int64.add (p_y q) 1))).

(** The guard of the wall-kick loop. *)
Definition kick_cond (g : Game) : option bool :=
  let p := piece g in
  let q := pc_Position p in
  m ← currentMask g;
  if 0 <=? Int64.add (p_x q) (findFirstNonEmptyColumn m)
  then hasCollision g (p_x q) (p_y q) (sh_pos (pc_Shape p))
  else Some false.

(** The wall-kick loop [for guard { g.piece.Position.x-- }]. *)
Fixpoint kick (fuel : nat) (g : Game) : option Game :=
  c ← kick_cond g;
  if c : bool then
    match fuel with
    | O => None
    | S k =>
        kick k (set_piece g (with_x (piece g)
                               (Int64.sub (p_x (pc_Position (piece g))) 1)))
    end
  else Some g.

(** Each turn of the loop lowers [x + findFirstNonEmptyColumn mask], which
    the guard keeps non-negative: this many turns are always enough (see
    [kick_total]). *)
Definition kick_fuel (g : Game) : nat :=
  match currentMask g with
  | Some m =>
      Z.to_nat
        (Int64.add (p_x (pc_Position (piece g))) (findFirstNonEmptyColumn m) + 1)
  | None => O
  end.

(** [rotate] up to the end of the wall-kick loop. *)
Definition rotate_search (g : Game) : option Game :=
  let p := piece g in
  let q := pc_Position p in
  m ← currentMask g;
  let startY := Int64.add (p_y q) (getTopOffset m) in
  let startX := Int64.add (p_x q) (findFirstNonEmptyColumn m) in
  let p1 := with_pos p (Z.rem (Int64.add (sh_pos (pc_Shape p)) 1) 4) in
  m1 ← currentMask (set_piece g p1);
  let p2 := with_x p1 (Int64.sub startX (findFirstNonEmptyColumn m1)) in
  let p3 := with_y p2 (Int64.sub startY (getTopOffset m1)) in
  let g3 := set_piece g p3 in
  kick (kick_fuel g3) g3.

(** The three assignments of the revert branch. *)
Definition revert_piece (p : Piece) : Piece :=
  with_y (with_x (with_pos p (sh_pos (pc_PreviousShape p)))
                 (p_oldX (pc_Position p)))
         (p_oldY (pc_Position p)).

Definition rotate (g : Game) : option Game :=
  g1 ← rotate_search g;
  let p := piece g1 in
  c ← hasCollision g1 (p_x (pc_Position p)) (p_y (pc_Position p))
                      (sh_pos (pc_Shape p));
  g2 ← (if c : bool then Some (set_piece g1 (revert_piece p)) else moveShape g1);
  tick g2.

(** [newGame]: a zero board and a first piece. *)
Definition newGame (r : Z) : option Game :=
  newPiece r (mkGame (mkPiece (mkShape 0 0 EmptyState) (mkPosition 0 0 0 0)
                              (mkShape 0 0 EmptyState))
                     emptyBoard false).

(** The state in which [runGameLoop] starts to take commands: [newGame]
    and the first [tick]. *)
Definition initialGame (r : Z) : option Game :=
  g ← newGame r; tick g.

(** * Vocabulary of the statements *)

(** ** Cells and footprints *)

(** Row [r] and column [c] are indices of the board array. *)
Definition in_board (r c : Z) : Prop :=
  0 <= r < gameGridHeight /\ 0 <= c < gameGridWidth.

(** The engine's bit-to-cell mapping: bit [15 - i] of a mask is the cell in
    column [i mod 4] and row [i div 4] of the 4x4 box. *)
Definition mask_cell (shape col row : Z) : bool :=
  Z.testbit shape (15 - (4 * row + col)).

(** The board cells under the set bits of a mask whose box has its origin
    at [(x, y)]: the footprint. *)
Definition footprint (shape x y r c : Z) : Prop :=
  exists col row, 0 <= col < 4 /\ 0 <= row < 4 /\
    mask_cell shape col row = true /\
    Int64.add x col = c /\ Int64.add y row = r.

(** Bit [15 - i] of the mask is the cell in column [i % 4] and row [i / 4]
    of the 4x4 box; [hits shape x y i r c] says that this bit is set and
    that the box at origin [(x, y)] puts it on the board cell in row [r]
    and column [c]. *)
Definition hits (shape x y i r c : Z) : Prop :=
  bitSet shape (15 - i) = true /\
  Int64.add x (Z.rem i 4) = c /\ Int64.add y (Z.quot i 4) = r.

(** Some bit among the first [k] of the loop order lands on the cell. *)
Definition covers_below (k shape x y r c : Z) : Prop :=
  exists i, 0 <= i < k /\ hits shape x y i r c.

(** The footprint in the loop's own terms (see [covers_footprint]). *)
Definition covers (shape x y r c : Z) : Prop := covers_below 16 shape x y r c.

(** The loop invariant of [fixPiece] after the bits [0 .. k-1]. *)
Definition stamped_upto (b0 : Board) (shape x y : Z) (val : ShapeState)
  (k : Z) (b : Board) : Prop :=
  wf_board b /\
  forall r c, in_board r c ->
    (covers_below k shape x y r c -> board_get b r c = Some val) /\
    (~ covers_below k shape x y r c -> board_get b r c = board_get b0 r c).

(** What a collision is: some set bit of the mask lands outside the board
    or on a [FixedState] cell. *)
Definition blocked_at (b : Board) (shape x y i : Z) : Prop :=
  bitSet shape (15 - i) = true /\
  (isWithinBoard (Int64.add x (Z.rem i 4)) (Int64.add y (Z.quot i 4)) = false \/
   board_get b (Int64.add y (Z.quot i 4)) (Int64.add x (Z.rem i 4))
   = Some FixedState).

(** ** Rows *)

(** A row is full when every cell of it is [FixedState]. *)
Definition row_full (row : list ShapeState) : bool :=
  forallb (fun c => bool_decide (c = FixedState)) row.

(** No row of the board is full. *)
Definition no_full_rows (b : Board) : Prop :=
  Forall (fun row => row_full row = false) b.

(** Row [y] removed, the rows above it moved down by one, and an empty row
    on top. *)
Definition clear_row (y : nat) (b : Board) : Board :=
  emptyRow :: take y b ++ drop (Datatypes.S y) b.

(** The rows that are not full, in their order, under as many empty rows as
    there were full rows. *)
Definition compact (b : Board) : Board :=
  let kept := List.filter (fun row => negb (row_full row)) b in
  replicate (length b - length kept)%nat emptyRow ++ kept.

(** The board before the turn for index [k]: the rows above [k] are
    already compacted and the rows from [k] on are untouched. *)
Definition scan_state (b : Board) (k : nat) : Board :=
  compact (take k b) ++ drop k b.

(** The scan as the specification words it: when the row at the scan index
    is full it is cleared and the index stays where it is, so that the same
    index is examined again; otherwise the index moves on. *)
Definition recheck_step (s : Z * Board) : option (Z * Board) :=
  full ← rowIsFull (snd s) (fst s) (seqZ 0 gameGridWidth);
  if full : bool
  then b1 ← shift_down (fst s) (snd s); b2 ← clear_top b1; Some (fst s, b2)
  else Some (fst s + 1, snd s).

(** That scan as a loop; it needs more turns than there are rows. *)
Fixpoint recheck_scan (fuel : nat) (s : Z * Board) : option (Z * Board) :=
  if fst s <? gameGridHeight then
    match fuel with
    | O => None
    | S k => s' ← recheck_step s; recheck_scan k s'
    end
  else Some s.

(** Every row costs at most two turns: one that clears it and one that
    moves on. *)
Definition clearFullRows_recheck (b : Board) : option Board :=
  snd <$> recheck_scan (2 * Z.to_nat gameGridHeight) (0, b).

(** A row is occupied when some cell of it is not [EmptyState]. *)
Definition row_occupied (row : list ShapeState) : bool :=
  existsb (fun c => negb (bool_decide (c = EmptyState))) row.

(** The rows from the topmost occupied row down to the floor. *)
Fixpoint stack (b : Board) : Board :=
  match b with
  | [] => []
  | row :: rest => if row_occupied row then b else stack rest
  end.

(** The height of the stack, and the number of occupied rows. *)
Definition stack_height (b : Board) : nat := length (stack b).

Definition occupied_rows (b : Board) : nat :=
  length (List.filter row_occupied b).

(** No unoccupied row lies under an occupied one. *)
Definition settled (b : Board) : Prop :=
  Forall (fun row => row_occupied row = true) (stack b).

(** ** Game states *)

(** Shape kind and rotation index the table [shapes]. *)
Definition valid_shape (s : Shape) : Prop :=
  0 <= sh_shape s < 7 /\ 0 <= sh_pos s < 4.

(** The board has its dimensions and both shape records index the table. *)
Definition wf_game (g : Game) : Prop :=
  wf_board (board g) /\
  valid_shape (pc_Shape (piece g)) /\
  valid_shape (pc_PreviousShape (piece g)).

(** The state that [moveShape] leaves: the old fields agree with the
    current ones. *)
Definition committed (p : Piece) : Prop :=
  p_oldX (pc_Position p) = p_x (pc_Position p) /\
  p_oldY (pc_Position p) = p_y (pc_Position p) /\
  sh_shape (pc_PreviousShape p) = sh_shape (pc_Shape p) /\
  sh_pos (pc_PreviousShape p) = sh_pos (pc_Shape p).

(** The path of [moveDown] that ends the game: blocked below while still
    at the spawn row. *)
Definition game_over_path (g : Game) : Prop :=
  let p := piece g in
  let q := pc_Position p in
  hasCollision g (p_x q) (Int64.add (p_y q) 1) (sh_pos (pc_Shape p)) = Some true /\
  exists m, currentMask g = Some m /\ p_y q = Int64.neg (getTopOffset m).

(** The footprint of the piece holds the piece's state: what [moveShape]
    leaves on the board. *)
Definition stamped (g : Game) : Prop :=
  exists m, currentMask g = Some m /\
    forall r c, in_board r c ->
      footprint m (p_x (pc_Position (piece g))) (p_y (pc_Position (piece g))) r c ->
      board_get (board g) r c = Some (sh_state (pc_Shape (piece g))).

(** What holds between two commands. *)
Definition game_inv (g : Game) : Prop :=
  wf_game g /\ committed (piece g) /\
  sh_state (pc_Shape (piece g)) = FallingState /\
  stamped g /\ no_full_rows (board g).

(** The states of a run: [newGame] and the first [tick], then any
    sequence of commands and gravity steps, and [g.cancel()] from the quit
    keys or a signal; [r] is what [rand.Intn(4)] returns. *)
Inductive reachable : Game -> Prop :=
| reach_init r g :
    0 <= r < 4 -> initialGame r = Some g -> reachable g
| reach_moveLeft g g' :
    reachable g -> moveLeft g = Some g' -> reachable g'
| reach_moveRight g g' :
    reachable g -> moveRight g = Some g' -> reachable g'
| reach_moveDown r g g' :
    0 <= r < 4 -> reachable g -> moveDown r g = Some g' -> reachable g'
| reach_rotate g g' :
    reachable g -> rotate g = Some g' -> reachable g'
| reach_cancel g :
    reachable g -> reachable (cancel g).

(** ** Masks read cell by cell *)

(** Bounded quantifiers over the four rows or columns of the box. *)
Definition forall4 (f : Z -> bool) : bool := f 0 && f 1 && f 2 && f 3.

Definition exists4 (f : Z -> bool) : bool := f 0 || f 1 || f 2 || f 3.

(** Row [t] is the first occupied row of the mask. *)
Definition first_row (mask t : Z) : bool :=
  (0 <=? t) && (t <=? 3) &&
  exists4 (fun c => mask_cell mask c t) &&
  forall4 (fun r => (t <=? r) || forall4 (fun c => negb (mask_cell mask c r))).

(** Column [l] is the leftmost occupied column of the mask. *)
Definition leftmost_column (mask l : Z) : bool :=
  (0 <=? l) && (l <=? 3) &&
  exists4 (fun r => mask_cell mask l r) &&
  forall4 (fun c => (l <=? c) || forall4 (fun r => negb (mask_cell mask c r))).

(** Column [h] is the rightmost occupied column of the mask. *)
Definition rightmost_column (mask h : Z) : bool :=
  (0 <=? h) && (h <=? 3) &&
  exists4 (fun r => mask_cell mask h r) &&
  forall4 (fun c => (c <=? h) || forall4 (fun r => negb (mask_cell mask c r))).

(** The three helpers agree with the cells of the mask. *)
Definition geometry_ok (mask : Z) : bool :=
  if mask =? 0 then findFirstNonEmptyColumn mask =? 4
  else
    first_row mask (getTopOffset mask) &&
    leftmost_column mask (findFirstNonEmptyColumn mask) &&
    rightmost_column mask
      (findFirstNonEmptyColumn mask + getShapeDimensions mask - 1).

(** [geometry_ok] on the [2 ^ n] masks from [base] on. *)
Fixpoint geometry_ok_range (n : nat) (base : Z) : bool :=
  match n with
  | O => geometry_ok base
  | S k => geometry_ok_range k base && geometry_ok_range k (base + 2 ^ Z.of_nat k)
  end.

(** ** Concrete boards and states *)

(** A board whose only occupied row is row 5, which is full. *)
Definition board_row5_full : Board :=
  <[5%nat := replicate 10 FixedState]> emptyBoard.

(** Rows 18 and 19 full under a row 17 with three locked cells. *)
Definition two_full_rows : Board :=
  <[17%nat := replicate 3 FixedState ++ replicate 7 EmptyState]>
    (<[18%nat := replicate 10 FixedState]>
       (<[19%nat := replicate 10 FixedState]> emptyBoard)).

(** The state after [newGame] with rotation 0 and the first [tick]: a
    horizontal I piece in row 0. *)
Definition spawn_game : Game :=
  mkGame (mkPiece (mkShape 0 0 FallingState) (mkPosition 0 (-1) 0 (-1))
                  (mkShape 0 0 EmptyState))
         (<[0%nat := replicate 4 FallingState ++ replicate 6 EmptyState]>
            emptyBoard)
         false.

(** A fresh horizontal I piece over a board whose row 1 is locked. *)
Definition game_blocked_at_spawn : Game :=
  mkGame (mkPiece (mkShape 0 0 FallingState) (mkPosition 0 (-1) 0 (-1))
                  (mkShape 0 0 EmptyState))
         (<[1%nat := replicate 10 FixedState]>
            (<[0%nat := replicate 4 FallingState ++ replicate 6 EmptyState]>
               emptyBoard))
         false.

(** [n] gravity steps. *)
Fixpoint fall (n : nat) (g : Game) : option Game :=
  match n with
  | O => Some g
  | S k => g' ← moveDown 0 g; fall k g'
  end.

(** The horizontal I piece of [spawn_game] after 19 gravity steps: it lies
    in row 19, on the floor. *)
Definition floor_game : Game :=
  mkGame (mkPiece (mkShape 0 0 FallingState) (mkPosition 0 18 0 18)
                  (mkShape 0 0 EmptyState))
         (<[19%nat := replicate 4 FallingState ++ replicate 6 EmptyState]>
            emptyBoard)
         false.

(** ** The piece on the board *)

(** The board cells under the active piece. *)
Definition piece_footprint (g : Game) (r c : Z) : Prop :=
  exists m, currentMask g = Some m /\
    footprint m (p_x (pc_Position (piece g))) (p_y (pc_Position (piece g))) r c.

(** Every cell of the piece is a cell of the board. *)
Definition piece_on_board (g : Game) : Prop :=
  forall r c, piece_footprint g r c -> in_board r c.

(** Every [FallingState] cell of the board belongs to the piece. *)
Definition falling_is_piece (g : Game) : Prop :=
  forall r c, in_board r c ->
    board_get (board g) r c = Some FallingState -> piece_footprint g r c.

(** What a run keeps, on top of [game_inv]: the piece lies on the board, no
    other cell is [FallingState], and the coordinates are values of
    [int]. *)
Definition run_inv (g : Game) : Prop :=
  game_inv g /\ piece_on_board g /\ falling_is_piece g /\
  Int64.in_range (p_x (pc_Position (piece g))) /\
  Int64.in_range (p_y (pc_Position (piece g))).

(** The same cells are [FixedState] on both boards. *)
Definition same_fixed (b b' : Board) : Prop :=
  forall r c, in_board r c ->
    (board_get b' r c = Some FixedState <-> board_get b r c = Some FixedState).

(** The state with rotation, [x] and [y] of the piece replaced. *)
Definition moved (g : Game) (pos x y : Z) : Game :=
  set_piece g (with_y (with_x (with_pos (piece g) pos) x) y).

(** No cell of the board is [FallingState]. *)
Definition no_falling (b : Board) : Prop :=
  Forall (Forall (fun c => c <> FallingState)) b.

(** [g'] is [g] after the piece was carried to rotation [pos] at [(x, y)]
    and committed: the cells of the piece at its new place are
    [FallingState], the cells it left are [EmptyState], and no other cell
    changed. *)
Definition placed (g g' : Game) (pos x y : Z) : Prop :=
  piece g' = sync_piece (piece (moved g pos x y)) /\
  cancelled g' = cancelled g /\
  forall r c, in_board r c ->
    (piece_footprint g' r c ->
     board_get (board g') r c = Some FallingState) /\
    (~ piece_footprint g' r c -> piece_footprint g r c ->
     board_get (board g') r c = Some EmptyState) /\
    (~ piece_footprint g' r c -> ~ piece_footprint g r c ->
     board_get (board g') r c = board_get (board g) r c).

(** ** Key events *)





(** ** The screen *)

(** The two styles of [drawBoard]:
    [tcell.StyleDefault.Foreground(tcell.ColorBlue)] and
    [tcell.StyleDefault.Foreground(tcell.ColorLightCyan)]. *)
Inductive Style : Set := ForegroundBlue | ForegroundLightCyan.

(** One call [screen.SetContent(x, y, mainc, nil, style)]. *)
Record SetContent : Set :=
  mkSetContent { sc_x : Z; sc_y : Z; sc_mainc : Z; sc_style : Style }.

(** The screen as [drawBoard] sees it: the calls made on it, the latest
    first. *)
Abbreviation Screen := (list SetContent).

(** What the cell [(x, y)] of the screen holds: rune and style of the
    latest call there. *)
Fixpoint shown (s : Screen) (x y : Z) : option (Z * Style) :=
  match s with
  | [] => None
  | c :: rest =>
      if (sc_x c =? x) && (sc_y c =? y) then Some (sc_mainc c, sc_style c)
      else shown rest x y
  end.

(** The body of [drawBoard]'s second pair of loops. *)
Definition draw_cell (b : Board) (y x : Z) (s : Screen) : option Screen :=
  c ← board_get b y x;
  if decide (c <> EmptyState)
  then Some (mkSetContent x y 35 ForegroundBlue :: s)
  else Some s.

(** [drawBoard]: every cell of the grid in the background style, then the
    cells of the board that are not empty in the shape style; 35 is ['#']. *)
Definition drawBoard (g : Game) (s : Screen) : option Screen :=
  let shapeColor := ForegroundBlue in
  let bg := ForegroundLightCyan in
  s1 ← for_each
         (fun y s =>
            for_each (fun x s => Some (mkSetContent x y 35 bg :: s))
                     (seqZ 0 gameGridWidth) s)
         (seqZ 0 gameGridHeight) s;
  for_each
    (fun y s => for_each (draw_cell (board g) y) (seqZ 0 gameGridWidth) s)
    (seqZ 0 gameGridHeight) s1.

(** The cells that a scan by rows has passed when it stands at row [y],
    column [x]. *)
Definition passed (y x r c : Z) : Prop :=
  0 <= c < gameGridWidth /\ 0 <= r /\ (r < y \/ (r = y /\ c < x)).

(** * Properties *)

(** ** Integers and loops *)

Module Int64Facts.
Import Int64.

Lemma wrap_small z : in_range z -> wrap z = z.
Proof.
  unfold in_range, wrap, half, modulus. intros Hz.
  rewrite Z.mod_small by lia. lia.
Qed.

Lemma wrap_wrap_add a b : wrap (wrap a + b) = wrap (a + b).
Proof.
  unfold wrap.
  replace ((a + half) mod modulus - half + b + half)
    with ((a + half) mod modulus + b) by lia.
  replace (a + b + half) with (a + half + b) by lia.
  now rewrite Zplus_mod_idemp_l.
Qed.

Lemma add_small a b : in_range (a + b) -> add a b = a + b.
Proof. apply wrap_small. Qed.

Lemma sub_small a b : in_range (a - b) -> sub a b = a - b.
Proof. apply wrap_small. Qed.

Lemma neg_small a : in_range (- a) -> neg a = - a.
Proof. apply wrap_small. Qed.

Lemma wrap_in_range z : in_range (wrap z).
Proof.
  unfold in_range, wrap, half, modulus.
  pose proof (Z.mod_pos_bound (z + 2 ^ 63) (2 ^ 64)). lia.
Qed.
End Int64Facts.

Section Loops.
Context {S : Type} (body : Z -> S -> option S).

(** An upward counting loop keeps an invariant indexed by the next
    counter value. *)
Lemma for_each_up (P : Z -> S -> Prop) (n : nat) :
  forall lo s,
    P lo s ->
    (forall i t, lo <= i < lo + Z.of_nat n -> P i t ->
                 exists t', body i t = Some t' /\ P (i + 1) t') ->
    exists s', for_each body (seqZ lo (Z.of_nat n)) s = Some s' /\
               P (lo + Z.of_nat n) s'.
Proof.
  induction n as [|n IH]; intros lo s Hs Hstep.
  - rewrite seqZ_nil by lia. exists s. rewrite Z.add_0_r. auto.
  - rewrite seqZ_cons by lia. cbn [for_each].
    destruct (Hstep lo s) as (t & Hb & Ht); [lia | assumption |].
    rewrite Hb. cbn.
    replace (Z.pred (Z.of_nat (Datatypes.S n))) with (Z.of_nat n) by lia.
    destruct (IH (Z.succ lo) t) as (s' & Hrun & Hs').
    + now replace (Z.succ lo) with (lo + 1) by lia.
    + intros i u Hi Hu. apply Hstep; [lia | assumption].
    + exists s'. split; [assumption |].
      now replace (lo + Z.of_nat (Datatypes.S n))
        with (Z.succ lo + Z.of_nat n) by lia.
Qed.

(** The same for a loop that counts down from [lo + n - 1] to [lo]. *)
Lemma for_each_down (P : Z -> S -> Prop) (n : nat) :
  forall lo s,
    P (lo + Z.of_nat n) s ->
    (forall i t, lo <= i < lo + Z.of_nat n -> P (i + 1) t ->
                 exists t', body i t = Some t' /\ P i t') ->
    exists s', for_each body (reverse (seqZ lo (Z.of_nat n))) s = Some s' /\
               P lo s'.
Proof.
  induction n as [|n IH]; intros lo s Hs Hstep.
  - rewrite seqZ_nil by lia. exists s. rewrite Z.add_0_r in Hs. auto.
  - rewrite seqZ_S, reverse_snoc. cbn [for_each].
    destruct (Hstep (lo + Z.of_nat n) s) as (t & Hb & Ht); [lia | |].
    { now replace (lo + Z.of_nat n + 1)
        with (lo + Z.of_nat (Datatypes.S n)) by lia. }
    rewrite Hb. cbn.
    apply IH; [assumption |].
    intros i u Hi Hu. apply Hstep; [lia | assumption].
Qed.
End Loops.

(** ** Board cells *)

Lemma index_Some {A} (l : list A) (i : Z) :
  0 <= i < Z.of_nat (length l) -> exists v, index l i = Some v.
Proof.
  intros Hi. unfold index. destruct (decide (0 <= i)); [| lia].
  destruct (lookup_lt_is_Some_2 l (Z.to_nat i)) as [v Hv]; [lia |].
  eauto.
Qed.

Lemma index_None {A} (l : list A) (i : Z) :
  index l i = None <-> ~ (0 <= i < Z.of_nat (length l)).
Proof.
  unfold index. destruct (decide (0 <= i)) as [Hi|Hi].
  - rewrite lookup_ge_None. lia.
  - split; [lia | reflexivity].
Qed.

Lemma wf_board_row (b : Board) (r : Z) :
  wf_board b -> 0 <= r < gameGridHeight ->
  exists row, index b r = Some row /\ length row = Z.to_nat gameGridWidth.
Proof.
  intros [Hlen Hrows] Hr.
  destruct (index_Some b r) as [row Hrow]; [lia |].
  exists row. split; [assumption |].
  unfold index in Hrow. destruct (decide (0 <= r)); [| discriminate].
  rewrite Forall_forall in Hrows. apply Hrows.
  eapply list_elem_of_lookup_2; eassumption.
Qed.

Lemma board_get_Some (b : Board) (r c : Z) :
  wf_board b -> in_board r c -> exists v, board_get b r c = Some v.
Proof.
  intros Hwf [Hr Hc].
  destruct (wf_board_row b r Hwf Hr) as (row & Hrow & Hlen).
  unfold board_get. rewrite Hrow. cbn.
  apply index_Some. unfold gameGridWidth in *. lia.
Qed.

(** On a well-formed board a read fails exactly out of range. *)
Lemma board_get_None (b : Board) (r c : Z) :
  wf_board b -> (board_get b r c = None <-> ~ in_board r c).
Proof.
  intros Hwf. unfold in_board. split.
  - intros Hnone [Hr Hc].
    destruct (board_get_Some b r c Hwf (conj Hr Hc)) as [v Hv]. congruence.
  - intros Hout. unfold board_get.
    destruct (index b r) as [row|] eqn:Hrow; [| reflexivity]. cbn.
    assert (Hr : 0 <= r < gameGridHeight).
    { destruct Hwf as [Hlen _].
      destruct (decide (0 <= r < Z.of_nat (length b))) as [?|Hn]; [lia |].
      apply index_None in Hn. congruence. }
    destruct (wf_board_row b r Hwf Hr) as (row' & Hrow' & Hlen).
    assert (row' = row) by congruence. subst row'.
    apply index_None. unfold gameGridWidth in *. lia.
Qed.

Lemma board_set_spec (b : Board) (r c : Z) (v : ShapeState) :
  wf_board b -> in_board r c ->
  exists b', board_set b r c v = Some b' /\ wf_board b' /\
    forall r' c', board_get b' r' c' =
                  if decide (r' = r /\ c' = c) then Some v
                  else board_get b r' c'.
Proof.
  intros Hwf [Hr Hc].
  destruct (wf_board_row b r Hwf Hr) as (row & Hrow & Hlen).
  destruct (index_Some row c) as [old Hold].
  { unfold gameGridWidth in *. lia. }
  unfold board_set. rewrite Hrow. cbn. rewrite Hold. cbn.
  eexists. split; [reflexivity |].
  assert (Hrow' : b !! Z.to_nat r = Some row).
  { unfold index in Hrow. destruct (decide (0 <= r)); [assumption | lia]. }
  split.
  - destruct Hwf as [Hl Hrows]. split.
    + now rewrite length_insert.
    + apply Forall_insert; [assumption |]. cbn beta.
      rewrite length_insert. exact Hlen.
  - intros r' c'. unfold board_get, index.
    destruct (decide (r' = r /\ c' = c)) as [[-> ->]|Hne].
    + destruct (decide (0 <= r)); [| lia].
      rewrite list_lookup_insert_eq by (apply lookup_lt_is_Some; eauto).
      cbn. destruct (decide (0 <= c)); [| lia].
      apply list_lookup_insert_eq. unfold gameGridWidth in *. lia.
    + destruct (decide (0 <= r')) as [Hr'|Hr']; [| reflexivity].
      destruct (decide (Z.to_nat r = Z.to_nat r')) as [Heq|Hner].
      * assert (r' = r) by lia. subst r'.
        rewrite list_lookup_insert_eq by (apply lookup_lt_is_Some; eauto).
        rewrite Hrow'. cbn.
        destruct (decide (0 <= c')) as [Hc'|Hc']; [| reflexivity].
        apply list_lookup_insert_ne. intros Heqc. apply Hne. lia.
      * now rewrite list_lookup_insert_ne by assumption.
Qed.

(** On a well-formed board a write fails exactly out of range. *)
Lemma board_set_None (b : Board) (r c : Z) (v : ShapeState) :
  wf_board b -> (board_set b r c v = None <-> ~ in_board r c).
Proof.
  intros Hwf. split.
  - intros Hnone Hin.
    destruct (board_set_spec b r c v Hwf Hin) as (b' & Hb' & _). congruence.
  - intros Hout. unfold board_set.
    destruct (index b r) as [row|] eqn:Hrow; [| reflexivity]. cbn.
    destruct (index row c) as [old|] eqn:Hold; [| reflexivity].
    exfalso. apply Hout.
    assert (Hg : board_get b r c = Some old).
    { unfold board_get. rewrite Hrow. exact Hold. }
    destruct (decide (in_board r c)) as [?|Hn]; [assumption |].
    apply (board_get_None b r c Hwf) in Hn. congruence.
Qed.

Lemma index_of_nat {A} (l : list A) (i : nat) : index l (Z.of_nat i) = l !! i.
Proof.
  unfold index. destruct (decide (0 <= Z.of_nat i)); [| lia].
  now rewrite Nat2Z.id.
Qed.

(** Two well-formed boards with the same cells are the same board. *)
Lemma board_ext (b1 b2 : Board) :
  wf_board b1 -> wf_board b2 ->
  (forall r c, in_board r c -> board_get b1 r c = board_get b2 r c) ->
  b1 = b2.
Proof.
  intros Hwf1 Hwf2 Hcells. apply list_eq. intros i.
  destruct (decide (i < Z.to_nat gameGridHeight)%nat) as [Hi|Hi].
  - assert (Hr : 0 <= Z.of_nat i < gameGridHeight) by lia.
    destruct (wf_board_row b1 _ Hwf1 Hr) as (row1 & Hrow1 & Hlen1).
    destruct (wf_board_row b2 _ Hwf2 Hr) as (row2 & Hrow2 & Hlen2).
    pose proof Hrow1 as Hl1. pose proof Hrow2 as Hl2.
    rewrite index_of_nat in Hl1, Hl2. rewrite Hl1, Hl2. f_equal.
    apply list_eq. intros j.
    destruct (decide (j < Z.to_nat gameGridWidth)%nat) as [Hj|Hj].
    + assert (Hin : in_board (Z.of_nat i) (Z.of_nat j)).
      { split; [assumption | lia]. }
      specialize (Hcells _ _ Hin). unfold board_get in Hcells.
      rewrite Hrow1, Hrow2 in Hcells. cbn in Hcells.
      now rewrite !index_of_nat in Hcells.
    + rewrite !(proj2 (lookup_ge_None _ _)) by lia. reflexivity.
  - destruct Hwf1 as [Hl1 _], Hwf2 as [Hl2 _].
    rewrite !(proj2 (lookup_ge_None _ _)) by lia. reflexivity.
Qed.

(** ** Footprints: [fixPiece] and [hasCollision] *)

Lemma isWithinBoard_true (x y : Z) : isWithinBoard x y = true <-> in_board y x.
Proof.
  unfold isWithinBoard, in_board, gameGridWidth, gameGridHeight.
  destruct (0 <=? x) eqn:E1, (x <? 10) eqn:E2, (0 <=? y) eqn:E3,
    (y <? 20) eqn:E4; cbn; split; intros H; try discriminate; try reflexivity;
    lia.
Qed.

Lemma isWithinBoard_false (x y : Z) :
  isWithinBoard x y = false <-> ~ in_board y x.
Proof.
  rewrite <- isWithinBoard_true. destruct (isWithinBoard x y); split; congruence.
Qed.

Lemma covers_below_succ (k shape x y r c : Z) :
  0 <= k ->
  covers_below (k + 1) shape x y r c <->
  covers_below k shape x y r c \/ hits shape x y k r c.
Proof.
  intros Hk. unfold covers_below. split.
  - intros (i & Hi & Hh). destruct (decide (i = k)) as [->|Hne].
    + now right.
    + left. exists i. split; [lia | assumption].
  - intros [(i & Hi & Hh) | Hh].
    + exists i. split; [lia | assumption].
    + exists k. split; [lia | assumption].
Qed.

Lemma fixPiece_cell_step (b0 : Board) (shape x y : Z) (val : ShapeState)
  (i : Z) (b : Board) :
  0 <= i -> stamped_upto b0 shape x y val i b ->
  exists b', fixPiece_cell shape x y val i b = Some b' /\
             stamped_upto b0 shape x y val (i + 1) b'.
Proof.
  intros Hi [Hwf Hcells]. unfold fixPiece_cell.
  set (xx := Int64.add x (Z.rem i 4)). set (yy := Int64.add y (Z.quot i 4)).
  assert (Hkeep :
    (bitSet shape (15 - i) = false \/ ~ in_board yy xx) ->
    stamped_upto b0 shape x y val (i + 1) b).
  { intros Hno. split; [assumption |]. intros r c Hin.
    assert (Hsame : covers_below (i + 1) shape x y r c <->
                    covers_below i shape x y r c).
    { rewrite covers_below_succ by assumption. split; [| tauto].
      intros [H | (Hbit & Hc & Hr)]; [assumption |].
      exfalso. destruct Hno as [Hno | Hno]; [congruence |].
      apply Hno. fold xx in Hc. fold yy in Hr. now subst r c. }
    rewrite Hsame. now apply Hcells. }
  destruct (bitSet shape (15 - i)) eqn:Hbit; [| eauto].
  destruct ((0 <=? xx) && (xx <? gameGridWidth) && (0 <=? yy)
            && (yy <? gameGridHeight)) eqn:Hbounds.
  - assert (Hin : in_board yy xx).
    { apply isWithinBoard_true. unfold isWithinBoard. now rewrite Hbounds. }
    destruct (board_set_spec b yy xx val Hwf Hin) as (b' & Hset & Hwf' & Hget).
    exists b'. split; [assumption |]. split; [assumption |].
    intros r c Hrc. rewrite Hget, covers_below_succ by assumption.
    destruct (decide (r = yy /\ c = xx)) as [[-> ->]|Hne].
    + split; [reflexivity |]. intros Hn. exfalso. apply Hn. right.
      now repeat split.
    + destruct (Hcells r c Hrc) as [Hyes Hnot]. split.
      * intros [H | (_ & Hc & Hr)]; [now apply Hyes |].
        exfalso. apply Hne. now subst r c.
      * intros Hn. apply Hnot. tauto.
  - exists b. split; [reflexivity |]. apply Hkeep. right.
    intros Hin. apply isWithinBoard_true in Hin.
    unfold isWithinBoard in Hin. now rewrite Hbounds in Hin.
Qed.

Lemma fixPiece_board_spec (b : Board) (shape x y : Z) (val : ShapeState) :
  wf_board b ->
  exists b', fixPiece_board b shape x y val = Some b' /\ wf_board b' /\
    forall r c, in_board r c ->
      (covers shape x y r c -> board_get b' r c = Some val) /\
      (~ covers shape x y r c -> board_get b' r c = board_get b r c).
Proof.
  intros Hwf. unfold fixPiece_board.
  destruct (for_each_up (fixPiece_cell shape x y val)
              (stamped_upto b shape x y val) 16 0 b) as (b' & Hrun & Hfin).
  - split; [assumption |]. intros r c _. split; [| reflexivity].
    intros (i & Hi & _). lia.
  - intros i t Hi. apply fixPiece_cell_step. lia.
  - exists b'. split; [exact Hrun |]. exact Hfin.
Qed.

Lemma hasCollision_from_spec (b : Board) (shape x y : Z) (idxs : list Z) :
  wf_board b ->
  exists res, hasCollision_from b shape x y idxs = Some res /\
              (res = true <-> exists i, i ∈ idxs /\ blocked_at b shape x y i).
Proof.
  intros Hwf. induction idxs as [|i rest IH].
  - exists false. split; [reflexivity |]. split; [discriminate |].
    intros (i & Hi & _). inversion Hi.
  - destruct IH as (res & Hres & Hiff). cbn [hasCollision_from].
    assert (Hskip :
      ~ blocked_at b shape x y i ->
      exists res', Some res = Some res' /\
        (res' = true <-> exists j, j ∈ i :: rest /\ blocked_at b shape x y j)).
    { intros Hnb. exists res. split; [reflexivity |]. rewrite Hiff. split.
      - intros (j & Hj & Hb). exists j. split; [now right | assumption].
      - intros (j & Hj & Hb). apply elem_of_cons in Hj as [-> | Hj];
          [contradiction | eauto]. }
    assert (Hhit :
      blocked_at b shape x y i ->
      exists res', Some true = Some res' /\
        (res' = true <-> exists j, j ∈ i :: rest /\ blocked_at b shape x y j)).
    { intros Hb. exists true. split; [reflexivity |]. split; [| reflexivity].
      intros _. exists i. split; [now left | assumption]. }
    unfold blocked_at in Hskip, Hhit.
    destruct (bitSet shape (15 - i)) eqn:Hbit.
    + destruct (isWithinBoard _ _) eqn:Hin; cbn [negb].
      * apply isWithinBoard_true in Hin as Hin'.
        destruct (board_get_Some b _ _ Hwf Hin') as [v Hv]. rewrite Hv. cbn.
        destruct (decide (v = FixedState)) as [->|Hnf].
        -- apply Hhit. auto.
        -- rewrite Hres. apply Hskip. intros (_ & [H | H]);
             [discriminate | congruence].
      * apply Hhit. auto.
    + rewrite Hres. apply Hskip. intros (H & _). discriminate.
Qed.

Lemma hasCollision_board_spec (b : Board) (shape x y : Z) :
  wf_board b ->
  exists res, hasCollision_board b shape x y = Some res /\
    (res = true <-> exists i, 0 <= i < 16 /\ blocked_at b shape x y i).
Proof.
  intros Hwf.
  destruct (hasCollision_from_spec b shape x y (seqZ 0 16) Hwf)
    as (res & Hres & Hiff).
  exists res. split; [exact Hres |]. rewrite Hiff.
  split; intros (i & Hi & Hb); exists i; (split; [| assumption]);
    apply elem_of_seqZ in Hi || apply elem_of_seqZ; lia.
Qed.

(** ** Clearing rows *)

Lemma row_full_Forall (row : list ShapeState) :
  row_full row = true <-> Forall (fun c => c = FixedState) row.
Proof.
  unfold row_full. rewrite forallb_forall, Forall_forall.
  split; intros H c Hc.
  - apply list_elem_of_In in Hc. specialize (H c Hc).
    now apply bool_decide_eq_true in H.
  - apply bool_decide_eq_true. apply H. now apply list_elem_of_In.
Qed.

Lemma board_get_row (b : Board) (y : Z) (row : list ShapeState) (c : Z) :
  index b y = Some row -> board_get b y c = index row c.
Proof. intros H. unfold board_get. now rewrite H. Qed.

Lemma rowIsFull_drop (b : Board) (y : Z) (row : list ShapeState) :
  index b y = Some row -> length row = Z.to_nat gameGridWidth ->
  forall (n lo : nat), (lo + n = Z.to_nat gameGridWidth)%nat ->
    rowIsFull b y (seqZ (Z.of_nat lo) (Z.of_nat n))
    = Some (row_full (drop lo row)).
Proof.
  intros Hrow Hlen. induction n as [|n IH]; intros lo Hsum.
  - rewrite seqZ_nil by lia. rewrite drop_ge by lia. reflexivity.
  - rewrite seqZ_cons by lia. cbn [rowIsFull].
    rewrite (board_get_row b y row _ Hrow), index_of_nat.
    destruct (lookup_lt_is_Some_2 row lo) as [v Hv]; [lia |].
    rewrite Hv, (drop_S row v lo Hv). cbn.
    replace (Z.pred (Z.of_nat (Datatypes.S n))) with (Z.of_nat n) by lia.
    replace (Z.succ (Z.of_nat lo)) with (Z.of_nat (Datatypes.S lo)) by lia.
    destruct (decide (v = FixedState)) as [->|Hne].
    + rewrite bool_decide_eq_true_2 by reflexivity. cbn. apply IH. lia.
    + now rewrite bool_decide_eq_false_2 by assumption.
Qed.

Lemma rowIsFull_spec (b : Board) (y : Z) (row : list ShapeState) :
  index b y = Some row -> length row = Z.to_nat gameGridWidth ->
  rowIsFull b y (seqZ 0 gameGridWidth) = Some (row_full row).
Proof.
  intros Hrow Hlen.
  exact (rowIsFull_drop b y row Hrow Hlen (Z.to_nat gameGridWidth) 0 eq_refl).
Qed.

(** The cells of a board after [copy_row], [shift_down] and [clear_top]. *)

Lemma copy_row_spec (b : Board) (yy : Z) :
  wf_board b -> 1 <= yy < gameGridHeight ->
  exists b', copy_row yy b = Some b' /\ wf_board b' /\
    forall r c, in_board r c ->
      board_get b' r c =
      if decide (r = yy) then board_get b (yy - 1) c else board_get b r c.
Proof.
  intros Hwf Hyy. unfold copy_row.
  destruct (for_each_up (copy_cell yy)
    (fun k t => wf_board t /\ forall r c, in_board r c ->
       board_get t r c =
       if decide (r = yy /\ c < k) then board_get b (yy - 1) c
       else board_get b r c)
    (Z.to_nat gameGridWidth) 0 b) as (b' & Hrun & Hwf' & Hcells).
  - split; [assumption |]. intros r c Hrc.
    destruct (decide (r = yy /\ c < 0)) as [[_ Hc]|_]; [| reflexivity].
    exfalso. unfold in_board in Hrc. lia.
  - intros k t Hk [Hwft Ht]. unfold copy_cell.
    assert (Hsrc : in_board (yy - 1) k).
    { unfold in_board, gameGridHeight, gameGridWidth in *. lia. }
    assert (Hdst : in_board yy k).
    { unfold in_board, gameGridHeight, gameGridWidth in *. lia. }
    rewrite (Ht _ _ Hsrc).
    destruct (decide (yy - 1 = yy /\ k < k)) as [[? ?]|_]; [lia |].
    destruct (board_get_Some b _ _ Hwf Hsrc) as [v Hv]. rewrite Hv. cbn.
    destruct (board_set_spec t yy k v Hwft Hdst) as (t' & Hset & Hwft' & Hget).
    exists t'. split; [assumption |]. split; [assumption |].
    intros r c Hrc. rewrite Hget, (Ht _ _ Hrc).
    destruct (decide (r = yy /\ c = k)) as [[-> ->]|Hne].
    + destruct (decide (yy = yy /\ k < k + 1)) as [_|Hn]; [now rewrite Hv | lia].
    + destruct (decide (r = yy /\ c < k)) as [[-> Hc]|Hn1];
        destruct (decide (_ = yy /\ c < k + 1)) as [[Hr' Hc']|Hn2];
        try reflexivity; exfalso; lia.
  - exists b'. split; [exact Hrun |]. split; [assumption |].
    intros r c Hrc. rewrite (Hcells _ _ Hrc).
    destruct (decide (r = yy)) as [->|Hne].
    + destruct (decide (yy = yy /\ _)) as [_|Hn]; [reflexivity |].
      exfalso. apply Hn. unfold in_board in Hrc. lia.
    + destruct (decide (r = yy /\ _)) as [[? _]|_]; [contradiction | reflexivity].
Qed.

Lemma shift_down_spec (b : Board) (y : Z) :
  wf_board b -> 0 <= y < gameGridHeight ->
  exists b', shift_down y b = Some b' /\ wf_board b' /\
    forall r c, in_board r c ->
      board_get b' r c =
      if decide (1 <= r <= y) then board_get b (r - 1) c else board_get b r c.
Proof.
  intros Hwf Hy. unfold shift_down.
  destruct (for_each_down copy_row
    (fun k t => wf_board t /\ forall r c, in_board r c ->
       board_get t r c =
       if decide (k <= r <= y) then board_get b (r - 1) c
       else board_get b r c)
    (Z.to_nat y) 1 b) as (b' & Hrun & Hwf' & Hcells).
  - split; [assumption |]. intros r c _.
    destruct (decide (_ <= r <= y)) as [?|_]; [lia | reflexivity].
  - intros k t Hk [Hwft Ht].
    destruct (copy_row_spec t k Hwft) as (t' & Hcopy & Hwft' & Hget).
    { unfold gameGridHeight in *. lia. }
    exists t'. split; [assumption |]. split; [assumption |].
    intros r c Hrc. rewrite (Hget _ _ Hrc).
    destruct (decide (r = k)) as [->|Hne].
    + assert (Hsrc : in_board (k - 1) c).
      { unfold in_board in *. lia. }
      rewrite (Ht _ _ Hsrc).
      destruct (decide (k + 1 <= k - 1 <= y)) as [?|_]; [lia |].
      destruct (decide (k <= k <= y)) as [_|?]; [reflexivity | lia].
    + rewrite (Ht _ _ Hrc).
      destruct (decide (k + 1 <= r <= y)), (decide (k <= r <= y));
        try reflexivity; lia.
  - exists b'. replace (Z.of_nat (Z.to_nat y)) with y in Hrun by lia.
    auto.
Qed.

Lemma clear_top_spec (b : Board) :
  wf_board b ->
  exists b', clear_top b = Some b' /\ wf_board b' /\
    forall r c, in_board r c ->
      board_get b' r c =
      if decide (r = 0) then Some EmptyState else board_get b r c.
Proof.
  intros Hwf. unfold clear_top.
  destruct (for_each_up (fun x b => board_set b 0 x EmptyState)
    (fun k t => wf_board t /\ forall r c, in_board r c ->
       board_get t r c =
       if decide (r = 0 /\ c < k) then Some EmptyState else board_get b r c)
    (Z.to_nat gameGridWidth) 0 b) as (b' & Hrun & Hwf' & Hcells).
  - split; [assumption |]. intros r c Hrc.
    destruct (decide (r = 0 /\ c < 0)) as [[_ Hc]|_]; [| reflexivity].
    exfalso. unfold in_board in Hrc. lia.
  - intros k t Hk [Hwft Ht].
    assert (Hdst : in_board 0 k).
    { unfold in_board, gameGridHeight, gameGridWidth in *. lia. }
    destruct (board_set_spec t 0 k EmptyState Hwft Hdst)
      as (t' & Hset & Hwft' & Hget).
    exists t'. split; [assumption |]. split; [assumption |].
    intros r c Hrc. rewrite Hget, (Ht _ _ Hrc).
    destruct (decide (r = 0 /\ c = k)) as [[-> ->]|Hne].
    + destruct (decide (0 = 0 /\ k < k + 1)) as [_|?]; [reflexivity | lia].
    + destruct (decide (r = 0 /\ c < k)), (decide (r = 0 /\ c < k + 1));
        try reflexivity; exfalso; lia.
  - exists b'. split; [exact Hrun |]. split; [assumption |].
    intros r c Hrc. rewrite (Hcells _ _ Hrc).
    destruct (decide (r = 0)) as [->|Hne].
    + destruct (decide (0 = 0 /\ _)) as [_|Hn]; [reflexivity |].
      exfalso. apply Hn. unfold in_board in Hrc. lia.
    + destruct (decide (r = 0 /\ _)) as [[? _]|_]; [contradiction | reflexivity].
Qed.

Lemma board_get_lookup (b : Board) (r c : Z) :
  0 <= r -> board_get b r c = b !! Z.to_nat r ≫= fun row => index row c.
Proof.
  intros Hr. unfold board_get.
  replace (index b r) with (b !! Z.to_nat r); [reflexivity |].
  unfold index. destruct (decide (0 <= r)); [reflexivity | lia].
Qed.

Lemma index_emptyRow (c : Z) :
  0 <= c < gameGridWidth -> index emptyRow c = Some EmptyState.
Proof.
  intros Hc. unfold index, emptyRow. destruct (decide (0 <= c)); [| lia].
  apply lookup_replicate_2. lia.
Qed.

Lemma row_full_emptyRow : row_full emptyRow = false.
Proof. reflexivity. Qed.

Lemma wf_clear_row (b : Board) (y : nat) :
  wf_board b -> (y < Z.to_nat gameGridHeight)%nat -> wf_board (clear_row y b).
Proof.
  intros [Hlen Hrows] Hy. unfold clear_row. split.
  - cbn [length]. rewrite length_app, length_take, length_drop. lia.
  - constructor; [apply length_replicate |].
    apply Forall_app. split; [now apply Forall_take | now apply Forall_drop].
Qed.

Lemma clear_row_cells (b : Board) (y : nat) (r c : Z) :
  wf_board b -> (y < Z.to_nat gameGridHeight)%nat -> in_board r c ->
  board_get (clear_row y b) r c =
  if decide (r = 0) then Some EmptyState
  else if decide (1 <= r <= Z.of_nat y) then board_get b (r - 1) c
       else board_get b r c.
Proof.
  intros [Hlen Hrows] Hy [Hr Hc]. rewrite board_get_lookup by lia.
  unfold clear_row. destruct (decide (r = 0)) as [->|Hr0].
  - cbn. now apply index_emptyRow.
  - rewrite lookup_cons_ne_0 by lia.
    destruct (decide (1 <= r <= Z.of_nat y)) as [Hlow|Hhigh].
    + rewrite lookup_app_l by (rewrite length_take; lia).
      rewrite lookup_take_lt by lia. rewrite board_get_lookup by lia.
      now replace (Z.to_nat (r - 1)) with (Nat.pred (Z.to_nat r)) by lia.
    + rewrite lookup_app_r by (rewrite length_take; lia).
      rewrite length_take, lookup_drop, board_get_lookup by lia.
      now replace (Datatypes.S y + (Nat.pred (Z.to_nat r) - Nat.min y (length b)))%nat
        with (Z.to_nat r) by lia.
Qed.

Lemma shift_then_clear (b : Board) (y : Z) :
  wf_board b -> 0 <= y < gameGridHeight ->
  (b1 ← shift_down y b; clear_top b1) = Some (clear_row (Z.to_nat y) b).
Proof.
  intros Hwf Hy.
  destruct (shift_down_spec b y Hwf Hy) as (b1 & Hshift & Hwf1 & Hcells1).
  rewrite Hshift. cbn.
  destruct (clear_top_spec b1 Hwf1) as (b2 & Hclear & Hwf2 & Hcells2).
  rewrite Hclear. f_equal.
  assert (Hy' : (Z.to_nat y < Z.to_nat gameGridHeight)%nat) by lia.
  apply board_ext; [assumption | now apply wf_clear_row |].
  intros r c Hrc.
  rewrite (Hcells2 _ _ Hrc), (clear_row_cells b _ r c Hwf Hy' Hrc).
  destruct (decide (r = 0)); [reflexivity |].
  rewrite (Hcells1 _ _ Hrc).
  destruct (decide (1 <= r <= y)), (decide (1 <= r <= Z.of_nat (Z.to_nat y)));
    try reflexivity; lia.
Qed.

(** The body of the scan at row [y]: a full row is removed, any other row
    is left alone. *)
Lemma clear_if_full_spec (b : Board) (y : Z) (row : list ShapeState) :
  wf_board b -> 0 <= y < gameGridHeight -> index b y = Some row ->
  clear_if_full y b
  = Some (if row_full row then clear_row (Z.to_nat y) b else b).
Proof.
  intros Hwf Hy Hrow. unfold clear_if_full.
  destruct (wf_board_row b y Hwf Hy) as (row' & Hrow' & Hlen).
  assert (row' = row) by congruence. subst row'.
  rewrite (rowIsFull_spec b y row Hrow Hlen). cbn.
  destruct (row_full row); [| reflexivity].
  now apply shift_then_clear.
Qed.

(** *** The whole scan *)

Lemma length_compact (b : Board) : length (compact b) = length b.
Proof.
  unfold compact. rewrite length_app, length_replicate.
  pose proof (List.filter_length_le (fun row => negb (row_full row)) b). lia.
Qed.

Lemma compact_snoc (b : Board) (row : list ShapeState) :
  compact (b ++ [row])
  = if row_full row then emptyRow :: compact b else compact b ++ [row].
Proof.
  unfold compact. rewrite List.filter_app. cbn [List.filter].
  pose proof (List.filter_length_le (fun row => negb (row_full row)) b) as Hle.
  set (kept := List.filter (fun row => negb (row_full row)) b) in *.
  destruct (row_full row); cbn [negb].
  - rewrite app_nil_r, length_app. cbn [length].
    replace (length b + 1 - length kept)%nat
      with (Datatypes.S (length b - length kept)) by lia.
    reflexivity.
  - rewrite !length_app. cbn [length].
    replace (length b + 1 - (length kept + 1))%nat
      with (length b - length kept)%nat by lia.
    now rewrite app_assoc.
Qed.

Lemma Forall_filter_rows (P : list ShapeState -> Prop)
  (f : list ShapeState -> bool) (b : Board) :
  Forall P b -> Forall P (List.filter f b).
Proof.
  rewrite !Forall_forall. intros H row Hrow. apply H.
  apply list_elem_of_In in Hrow. apply List.filter_In in Hrow as [Hrow _].
  now apply list_elem_of_In.
Qed.

Lemma wf_compact_rows (b : Board) :
  Forall (fun row => length row = Z.to_nat gameGridWidth) b ->
  Forall (fun row => length row = Z.to_nat gameGridWidth) (compact b).
Proof.
  intros H. unfold compact. apply Forall_app. split.
  - apply Forall_replicate. apply length_replicate.
  - now apply Forall_filter_rows.
Qed.

Lemma wf_compact (b : Board) : wf_board b -> wf_board (compact b).
Proof.
  intros [Hlen Hrows]. split; [now rewrite length_compact |].
  now apply wf_compact_rows.
Qed.

Lemma wf_scan_state (b : Board) (k : nat) :
  wf_board b -> wf_board (scan_state b k).
Proof.
  intros [Hlen Hrows]. unfold scan_state. split.
  - rewrite length_app, length_compact, length_take, length_drop. lia.
  - apply Forall_app. split.
    + apply wf_compact_rows. now apply Forall_take.
    + now apply Forall_drop.
Qed.

Lemma scan_state_row (b : Board) (k : nat) (row : list ShapeState) :
  b !! k = Some row -> index (scan_state b k) (Z.of_nat k) = Some row.
Proof.
  intros Hrow. rewrite index_of_nat. unfold scan_state.
  assert (Hk : (k < length b)%nat) by (apply lookup_lt_is_Some; eauto).
  assert (Hlenc : length (compact (take k b)) = k).
  { rewrite length_compact, length_take. lia. }
  rewrite lookup_app_r by lia.
  now rewrite Hlenc, Nat.sub_diag, lookup_drop, Nat.add_0_r.
Qed.

Lemma scan_state_next (b : Board) (k : nat) (row : list ShapeState) :
  b !! k = Some row ->
  (if row_full row then clear_row k (scan_state b k) else scan_state b k)
  = scan_state b (Datatypes.S k).
Proof.
  intros Hrow. unfold scan_state.
  assert (Hk : (k < length b)%nat) by (apply lookup_lt_is_Some; eauto).
  assert (Hlenc : length (compact (take k b)) = k).
  { rewrite length_compact, length_take. lia. }
  rewrite (take_S_r b k row Hrow), compact_snoc.
  destruct (row_full row).
  - unfold clear_row.
    rewrite take_app_length' by (symmetry; exact Hlenc).
    rewrite drop_app_ge by lia.
    rewrite Hlenc, drop_drop.
    now replace (k + (Datatypes.S k - k))%nat with (Datatypes.S k) by lia.
  - rewrite (drop_S b row k Hrow), <- app_assoc. reflexivity.
Qed.

Lemma scan_from (b : Board) :
  wf_board b ->
  forall (n k : nat), (k + n = Z.to_nat gameGridHeight)%nat ->
    scan n (Z.of_nat k, scan_state b k) = Some (gameGridHeight, compact b).
Proof.
  intros Hwf. pose proof Hwf as [Hlen Hrows].
  induction n as [|n IH]; intros k Hk.
  - assert (Hk' : Z.of_nat k = gameGridHeight)
      by (unfold gameGridHeight in *; lia).
    cbn [scan fst]. rewrite Hk', Z.ltb_irrefl. unfold scan_state.
    rewrite take_ge, drop_ge, app_nil_r by lia. reflexivity.
  - cbn [scan fst].
    assert (Hk' : 0 <= Z.of_nat k < gameGridHeight)
      by (unfold gameGridHeight in *; lia).
    destruct (Z.of_nat k <? gameGridHeight) eqn:Hlt; [| lia].
    destruct (lookup_lt_is_Some_2 b k) as [row Hrow]; [lia |].
    unfold scan_step. cbn [fst snd].
    rewrite (clear_if_full_spec _ _ row (wf_scan_state b k Hwf) Hk'
               (scan_state_row b k row Hrow)).
    cbn. rewrite Nat2Z.id, (scan_state_next b k row Hrow).
    replace (Z.of_nat k + 1) with (Z.of_nat (Datatypes.S k)) by lia.
    apply IH. lia.
Qed.

(** [removeFullLines] always returns, and leaves the compacted board. *)
Lemma removeFullLines_board_compact (b : Board) :
  wf_board b -> removeFullLines_board b = Some (compact b).
Proof.
  intros Hwf. unfold removeFullLines_board.
  change (0, b) with (Z.of_nat 0, scan_state b 0).
  now rewrite (scan_from b Hwf (Z.to_nat gameGridHeight) 0 eq_refl).
Qed.

(** ** Masks as sets of cells *)

Lemma bitSet_testbit (shape k : Z) : 0 <= k -> bitSet shape k = Z.testbit shape k.
Proof.
  intros Hk. unfold bitSet. rewrite Z.shiftl_1_l.
  destruct (Z.testbit shape k) eqn:Hbit.
  - apply negb_true_iff, Z.eqb_neq. intros Hz.
    assert (Hk' : Z.testbit (Z.land shape (2 ^ k)) k = true).
    { rewrite Z.land_spec, Hbit, Z.pow2_bits_eqb, Z.eqb_refl by assumption.
      reflexivity. }
    rewrite Hz, Z.bits_0 in Hk'. discriminate.
  - apply negb_false_iff, Z.eqb_eq, Z.bits_inj'. intros j _.
    rewrite Z.land_spec, Z.bits_0, Z.pow2_bits_eqb by assumption.
    destruct (k =? j) eqn:Hkj; [| apply andb_false_r].
    apply Z.eqb_eq in Hkj. subst j. now rewrite Hbit.
Qed.

Lemma covers_footprint (shape x y r c : Z) :
  covers shape x y r c <-> footprint shape x y r c.
Proof.
  unfold covers, covers_below, hits, footprint, mask_cell. split.
  - intros (i & Hi & Hbit & Hc & Hr).
    pose proof (Z.quot_rem' i 4) as Hqr.
    pose proof (Z.rem_bound_pos i 4 ltac:(lia) ltac:(lia)) as Hrem.
    exists (Z.rem i 4), (Z.quot i 4).
    rewrite bitSet_testbit in Hbit by lia.
    repeat split; try assumption; try lia.
    now replace (4 * Z.quot i 4 + Z.rem i 4) with i by lia.
  - intros (col & row & Hcol & Hrow & Hbit & Hc & Hr).
    exists (4 * row + col). split; [lia |].
    rewrite bitSet_testbit by lia.
    rewrite <- (Z.rem_unique (4 * row + col) 4 row col) by lia.
    rewrite <- (Z.quot_unique (4 * row + col) 4 row col) by lia.
    auto.
Qed.

Lemma blocked_footprint (b : Board) (shape x y : Z) :
  (exists i, 0 <= i < 16 /\ blocked_at b shape x y i) <->
  (exists r c, footprint shape x y r c /\
               (~ in_board r c \/ board_get b r c = Some FixedState)).
Proof.
  split.
  - intros (i & Hi & Hbit & Hblock).
    exists (Int64.add y (Z.quot i 4)), (Int64.add x (Z.rem i 4)). split.
    + apply covers_footprint. exists i. unfold hits. auto.
    + destruct Hblock as [Hout | Hfix]; [left | now right].
      now apply isWithinBoard_false.
  - intros (r & c & Hfoot & Hblock).
    apply covers_footprint in Hfoot as (i & Hi & Hbit & Hc & Hr).
    exists i. split; [assumption |]. split; [assumption |]. subst r c.
    destruct Hblock as [Hout | Hfix]; [left | now right].
    now apply isWithinBoard_false.
Qed.

Lemma wf_emptyBoard : wf_board emptyBoard.
Proof. split; [reflexivity |]. repeat constructor. Qed.

(** ** The claims about the board operations *)

(** C8.  For every mask, origin and cell state, [fixPiece] writes the
    state into exactly the board cells of the mask's footprint that lie on
    the board; set bits that fall off the board are skipped without a
    fault (the call returns), and every other cell, like the piece and the
    cancellation flag, is left as it was. *)
Theorem fixPiece_stamps_footprint (g : Game) (shape x y : Z) (val : ShapeState) :
  wf_board (board g) ->
  exists g', fixPiece g shape x y val = Some g' /\
    piece g' = piece g /\ cancelled g' = cancelled g /\
    wf_board (board g') /\
    forall r c, in_board r c ->
      (footprint shape x y r c -> board_get (board g') r c = Some val) /\
      (~ footprint shape x y r c ->
       board_get (board g') r c = board_get (board g) r c).
Proof.
  intros Hwf. unfold fixPiece.
  destruct (fixPiece_board_spec (board g) shape x y val Hwf)
    as (b' & Hrun & Hwf' & Hcells).
  rewrite Hrun. cbn. eexists. split; [reflexivity |]. cbn.
  split; [reflexivity |]. split; [reflexivity |]. split; [assumption |].
  intros r c Hrc. rewrite <- covers_footprint. now apply Hcells.
Qed.

Lemma fixPiece_stamps_footprint_witness :
  wf_board emptyBoard /\
  exists g', fixPiece (mkGame (mkPiece (mkShape 0 0 FallingState)
                                       (mkPosition 8 18 8 18)
                                       (mkShape 0 0 EmptyState))
                              emptyBoard false)
                      0x0F00 8 18 FixedState = Some g' /\
             board_get (board g') 19 9 = Some FixedState /\
             board_get (board g') 19 7 = Some EmptyState.
Proof.
  split; [exact wf_emptyBoard |].
  destruct (fixPiece_stamps_footprint
              (mkGame (mkPiece (mkShape 0 0 FallingState)
                               (mkPosition 8 18 8 18)
                               (mkShape 0 0 EmptyState))
                      emptyBoard false)
              0x0F00 8 18 FixedState wf_emptyBoard)
    as (g' & Hrun & _ & _ & _ & _).
  exists g'. split; [exact Hrun |].
  vm_compute in Hrun. injection Hrun as <-. split; reflexivity.
Defined.

(** C10.  On the board array of the game (20 rows of 10 cells) a read or a
    write fails exactly when its row or column is out of range, and for
    every origin, on or off the board, [fixPiece] and [hasCollision] run to
    the end without such a failure: every access they make is in range.
    ([hasCollision] first indexes the table [shapes], which is not the
    board; the last part takes a rotation for which that succeeds.) *)
Theorem board_accesses_in_range (g : Game) (shape x y pos : Z) (val : ShapeState) :
  wf_board (board g) ->
  (forall r c, board_get (board g) r c = None <-> ~ in_board r c) /\
  (forall r c v, board_set (board g) r c v = None <-> ~ in_board r c) /\
  is_Some (fixPiece g shape x y val) /\
  is_Some (hasCollision_board (board g) shape x y) /\
  (is_Some (shapeAt (sh_shape (pc_Shape (piece g))) pos) ->
   is_Some (hasCollision g x y pos)).
Proof.
  intros Hwf. split; [| split; [| split; [| split]]].
  - intros r c. now apply board_get_None.
  - intros r c v. now apply board_set_None.
  - destruct (fixPiece_board_spec (board g) shape x y val Hwf)
      as (b' & Hrun & _).
    unfold fixPiece. rewrite Hrun. cbn. eauto.
  - destruct (hasCollision_board_spec (board g) shape x y Hwf)
      as (res & Hrun & _).
    now exists res.
  - intros [mask Hmask]. unfold hasCollision. rewrite Hmask. cbn.
    destruct (hasCollision_board_spec (board g) mask x y Hwf)
      as (res & Hrun & _).
    now exists res.
Qed.

Lemma board_accesses_in_range_witness :
  is_Some (fixPiece spawn_game 0x2222 (-3) 18 FallingState) /\
  is_Some (hasCollision spawn_game (2 ^ 63 - 1) (- 2 ^ 63) 1).
Proof.
  assert (Hwf : wf_board (board spawn_game)).
  { split; [reflexivity | repeat constructor]. }
  split.
  - exact (proj1 (proj2 (proj2 (board_accesses_in_range
             spawn_game 0x2222 (-3) 18 0 FallingState Hwf)))).
  - apply (proj2 (proj2 (proj2 (proj2 (board_accesses_in_range
             spawn_game 0 (2 ^ 63 - 1) (- 2 ^ 63) 1 EmptyState Hwf))))).
    now exists 0x2222.
Defined.

(** C4.  For every mask, origin and board, [hasCollision] returns [true]
    exactly when some cell of the mask's footprint is off the board or
    holds [FixedState]; a footprint that lies on the board over cells that
    are [EmptyState] or [FallingState] is no collision.  The function only
    reads: its result is a boolean and the game state is not an output. *)
Theorem hasCollision_iff_blocked (g : Game) (x y pos shape : Z) :
  wf_board (board g) ->
  shapeAt (sh_shape (pc_Shape (piece g))) pos = Some shape ->
  exists res,
    hasCollision g x y pos = Some res /\
    hasCollision_board (board g) shape x y = Some res /\
    (res = true <->
     exists r c, footprint shape x y r c /\
                 (~ in_board r c \/ board_get (board g) r c = Some FixedState)) /\
    ((forall r c, footprint shape x y r c ->
        in_board r c /\
        (board_get (board g) r c = Some EmptyState \/
         board_get (board g) r c = Some FallingState)) ->
     res = false).
Proof.
  intros Hwf Hshape. unfold hasCollision. rewrite Hshape. cbn.
  destruct (hasCollision_board_spec (board g) shape x y Hwf)
    as (res & Hrun & Hiff).
  rewrite blocked_footprint in Hiff.
  exists res. split; [assumption |]. split; [assumption |].
  split; [assumption |].
  intros Hfree. destruct res; [| reflexivity].
  destruct (proj1 Hiff eq_refl) as (r & c & Hfoot & Hblock).
  destruct (Hfree r c Hfoot) as [Hin Hcell].
  destruct Hblock as [Hout | Hfix]; [contradiction |].
  destruct Hcell as [He | Hf]; congruence.
Qed.

Lemma hasCollision_iff_blocked_witness :
  exists res,
    hasCollision game_blocked_at_spawn 0 0 0 = Some res /\
    (res = true <->
     exists r c, footprint 0x0F00 0 0 r c /\
       (~ in_board r c \/
        board_get (board game_blocked_at_spawn) r c = Some FixedState)).
Proof.
  assert (Hwf : wf_board (board game_blocked_at_spawn)).
  { split; [reflexivity | repeat constructor]. }
  destruct (hasCollision_iff_blocked game_blocked_at_spawn 0 0 0 0x0F00
              Hwf eq_refl) as (res & Hres & _ & Hiff & _).
  exists res. split; [exact Hres | exact Hiff].
Defined.

(** ** Row clearing as a whole *)

Lemma filter_no_full (b : Board) :
  no_full_rows b -> List.filter (fun row => negb (row_full row)) b = b.
Proof.
  induction 1 as [|row rest Hrow _ IH]; [reflexivity |].
  cbn. now rewrite Hrow, IH.
Qed.

Lemma compact_no_full (b : Board) : no_full_rows b -> compact b = b.
Proof.
  intros H. unfold compact. rewrite (filter_no_full b H), Nat.sub_diag.
  reflexivity.
Qed.

Lemma no_full_rows_compact (b : Board) : no_full_rows (compact b).
Proof.
  unfold compact, no_full_rows. apply Forall_app. split.
  - apply Forall_replicate. exact row_full_emptyRow.
  - apply Forall_forall. intros row Hrow.
    apply list_elem_of_In, List.filter_In in Hrow as [_ Hrow].
    now apply negb_true_iff.
Qed.

(** Full rows [mid] between two stretches without full rows. *)
Lemma compact_middle (above mid below : Board) :
  no_full_rows above -> no_full_rows below ->
  Forall (fun row => row_full row = true) mid ->
  compact (above ++ mid ++ below)
  = replicate (length mid) emptyRow ++ above ++ below.
Proof.
  intros Ha Hb Hm. unfold compact.
  rewrite !List.filter_app, (filter_no_full _ Ha), (filter_no_full _ Hb).
  assert (Hmid : List.filter (fun row => negb (row_full row)) mid = []).
  { induction Hm as [|row rest Hrow _ IH]; [reflexivity |].
    cbn. now rewrite Hrow. }
  rewrite Hmid, !length_app. cbn [app length]. do 2 f_equal. lia.
Qed.

Lemma no_full_rows_take_drop (b : Board) (lo hi : nat) :
  (forall r row, b !! r = Some row -> row_full row = true ->
                 (lo <= r < hi)%nat) ->
  no_full_rows (take lo b) /\ no_full_rows (drop hi b).
Proof.
  intros Honly. unfold no_full_rows. split; apply Forall_lookup; intros i row Hi.
  - apply lookup_take_Some in Hi as [Hi Hlt].
    destruct (row_full row) eqn:Hf; [| reflexivity].
    specialize (Honly _ _ Hi Hf). lia.
  - rewrite lookup_drop in Hi.
    destruct (row_full row) eqn:Hf; [| reflexivity].
    specialize (Honly _ _ Hi Hf). lia.
Qed.

(** *** The scan with re-checks gives the same board *)

Lemma recheck_step_spec (b : Board) (y : Z) (row : list ShapeState) :
  wf_board b -> 0 <= y < gameGridHeight -> index b y = Some row ->
  recheck_step (y, b)
  = Some (if row_full row then (y, clear_row (Z.to_nat y) b) else (y + 1, b)).
Proof.
  intros Hwf Hy Hrow. unfold recheck_step. cbn [fst snd].
  destruct (wf_board_row b y Hwf Hy) as (row' & Hrow' & Hlen).
  assert (row' = row) by congruence. subst row'.
  rewrite (rowIsFull_spec b y row Hrow Hlen). cbn.
  destruct (row_full row); [| reflexivity].
  pose proof (shift_then_clear b y Hwf Hy) as Hsc.
  destruct (shift_down y b) as [b1|]; [| discriminate]. cbn in *.
  now rewrite Hsc.
Qed.

Lemma scan_state_last_row (b : Board) (k : nat) :
  (k < length b)%nat ->
  exists row, index (scan_state b (Datatypes.S k)) (Z.of_nat k) = Some row /\
              row_full row = false.
Proof.
  intros Hk. rewrite index_of_nat. unfold scan_state.
  assert (Hlenc : length (compact (take (Datatypes.S k) b)) = Datatypes.S k).
  { rewrite length_compact, length_take. lia. }
  destruct (lookup_lt_is_Some_2 (compact (take (Datatypes.S k) b)) k)
    as [row Hrow]; [lia |].
  exists row. rewrite lookup_app_l by lia. split; [assumption |].
  pose proof (no_full_rows_compact (take (Datatypes.S k) b)) as Hnf.
  unfold no_full_rows in Hnf. rewrite Forall_lookup in Hnf. eauto.
Qed.

Lemma recheck_from (b : Board) :
  wf_board b ->
  forall (n k fuel : nat),
    (k + n = Z.to_nat gameGridHeight)%nat -> (2 * n <= fuel)%nat ->
    recheck_scan fuel (Z.of_nat k, scan_state b k)
    = Some (gameGridHeight, compact b).
Proof.
  intros Hwf. pose proof Hwf as [Hlen Hrows].
  induction n as [|n IH]; intros k fuel Hk Hfuel.
  - assert (Hk' : Z.of_nat k = gameGridHeight)
      by (unfold gameGridHeight in *; lia).
    destruct fuel; cbn [recheck_scan fst]; rewrite Hk', Z.ltb_irrefl;
      unfold scan_state; rewrite take_ge, drop_ge, app_nil_r by lia;
      reflexivity.
  - destruct fuel as [|[|fuel]]; [lia | lia |].
    assert (Hk' : 0 <= Z.of_nat k < gameGridHeight)
      by (unfold gameGridHeight in *; lia).
    assert (Hnext : recheck_scan (Datatypes.S fuel)
                      (Z.of_nat k + 1, scan_state b (Datatypes.S k))
                    = Some (gameGridHeight, compact b)).
    { replace (Z.of_nat k + 1) with (Z.of_nat (Datatypes.S k)) by lia.
      apply IH; lia. }
    destruct (lookup_lt_is_Some_2 b k) as [row Hrow]; [lia |].
    pose proof (scan_state_next b k row Hrow) as Hstep.
    cbn [recheck_scan fst].
    destruct (Z.of_nat k <? gameGridHeight) eqn:Hlt; [| lia].
    rewrite (recheck_step_spec _ _ row (wf_scan_state b k Hwf) Hk'
               (scan_state_row b k row Hrow)).
    rewrite Nat2Z.id. destruct (row_full row); rewrite Hstep; cbn.
    + (* cleared: the same index again, where the row is not full *)
      rewrite Hlt.
      destruct (scan_state_last_row b k) as (row' & Hrow' & Hnf); [lia |].
      rewrite (recheck_step_spec _ _ row' (wf_scan_state b _ Hwf) Hk' Hrow').
      rewrite Hnf. cbn.
      replace (Z.of_nat k + 1) with (Z.of_nat (Datatypes.S k)) by lia.
      apply IH; lia.
    + exact Hnext.
Qed.

Lemma clearFullRows_recheck_compact (b : Board) :
  wf_board b -> clearFullRows_recheck b = Some (compact b).
Proof.
  intros Hwf. unfold clearFullRows_recheck.
  change (0, b) with (Z.of_nat 0, scan_state b 0).
  now rewrite (recheck_from b Hwf (Z.to_nat gameGridHeight) 0 _ eq_refl
                 (Nat.le_refl _)).
Qed.

(** *** Stack height *)

Lemma row_occupied_emptyRow : row_occupied emptyRow = false.
Proof. reflexivity. Qed.

Lemma row_full_occupied (row : list ShapeState) :
  row_full row = true -> length row = Z.to_nat gameGridWidth ->
  row_occupied row = true.
Proof.
  intros Hfull Hlen. destruct row as [|c rest]; [discriminate Hlen |].
  cbn in Hfull. apply andb_true_iff in Hfull as [Hc _].
  apply bool_decide_eq_true in Hc. subst c. reflexivity.
Qed.

Lemma stack_app_occupied (above rest : Board) :
  stack above <> [] -> stack (above ++ rest) = stack above ++ rest.
Proof.
  induction above as [|row above IH]; intros Hne; [contradiction |].
  cbn in *. destruct (row_occupied row); [reflexivity | now apply IH].
Qed.

Lemma stack_app_unoccupied (above rest : Board) :
  stack above = [] -> stack (above ++ rest) = stack rest.
Proof.
  induction above as [|row above IH]; intros He; [reflexivity |].
  cbn in *. destruct (row_occupied row); [discriminate | now apply IH].
Qed.

Lemma stack_all_occupied (b : Board) :
  Forall (fun row => row_occupied row = true) b -> stack b = b.
Proof. intros H. destruct H as [|row rest Hrow _]; cbn; [| rewrite Hrow]; reflexivity. Qed.

Lemma occupied_rows_app (b1 b2 : Board) :
  occupied_rows (b1 ++ b2) = (occupied_rows b1 + occupied_rows b2)%nat.
Proof. unfold occupied_rows. now rewrite List.filter_app, length_app. Qed.

(** Two full rows in the middle of a board, and the board without them
    under two empty rows. *)
Lemma two_rows_less (above below : Board) (row1 row2 : list ShapeState) :
  row_occupied row1 = true -> row_occupied row2 = true ->
  let before := above ++ row1 :: row2 :: below in
  let after := emptyRow :: emptyRow :: above ++ below in
  (occupied_rows after + 2 = occupied_rows before)%nat /\
  (settled before -> (stack_height after + 2 = stack_height before)%nat).
Proof.
  intros Ho1 Ho2 before after. split.
  - unfold before, after.
    change (emptyRow :: emptyRow :: above ++ below)
      with ([emptyRow; emptyRow] ++ above ++ below).
    change (row1 :: row2 :: below) with ([row1; row2] ++ below).
    rewrite !occupied_rows_app. unfold occupied_rows at 1 5.
    cbn [List.filter]. rewrite Ho1, Ho2, row_occupied_emptyRow.
    cbn [length]. lia.
  - unfold settled, stack_height, before, after. intros Hset.
    cbn [stack]. rewrite row_occupied_emptyRow.
    destruct (stack above) as [|top rest] eqn:Habove.
    + rewrite stack_app_unoccupied in Hset |- * by assumption.
      rewrite (stack_app_unoccupied above (row1 :: _)) by assumption.
      cbn [stack] in *. rewrite Ho1 in *.
      inversion Hset as [|? ? _ Hset']. inversion Hset' as [|? ? _ Hbelow].
      rewrite (stack_all_occupied below Hbelow). cbn. lia.
    + rewrite !stack_app_occupied by (rewrite Habove; discriminate).
      rewrite !length_app. cbn. lia.
Qed.

(** ** The claims about [removeFullLines] *)

(** C1, as the code has it.  [removeFullLines] scans the rows from the top
    (index 0) to the bottom; a row counts as full exactly when every cell of
    it is [FixedState]; a turn of the scan at a full row [y] moves the rows
    above it down by one and empties row 0, and then, like a turn at any
    other row, moves the scan index on to [y + 1].  The index is not held
    back: the row that arrives at [y] was examined before and is not full.
    The scan therefore leaves no full row, and its result is the one of a
    scan that examines the same index again after each clearing. *)
Theorem removeFullLines_scan (b : Board) (y : Z) (row : list ShapeState) :
  wf_board b -> 0 <= y < gameGridHeight -> index b y = Some row ->
  (row_full row = true <-> Forall (fun c => c = FixedState) row) /\
  scan_step (y, b)
  = Some (y + 1,
          if row_full row
          then emptyRow :: take (Z.to_nat y) b ++ drop (Datatypes.S (Z.to_nat y)) b
          else b) /\
  scan (Z.to_nat gameGridHeight) (0, b) = Some (gameGridHeight, compact b) /\
  removeFullLines_board b = Some (compact b) /\
  no_full_rows (compact b) /\
  clearFullRows_recheck b = removeFullLines_board b.
Proof.
  intros Hwf Hy Hrow. split; [apply row_full_Forall |]. split.
  { unfold scan_step. cbn [fst snd].
    now rewrite (clear_if_full_spec b y row Hwf Hy Hrow). }
  split.
  { change (0, b) with (Z.of_nat 0, scan_state b 0).
    exact (scan_from b Hwf (Z.to_nat gameGridHeight) 0 eq_refl). }
  split; [now apply removeFullLines_board_compact |].
  split; [apply no_full_rows_compact |].
  now rewrite clearFullRows_recheck_compact, removeFullLines_board_compact.
Qed.

Lemma removeFullLines_scan_witness :
  scan_step (5, board_row5_full) = Some (6, emptyBoard) /\
  removeFullLines_board board_row5_full = Some emptyBoard.
Proof.
  assert (Hwf : wf_board board_row5_full).
  { split; [reflexivity |]. repeat constructor. }
  destruct (removeFullLines_scan board_row5_full 5 (replicate 10 FixedState)
              Hwf ltac:(unfold gameGridHeight; lia) eq_refl)
    as (_ & Hstep & _ & Hall & _).
  split; [exact Hstep | exact Hall].
Defined.

(** C1 as the claim words it fails: at a full row the scan index moves on.
    On the board whose row 5 is full, the turn of the scan at index 5 ends
    at index 6; a turn that held the index back would end at 5. *)
Lemma removeFullLines_index_advances :
  rowIsFull board_row5_full 5 (seqZ 0 gameGridWidth) = Some true /\
  fst <$> scan_step (5, board_row5_full) = Some 6 /\
  fst <$> recheck_step (5, board_row5_full) = Some 5 /\
  ~ (forall (b : Board) (y : Z) (s' : Z * Board),
       rowIsFull b y (seqZ 0 gameGridWidth) = Some true ->
       scan_step (y, b) = Some s' -> fst s' = y).
Proof.
  split; [reflexivity |]. split; [reflexivity |]. split; [reflexivity |].
  intros Hclaim.
  specialize (Hclaim board_row5_full 5 (6, emptyBoard) eq_refl eq_refl).
  discriminate Hclaim.
Qed.

(** C5.  On a board without full rows [removeFullLines] changes nothing, and
    it is idempotent on every board.  When row [r] is the only full row, the
    rows above [r] move down by one under a new empty row 0 and the rows
    below [r] stay.  When rows [r] and [r + 1] are the only full rows, both
    go: two rows fewer are occupied, and on a board without gaps in its
    stack the height of the stack drops by exactly 2. *)
Theorem removeFullLines_cases (b : Board) :
  wf_board b ->
  (no_full_rows b -> removeFullLines_board b = Some b) /\
  (exists b', removeFullLines_board b = Some b' /\
              removeFullLines_board b' = Some b') /\
  (forall (r : nat) row,
     b !! r = Some row -> row_full row = true ->
     (forall r' row', b !! r' = Some row' -> row_full row' = true -> r' = r) ->
     removeFullLines_board b
     = Some (emptyRow :: take r b ++ drop (Datatypes.S r) b)) /\
  (forall (r : nat) row1 row2,
     b !! r = Some row1 -> b !! Datatypes.S r = Some row2 ->
     row_full row1 = true -> row_full row2 = true ->
     (forall r' row', b !! r' = Some row' -> row_full row' = true ->
                      r' = r \/ r' = Datatypes.S r) ->
     exists b',
       removeFullLines_board b = Some b' /\
       b' = emptyRow :: emptyRow :: take r b ++ drop (Datatypes.S (Datatypes.S r)) b /\
       (occupied_rows b' + 2 = occupied_rows b)%nat /\
       (settled b -> (stack_height b' + 2 = stack_height b)%nat)).
Proof.
  intros Hwf. pose proof Hwf as [Hlen Hrows].
  rewrite (removeFullLines_board_compact b Hwf).
  split; [| split; [| split]].
  - intros Hnf. now rewrite compact_no_full.
  - exists (compact b). split; [reflexivity |].
    rewrite (removeFullLines_board_compact _ (wf_compact b Hwf)).
    now rewrite (compact_no_full _ (no_full_rows_compact b)).
  - intros r row Hrow Hfull Honly.
    destruct (no_full_rows_take_drop b r (Datatypes.S r)) as [Ha Hb].
    { intros r' row' H1 H2. specialize (Honly _ _ H1 H2). lia. }
    rewrite <- (take_drop_middle b r row Hrow) at 1.
    change (row :: drop (Datatypes.S r) b)
      with ([row] ++ drop (Datatypes.S r) b).
    rewrite (compact_middle _ [row] _ Ha Hb); [reflexivity |].
    now repeat constructor.
  - intros r row1 row2 Hrow1 Hrow2 Hfull1 Hfull2 Honly.
    destruct (no_full_rows_take_drop b r (Datatypes.S (Datatypes.S r)))
      as [Ha Hb].
    { intros r' row' H1 H2. specialize (Honly _ _ H1 H2). lia. }
    assert (Hsplit : b = take r b ++ row1 :: row2
                           :: drop (Datatypes.S (Datatypes.S r)) b).
    { rewrite <- (drop_S b row2 (Datatypes.S r) Hrow2).
      symmetry. now apply take_drop_middle. }
    assert (Hocc1 : row_occupied row1 = true).
    { apply row_full_occupied; [assumption |].
      rewrite Forall_lookup in Hrows. eauto. }
    assert (Hocc2 : row_occupied row2 = true).
    { apply row_full_occupied; [assumption |].
      rewrite Forall_lookup in Hrows. eauto. }
    eexists. split; [reflexivity |].
    assert (Hc : compact b = emptyRow :: emptyRow :: take r b
                             ++ drop (Datatypes.S (Datatypes.S r)) b).
    { rewrite Hsplit at 1.
      change (row1 :: row2 :: drop (Datatypes.S (Datatypes.S r)) b)
        with ([row1; row2] ++ drop (Datatypes.S (Datatypes.S r)) b).
      rewrite (compact_middle _ [row1; row2] _ Ha Hb); [reflexivity |].
      now repeat constructor. }
    split; [exact Hc |]. rewrite Hc.
    pose proof (two_rows_less (take r b)
                  (drop (Datatypes.S (Datatypes.S r)) b) row1 row2 Hocc1 Hocc2)
      as Htwo.
    cbn zeta in Htwo. rewrite <- Hsplit in Htwo. exact Htwo.
Qed.

Lemma two_full_rows_only (r' : nat) (row' : list ShapeState) :
  two_full_rows !! r' = Some row' -> row_full row' = true ->
  r' = 18%nat \/ r' = 19%nat.
Proof.
  intros Hrow Hfull.
  do 20 (destruct r' as [|r'];
         [cbn in Hrow; injection Hrow as <-;
          first [discriminate Hfull | auto] |]).
  discriminate Hrow.
Qed.

Lemma removeFullLines_cases_witness :
  exists b',
    removeFullLines_board two_full_rows = Some b' /\
    b' = emptyRow :: emptyRow :: take 18 two_full_rows ++ drop 20 two_full_rows /\
    (occupied_rows b' + 2 = occupied_rows two_full_rows)%nat /\
    (stack_height b' + 2 = stack_height two_full_rows)%nat.
Proof.
  assert (Hwf : wf_board two_full_rows).
  { split; [reflexivity | repeat constructor]. }
  assert (Hset : settled two_full_rows).
  { unfold settled. cbn. repeat constructor. }
  destruct (proj2 (proj2 (proj2 (removeFullLines_cases two_full_rows Hwf)))
              18%nat (replicate 10 FixedState) (replicate 10 FixedState)
              eq_refl eq_refl eq_refl eq_refl two_full_rows_only)
    as (b' & Hrun & Hb' & Hocc & Hheight).
  exists b'. repeat (split; [assumption |]). now apply Hheight.
Defined.

(** ** Pieces *)

Lemma shapeAt_valid (shape pos : Z) :
  0 <= shape < 7 -> 0 <= pos < 4 ->
  exists m, shapeAt shape pos = Some m /\ 0 < m < 65536.
Proof.
  intros Hs Hp.
  assert (Hs' : shape = 0 \/ shape = 1 \/ shape = 2 \/ shape = 3 \/
                shape = 4 \/ shape = 5 \/ shape = 6) by lia.
  assert (Hp' : pos = 0 \/ pos = 1 \/ pos = 2 \/ pos = 3) by lia.
  destruct Hs' as [->|[->|[->|[->|[->|[->| ->]]]]]];
    destruct Hp' as [->|[->|[->| ->]]];
    (eexists; split; [reflexivity | lia]).
Qed.

Lemma getTopOffset_bounds (shape : Z) : 0 <= getTopOffset shape <= 3.
Proof.
  unfold getTopOffset. cbn [getTopOffset_from].
  repeat (destruct (negb _); [lia |]). lia.
Qed.

Lemma rem4_bounds (i : Z) : 0 <= i -> 0 <= Z.rem i 4 <= 3.
Proof. intros Hi. pose proof (Z.rem_bound_pos i 4 Hi). lia. Qed.

Lemma foldl_seqZ_inv {A} (P : A -> Prop) (f : A -> Z -> A) (a : A) (lo n : Z) :
  P a -> (forall acc i, lo <= i < lo + n -> P acc -> P (f acc i)) ->
  P (foldl f a (seqZ lo n)).
Proof.
  intros Ha Hstep.
  assert (Hall : Forall (fun i => lo <= i < lo + n) (seqZ lo n)).
  { apply Forall_seqZ. auto. }
  revert a Ha. induction Hall as [|i rest Hi _ IH]; intros a Ha; cbn; auto.
Qed.

Lemma findFirstNonEmptyColumn_bounds (shape : Z) :
  0 <= findFirstNonEmptyColumn shape <= 4.
Proof.
  unfold findFirstNonEmptyColumn.
  apply (foldl_seqZ_inv (fun acc => 0 <= acc <= 4)); [lia |].
  intros acc i Hi Hacc. pose proof (rem4_bounds i ltac:(lia)).
  destruct (bitSet _ _); [| assumption].
  cbn zeta. destruct (Z.rem i 4 <? acc); lia.
Qed.

Lemma getShapeDimensions_bounds (shape : Z) :
  -3 <= getShapeDimensions shape <= 4.
Proof.
  unfold getShapeDimensions.
  match goal with
  | |- context [foldl ?f ?a ?l] =>
      assert (H : (fun p => 0 <= fst p <= 4 /\ 0 <= snd p <= 3) (foldl f a l))
  end.
  { apply foldl_seqZ_inv; [cbn; lia |].
    intros [minX maxX] i Hi Hacc. cbn [fst snd] in *.
    pose proof (rem4_bounds i ltac:(lia)).
    destruct (bitSet _ _); [| assumption].
    cbn zeta. cbn [fst snd].
    destruct (Z.rem i 4 <? minX), (maxX <? Z.rem i 4); lia. }
  cbn beta in H. destruct (foldl _ _ _) as [minX maxX]. cbn [fst snd] in H. lia.
Qed.

(** ** The commit pass: [moveShape], [removeFullLines] and [tick] *)

Lemma currentMask_valid (g : Game) :
  wf_game g -> exists m, currentMask g = Some m /\ 0 < m < 65536.
Proof. intros (_ & [Hs Hp] & _). now apply shapeAt_valid. Qed.

Lemma hasCollision_total (g : Game) (x y pos : Z) :
  wf_game g -> 0 <= pos < 4 -> exists res, hasCollision g x y pos = Some res.
Proof.
  intros (Hwf & [Hs _] & _) Hp.
  destruct (shapeAt_valid _ pos Hs Hp) as (m & Hm & _).
  destruct (hasCollision_board_spec (board g) m x y Hwf) as (res & Hres & _).
  exists res. unfold hasCollision. now rewrite Hm.
Qed.

Lemma moveShape_spec (g : Game) :
  wf_game g ->
  exists mo mc b1 b2,
    shapeAt (sh_shape (pc_PreviousShape (piece g)))
            (sh_pos (pc_PreviousShape (piece g))) = Some mo /\
    currentMask g = Some mc /\
    fixPiece_board (board g) mo (p_oldX (pc_Position (piece g)))
                   (p_oldY (pc_Position (piece g))) EmptyState = Some b1 /\
    fixPiece_board b1 mc (p_x (pc_Position (piece g)))
                   (p_y (pc_Position (piece g)))
                   (sh_state (pc_Shape (piece g))) = Some b2 /\
    wf_board b1 /\ wf_board b2 /\
    moveShape g = Some (mkGame (sync_piece (piece g)) b2 (cancelled g)).
Proof.
  intros (Hwf & [Hs Hp] & [Hos Hop]).
  destruct (shapeAt_valid _ _ Hos Hop) as (mo & Hmo & _).
  destruct (shapeAt_valid _ _ Hs Hp) as (mc & Hmc & _).
  destruct (fixPiece_board_spec (board g) mo (p_oldX (pc_Position (piece g)))
              (p_oldY (pc_Position (piece g))) EmptyState Hwf)
    as (b1 & Hb1 & Hwf1 & _).
  destruct (fixPiece_board_spec b1 mc (p_x (pc_Position (piece g)))
              (p_y (pc_Position (piece g))) (sh_state (pc_Shape (piece g))) Hwf1)
    as (b2 & Hb2 & Hwf2 & _).
  exists mo, mc, b1, b2. repeat (split; [assumption |]).
  unfold moveShape, fixPiece. rewrite Hmo. cbn. rewrite Hb1. cbn.
  rewrite Hmc. cbn. rewrite Hb2. reflexivity.
Qed.

Lemma valid_sync_piece (p : Piece) :
  valid_shape (pc_Shape p) ->
  valid_shape (pc_Shape (sync_piece p)) /\
  valid_shape (pc_PreviousShape (sync_piece p)) /\
  committed (sync_piece p).
Proof. intros Hv. repeat split; apply Hv. Qed.

(** [tick] always returns: the piece is synchronised, the board is the
    compacted board that [moveShape] leaves. *)
Lemma tick_spec (g : Game) :
  wf_game g ->
  exists g', tick g = Some g' /\ wf_game g' /\
    piece g' = sync_piece (piece g) /\ cancelled g' = cancelled g /\
    no_full_rows (board g') /\
    exists g1, moveShape g = Some g1 /\ board g' = compact (board g1).
Proof.
  intros Hwf.
  destruct (moveShape_spec g Hwf)
    as (mo & mc & b1 & b2 & _ & _ & _ & _ & _ & Hwf2 & Hmove).
  unfold tick. rewrite Hmove. cbn. unfold removeFullLines. cbn.
  rewrite (removeFullLines_board_compact b2 Hwf2). cbn.
  eexists. split; [reflexivity |]. cbn.
  destruct Hwf as (_ & Hv & _).
  destruct (valid_sync_piece (piece g) Hv) as (Hv1 & Hv2 & _).
  split; [split; [now apply wf_compact | split; assumption] |].
  split; [reflexivity |]. split; [reflexivity |].
  split; [apply no_full_rows_compact |].
  eexists. split; reflexivity.
Qed.

Lemma tick_committed (g : Game) :
  wf_game g ->
  exists g', tick g = Some g' /\ wf_game g' /\ committed (piece g') /\
             piece g' = sync_piece (piece g).
Proof.
  intros Hwf. destruct (tick_spec g Hwf) as (g' & Ht & Hwf' & Hp & _).
  exists g'. repeat (split; [assumption |]). split; [| assumption].
  rewrite Hp. apply valid_sync_piece. apply Hwf.
Qed.

Lemma wf_game_set_piece (g : Game) (p : Piece) :
  wf_game g -> valid_shape (pc_Shape p) ->
  valid_shape (pc_PreviousShape p) -> wf_game (set_piece g p).
Proof. intros (Hb & _ & _) Hs Hp. split; [exact Hb | split; assumption]. Qed.

(** ** The wall-kick loop *)

Lemma add_sub_1 (x d : Z) :
  0 <= Int64.add x d -> Int64.add (Int64.sub x 1) d = Int64.add x d - 1.
Proof.
  unfold Int64.add, Int64.sub. intros Hpos.
  rewrite Int64Facts.wrap_wrap_add.
  replace (x - 1 + d) with (x + d + -1) by lia.
  rewrite <- Int64Facts.wrap_wrap_add.
  apply Int64Facts.wrap_small.
  pose proof (Int64Facts.wrap_in_range (x + d)) as Hr.
  unfold Int64.in_range, Int64.half in *. lia.
Qed.

Lemma set_piece_with_x_id (g : Game) :
  set_piece g (with_x (piece g) (p_x (pc_Position (piece g)))) = g.
Proof. destruct g as [[s [x y ox oy] ps] b c]. reflexivity. Qed.

(** The loop always leaves through its guard, with nothing but [x]
    changed. *)
Lemma kick_total (fuel : nat) :
  forall g, wf_game g -> (kick_fuel g <= fuel)%nat ->
    exists x', kick fuel g = Some (set_piece g (with_x (piece g) x')) /\
               kick_cond (set_piece g (with_x (piece g) x')) = Some false.
Proof.
  induction fuel as [|fuel IH]; intros g Hwf Hfuel.
  - destruct (currentMask_valid g Hwf) as (m & Hm & _).
    unfold kick_fuel in Hfuel. rewrite Hm in Hfuel.
    exists (p_x (pc_Position (piece g))). rewrite set_piece_with_x_id.
    cbn [kick]. unfold kick_cond. rewrite Hm. cbn.
    destruct (0 <=? _) eqn:Hpos; [lia |]. cbn. auto.
  - destruct (currentMask_valid g Hwf) as (m & Hm & _).
    pose proof Hfuel as Hfuel'. unfold kick_fuel in Hfuel'. rewrite Hm in Hfuel'.
    cbn [kick]. unfold kick_cond at 1. rewrite Hm. cbn.
    destruct (0 <=? Int64.add (p_x (pc_Position (piece g)))
                              (findFirstNonEmptyColumn m)) eqn:Hpos.
    + destruct (hasCollision_total g (p_x (pc_Position (piece g)))
                  (p_y (pc_Position (piece g))) (sh_pos (pc_Shape (piece g))) Hwf)
        as (res & Hres); [apply Hwf |].
      rewrite Hres. cbn. destruct res.
      * set (g1 := set_piece g _).
        assert (Hwf1 : wf_game g1) by (apply wf_game_set_piece; apply Hwf).
        destruct (IH g1 Hwf1) as (x' & Hrun & Hexit).
        { unfold kick_fuel.
          replace (currentMask g1) with (Some m)
            by (rewrite <- Hm; reflexivity).
          cbn. rewrite add_sub_1 by lia. lia. }
        exists x'. rewrite Hrun. split; [reflexivity | exact Hexit].
      * exists (p_x (pc_Position (piece g))). rewrite set_piece_with_x_id.
        split; [reflexivity |]. unfold kick_cond. rewrite Hm. cbn.
        now rewrite Hpos.
    + exists (p_x (pc_Position (piece g))). rewrite set_piece_with_x_id.
      split; [reflexivity |]. unfold kick_cond. rewrite Hm. cbn.
      now rewrite Hpos.
Qed.

Lemma rotate_search_spec (g : Game) :
  wf_game g ->
  exists pos' x' y',
    0 <= pos' < 4 /\
    rotate_search g
    = Some (set_piece g (with_y (with_x (with_pos (piece g) pos') x') y')).
Proof.
  intros Hwf. pose proof Hwf as (Hb & [Hs Hp] & Hprev).
  destruct (currentMask_valid g Hwf) as (m & Hm & _).
  unfold rotate_search. rewrite Hm. cbn.
  set (pos' := Z.rem (Int64.add (sh_pos (pc_Shape (piece g))) 1) 4).
  assert (Hpos' : 0 <= pos' < 4).
  { unfold pos'. rewrite Int64Facts.add_small
      by (unfold Int64.in_range, Int64.half; lia).
    pose proof (Z.rem_bound_pos (sh_pos (pc_Shape (piece g)) + 1) 4). lia. }
  destruct (shapeAt_valid _ pos' Hs Hpos') as (m1 & Hm1 & _).
  unfold currentMask at 1. cbn. fold pos'. rewrite Hm1. cbn.
  set (g3 := set_piece g _).
  assert (Hwf3 : wf_game g3).
  { apply wf_game_set_piece; [assumption | | assumption]. now split. }
  destruct (kick_total (kick_fuel g3) g3 Hwf3 (Nat.le_refl _)) as (x' & Hrun & _).
  rewrite Hrun. exists pos', x'. eexists. split; [assumption |].
  destruct g as [[s [x y ox oy] ps] b c]. reflexivity.
Qed.

(** ** The command handlers *)

#[local] Arguments getTopOffset : simpl never.
#[local] Arguments findFirstNonEmptyColumn : simpl never.
#[local] Arguments getShapeDimensions : simpl never.
#[local] Arguments Int64.add : simpl never.
#[local] Arguments Int64.sub : simpl never.
#[local] Arguments Int64.neg : simpl never.
#[local] Arguments tick : simpl never.
#[local] Arguments hasCollision : simpl never.

(** The guard of [moveLeft] and the state it hands to [tick]. *)
Lemma moveLeft_unfold (g : Game) :
  wf_game g ->
  let p := piece g in
  let q := pc_Position p in
  exists m ok,
    currentMask g = Some m /\
    (ok = true <->
     0 <= Int64.sub (Int64.add (p_x q) (findFirstNonEmptyColumn m)) 1 /\
     hasCollision g (Int64.sub (p_x q) 1) (p_y q) (sh_pos (pc_Shape p))
     = Some false) /\
    moveLeft g
    = tick (if ok : bool then set_piece g (with_x p (Int64.sub (p_x q) 1))
            else g).
Proof.
  intros Hwf p q. destruct (currentMask_valid g Hwf) as (m & Hm & _).
  destruct (hasCollision_total g (Int64.sub (p_x q) 1) (p_y q)
              (sh_pos (pc_Shape p)) Hwf) as (res & Hres); [apply Hwf |].
  unfold moveLeft. fold p q. rewrite Hm. cbn.
  destruct (0 <=? Int64.sub (Int64.add (p_x q) (findFirstNonEmptyColumn m)) 1)
    eqn:Hb.
  - rewrite Hres. cbn. exists m, (negb res). split; [reflexivity |].
    split; [| reflexivity]. destruct res; cbn; split.
    + discriminate.
    + intros [_ H]. discriminate.
    + intros _. split; [lia | reflexivity].
    + reflexivity.
  - exists m, false. split; [reflexivity |]. split; [| reflexivity].
    split; [discriminate | lia].
Qed.

Lemma moveRight_unfold (g : Game) :
  wf_game g ->
  let p := piece g in
  let q := pc_Position p in
  exists m ok,
    currentMask g = Some m /\
    (ok = true <->
     Int64.add (Int64.add (p_x q) (findFirstNonEmptyColumn m))
               (getShapeDimensions m) < gameGridWidth /\
     hasCollision g (Int64.add (p_x q) 1) (p_y q) (sh_pos (pc_Shape p))
     = Some false) /\
    moveRight g
    = tick (if ok : bool then set_piece g (with_x p (Int64.add (p_x q) 1))
            else g).
Proof.
  intros Hwf p q. destruct (currentMask_valid g Hwf) as (m & Hm & _).
  destruct (hasCollision_total g (Int64.add (p_x q) 1) (p_y q)
              (sh_pos (pc_Shape p)) Hwf) as (res & Hres); [apply Hwf |].
  unfold moveRight. fold p q. rewrite Hm. cbn.
  destruct (Int64.add (Int64.add (p_x q) (findFirstNonEmptyColumn m))
                      (getShapeDimensions m) <? gameGridWidth) eqn:Hb.
  - rewrite Hres. cbn. exists m, (negb res). split; [reflexivity |].
    split; [| reflexivity]. destruct res; cbn; split.
    + discriminate.
    + intros [_ H]. discriminate.
    + intros _. split; [lia | reflexivity].
    + reflexivity.
  - exists m, false. split; [reflexivity |]. split; [| reflexivity].
    split; [discriminate | lia].
Qed.

Lemma wf_game_with_x (g : Game) (v : Z) :
  wf_game g -> wf_game (set_piece g (with_x (piece g) v)).
Proof. intros Hwf. apply wf_game_set_piece; apply Hwf. Qed.

Lemma newPiece_spec (r : Z) (g : Game) :
  0 <= r < 4 -> wf_board (board g) ->
  exists g', newPiece r g = Some g' /\ wf_game g' /\ committed (piece g') /\
    board g' = board g /\ cancelled g' = cancelled g /\
    sh_state (pc_Shape (piece g')) = FallingState.
Proof.
  intros Hr Hwf. destruct (shapeAt_valid 0 r ltac:(lia) Hr) as (m & Hm & _).
  unfold newPiece. rewrite Hm. cbn [mbind option_bind].
  eexists. split; [reflexivity |].
  unfold wf_game, committed, valid_shape, set_piece.
  cbn [piece board cancelled pc_Shape pc_Position pc_PreviousShape
       sh_shape sh_pos sh_state p_x p_y p_oldX p_oldY].
  split; [split; [assumption | split; split; lia] |].
  split; [now repeat split |]. now repeat split.
Qed.

(** The tail of [moveDown] ends in [tick]. *)
Lemma moveDown_commit_committed (r : Z) (g : Game) :
  0 <= r < 4 -> wf_game g ->
  exists g', moveDown_commit r g = Some g' /\ wf_game g' /\
             committed (piece g').
Proof.
  intros Hr Hwf. unfold moveDown_commit.
  destruct (decide (sh_state (pc_Shape (piece g)) = FixedState)).
  - destruct (tick_committed g Hwf) as (g1 & Ht1 & Hwf1 & _).
    rewrite Ht1. cbn.
    destruct (newPiece_spec r g1 Hr (proj1 Hwf1)) as (g2 & Hn & Hwf2 & _).
    rewrite Hn. cbn.
    destruct (tick_committed g2 Hwf2) as (g3 & Ht3 & Hwf3 & Hc3 & _).
    eauto.
  - cbn. destruct (tick_committed g Hwf) as (g1 & Ht1 & Hwf1 & Hc1 & _).
    eauto.
Qed.

(** C9.  Every command handler returns, and when it does the piece is
    committed: [oldX = x], [oldY = y] and [PreviousShape] has the shape and
    rotation of [Shape].  The one exception is the game-over path of
    [moveDown], which returns at once with the state as it was. *)
Theorem handlers_leave_piece_committed (g : Game) :
  wf_game g ->
  (exists g', moveLeft g = Some g' /\ committed (piece g')) /\
  (exists g', moveRight g = Some g' /\ committed (piece g')) /\
  (exists g', rotate g = Some g' /\ committed (piece g')) /\
  (forall r, 0 <= r < 4 ->
     exists g', moveDown r g = Some g' /\
       (game_over_path g -> g' = cancel g) /\
       (~ game_over_path g -> committed (piece g'))).
Proof.
  intros Hwf. split; [| split; [| split]].
  - destruct (moveLeft_unfold g Hwf) as (m & ok & _ & _ & Hrun).
    rewrite Hrun.
    match goal with
    | |- context [tick ?g1] =>
        destruct (tick_committed g1) as (g' & Ht & _ & Hc & _)
    end.
    { destruct ok; [now apply wf_game_with_x | assumption]. }
    eauto.
  - destruct (moveRight_unfold g Hwf) as (m & ok & _ & _ & Hrun).
    rewrite Hrun.
    match goal with
    | |- context [tick ?g1] =>
        destruct (tick_committed g1) as (g' & Ht & _ & Hc & _)
    end.
    { destruct ok; [now apply wf_game_with_x | assumption]. }
    eauto.
  - destruct (rotate_search_spec g Hwf) as (pos' & x' & y' & Hpos' & Hsearch).
    unfold rotate. rewrite Hsearch. cbn.
    set (g1 := set_piece g _).
    assert (Hwf1 : wf_game g1).
    { apply wf_game_set_piece; [apply Hwf | | apply Hwf].
      split; [apply Hwf | exact Hpos']. }
    destruct (hasCollision_total g1 x' y' pos' Hwf1 Hpos') as (res & Hres).
    rewrite Hres. cbn. destruct res; cbn.
    + destruct (tick_committed (set_piece g1 (revert_piece (piece g1))))
        as (g' & Ht & _ & Hc & _); [| eauto].
      apply wf_game_set_piece; [exact Hwf1 | | apply Hwf].
      split; [apply Hwf | apply Hwf].
    + destruct (moveShape_spec g1 Hwf1)
        as (mo & mc & b1 & b2 & _ & _ & _ & _ & _ & Hwf2 & Hmove).
      rewrite Hmove. cbn.
      destruct (tick_committed (mkGame (sync_piece (piece g1)) b2 (cancelled g1)))
        as (g' & Ht & _ & Hc & _); [| eauto].
      destruct (valid_sync_piece (piece g1) (proj1 (proj2 Hwf1)))
        as (Hv1 & Hv2 & _).
      split; [exact Hwf2 | split; assumption].
  - intros r Hr.
    set (p := piece g). set (q := pc_Position p).
    destruct (hasCollision_total g (p_x q) (Int64.add (p_y q) 1)
                (sh_pos (pc_Shape p)) Hwf) as (res & Hres); [apply Hwf |].
    destruct (currentMask_valid g Hwf) as (m & Hm & _).
    unfold moveDown, game_over_path. fold p q. rewrite Hres. cbn.
    destruct res.
    + rewrite Hm. cbn.
      destruct (decide (p_y q = Int64.neg (getTopOffset m))) as [Hy|Hy].
      * exists (cancel g). split; [reflexivity |]. split; [reflexivity |].
        intros Hn. exfalso. apply Hn. split; [reflexivity |]. eauto.
      * destruct (moveDown_commit_committed r
                    (set_piece g (with_state p FixedState)) Hr)
          as (g' & Hrun & _ & Hc).
        { apply wf_game_set_piece; apply Hwf. }
        exists g'. split; [exact Hrun |]. split; [| auto].
        intros (_ & m' & Hm' & Hy'). congruence.
    + destruct (moveDown_commit_committed r
                  (set_piece g (with_y (with_state p FallingState)
                                       (Int64.add (p_y q) 1))) Hr)
        as (g' & Hrun & _ & Hc).
      { apply wf_game_set_piece; apply Hwf. }
      exists g'. split; [exact Hrun |]. split; [| auto].
      intros (Hcol & _). discriminate.
Qed.

Lemma wf_spawn_game : wf_game spawn_game.
Proof.
  split; [split; [reflexivity | repeat constructor] |].
  split; split; cbn; lia.
Qed.

Lemma handlers_leave_piece_committed_witness :
  (exists g', rotate spawn_game = Some g' /\ committed (piece g')) /\
  (exists g', moveDown 2 spawn_game = Some g' /\ committed (piece g')).
Proof.
  destruct (handlers_leave_piece_committed spawn_game wf_spawn_game)
    as (_ & _ & Hrot & Hdown).
  split; [exact Hrot |].
  destruct (Hdown 2 ltac:(lia)) as (g' & Hrun & _ & Hcom).
  exists g'. split; [exact Hrun |]. apply Hcom.
  intros (Hcol & _). vm_compute in Hcol. discriminate Hcol.
Defined.

Lemma small_in_range (z : Z) : -100 <= z <= 100 -> Int64.in_range z.
Proof. unfold Int64.in_range, Int64.half. lia. Qed.

Lemma tick_keeps_position (g g' : Game) :
  tick g = Some g' -> wf_game g ->
  p_x (pc_Position (piece g')) = p_x (pc_Position (piece g)) /\
  p_y (pc_Position (piece g')) = p_y (pc_Position (piece g)) /\
  pc_Shape (piece g') = pc_Shape (piece g).
Proof.
  intros Ht Hwf. destruct (tick_spec g Hwf) as (g1 & Ht1 & _ & Hp & _).
  assert (g1 = g') by congruence. subst g1. rewrite Hp. now repeat split.
Qed.

(** C3.  When [moveDown] finds the piece blocked one row down while it is
    still at its spawn row [y = -getTopOffset mask], it calls [cancel] and
    returns: the result is the state it was given with the cancellation
    flag set.  Board and piece are untouched: no lock, no line clear, no new
    piece. *)
Theorem moveDown_game_over (r : Z) (g : Game) (m : Z) :
  let p := piece g in
  let q := pc_Position p in
  currentMask g = Some m ->
  hasCollision g (p_x q) (p_y q + 1) (sh_pos (pc_Shape p)) = Some true ->
  p_y q = - getTopOffset m ->
  moveDown r g = Some (cancel g) /\
  cancelled (cancel g) = true /\
  board (cancel g) = board g /\
  piece (cancel g) = piece g.
Proof.
  intros p q Hm Hcol Hy.
  pose proof (getTopOffset_bounds m) as Ht.
  split; [| now repeat split].
  unfold moveDown. fold p q.
  rewrite Int64Facts.add_small by (apply small_in_range; lia).
  rewrite Hcol. cbn. rewrite Hm. cbn.
  rewrite Int64Facts.neg_small by (apply small_in_range; lia).
  destruct (decide (p_y q = - getTopOffset m)); [reflexivity | contradiction].
Qed.

Lemma moveDown_game_over_witness :
  moveDown 3 game_blocked_at_spawn = Some (cancel game_blocked_at_spawn).
Proof.
  exact (proj1 (moveDown_game_over 3 game_blocked_at_spawn 0x0F00
                  eq_refl eq_refl eq_refl)).
Defined.

(** C6.  From a position with the piece's columns on the board,
    [0 <= x + leftColumn] and [x + leftColumn + width <= gameGridWidth],
    [moveLeft] never leaves [x + leftColumn < 0] and [moveRight] never
    leaves [x + leftColumn + width > gameGridWidth].  Each moves [x] by one
    when its boundary test and its collision test pass, and leaves [x]
    alone when one of them fails. *)
Theorem moves_stay_on_board (g : Game) (m : Z) :
  let x := p_x (pc_Position (piece g)) in
  let y := p_y (pc_Position (piece g)) in
  let pos := sh_pos (pc_Shape (piece g)) in
  let d := findFirstNonEmptyColumn m in
  let w := getShapeDimensions m in
  wf_game g -> currentMask g = Some m ->
  0 <= x + d -> x + d + w <= gameGridWidth ->
  (exists g', moveLeft g = Some g' /\
     let x' := p_x (pc_Position (piece g')) in
     currentMask g' = Some m /\
     0 <= x' + d /\
     (0 <= x + d - 1 /\ hasCollision g (x - 1) y pos = Some false ->
      x' = x - 1) /\
     (x + d - 1 < 0 \/ hasCollision g (x - 1) y pos = Some true -> x' = x)) /\
  (exists g', moveRight g = Some g' /\
     let x' := p_x (pc_Position (piece g')) in
     currentMask g' = Some m /\
     x' + d + w <= gameGridWidth /\
     (x + d + w < gameGridWidth /\ hasCollision g (x + 1) y pos = Some false ->
      x' = x + 1) /\
     (gameGridWidth <= x + d + w \/ hasCollision g (x + 1) y pos = Some true ->
      x' = x)).
Proof.
  intros x y pos d w Hwf Hm Hlo Hhi.
  pose proof (findFirstNonEmptyColumn_bounds m) as Hd. fold d in Hd.
  pose proof (getShapeDimensions_bounds m) as Hw. fold w in Hw.
  unfold gameGridWidth in *.
  assert (Hx : -4 <= x <= 13) by lia.
  split.
  - destruct (moveLeft_unfold g Hwf) as (m' & ok & Hm' & Hok & Hrun).
    assert (m' = m) by congruence. subst m'.
    fold x y pos d in Hok, Hrun.
    rewrite (Int64Facts.add_small x d) in Hok by (apply small_in_range; lia).
    rewrite (Int64Facts.sub_small (x + d) 1) in Hok
      by (apply small_in_range; lia).
    rewrite (Int64Facts.sub_small x 1) in Hok, Hrun
      by (apply small_in_range; lia).
    rewrite Hrun.
    match goal with
    | |- context [tick ?g1] =>
        assert (Hwf1 : wf_game g1)
          by (destruct ok; [now apply wf_game_with_x | assumption]);
        destruct (tick_committed g1 Hwf1) as (g' & Ht & _ & _ & _);
        destruct (tick_keeps_position g1 g' Ht Hwf1) as (Hx' & _ & Hs')
    end.
    exists g'. split; [exact Ht |]. cbn zeta. rewrite Hx'.
    split.
    { unfold currentMask. rewrite Hs'. destruct ok; exact Hm. }
    destruct ok.
    + destruct (proj1 Hok eq_refl) as [Hb Hc].
      cbn [set_piece piece with_x pc_Position p_x]. fold x.
      split; [lia |]. split; [reflexivity |].
      intros [Hn | Hn]; [lia | congruence].
    + fold x. split; [lia |]. split; [| reflexivity].
      intros Hg. apply Hok in Hg. discriminate.
  - destruct (moveRight_unfold g Hwf) as (m' & ok & Hm' & Hok & Hrun).
    assert (m' = m) by congruence. subst m'.
    fold x y pos d w in Hok, Hrun. unfold gameGridWidth in Hok.
    rewrite (Int64Facts.add_small x d) in Hok by (apply small_in_range; lia).
    rewrite (Int64Facts.add_small (x + d) w) in Hok
      by (apply small_in_range; lia).
    rewrite (Int64Facts.add_small x 1) in Hok, Hrun
      by (apply small_in_range; lia).
    rewrite Hrun.
    match goal with
    | |- context [tick ?g1] =>
        assert (Hwf1 : wf_game g1)
          by (destruct ok; [now apply wf_game_with_x | assumption]);
        destruct (tick_committed g1 Hwf1) as (g' & Ht & _ & _ & _);
        destruct (tick_keeps_position g1 g' Ht Hwf1) as (Hx' & _ & Hs')
    end.
    exists g'. split; [exact Ht |]. cbn zeta. rewrite Hx'.
    split.
    { unfold currentMask. rewrite Hs'. destruct ok; exact Hm. }
    destruct ok.
    + destruct (proj1 Hok eq_refl) as [Hb Hc].
      cbn [set_piece piece with_x pc_Position p_x]. fold x.
      split; [lia |]. split; [reflexivity |].
      intros [Hn | Hn]; [lia | congruence].
    + fold x. split; [lia |]. split; [| reflexivity].
      intros Hg. apply Hok in Hg. discriminate.
Qed.

Lemma moves_stay_on_board_witness :
  (exists g', moveLeft spawn_game = Some g' /\
              p_x (pc_Position (piece g')) = 0) /\
  (exists g', moveRight spawn_game = Some g' /\
              p_x (pc_Position (piece g')) + 0 + 4 <= gameGridWidth).
Proof.
  destruct (moves_stay_on_board spawn_game 0x0F00 wf_spawn_game eq_refl
              ltac:(vm_compute; discriminate) ltac:(vm_compute; discriminate))
    as [(gl & Hl & _ & _ & _ & Hstay) (gr & Hr & _ & Hbound & _)].
  split.
  - exists gl. split; [exact Hl |]. apply Hstay. left. vm_compute. reflexivity.
  - exists gr. split; [exact Hr |]. exact Hbound.
Defined.

(** ** The states the game can be in *)

Lemma covers_below_dec (shape x y r c : Z) (k : nat) :
  covers_below (Z.of_nat k) shape x y r c \/
  ~ covers_below (Z.of_nat k) shape x y r c.
Proof.
  induction k as [|k IH].
  - right. intros (i & Hi & _). lia.
  - replace (Z.of_nat (Datatypes.S k)) with (Z.of_nat k + 1) by lia.
    rewrite covers_below_succ by lia.
    destruct IH as [IH | IH]; [tauto |].
    unfold hits.
    destruct (bitSet shape (15 - Z.of_nat k)) eqn:Hb;
      [| right; intros [H | (H & _)]; [tauto | discriminate]].
    destruct (decide (Int64.add x (Z.rem (Z.of_nat k) 4) = c)) as [Hc|Hc];
      [| right; tauto].
    destruct (decide (Int64.add y (Z.quot (Z.of_nat k) 4) = r)) as [Hr|Hr];
      [| right; tauto].
    left. right. auto.
Qed.

Lemma footprint_dec (shape x y r c : Z) :
  footprint shape x y r c \/ ~ footprint shape x y r c.
Proof.
  rewrite <- covers_footprint. exact (covers_below_dec shape x y r c 16).
Qed.

(** [fixPiece] in terms of footprints. *)
Lemma fixPiece_board_footprint (b : Board) (shape x y : Z) (val : ShapeState) :
  wf_board b ->
  exists b', fixPiece_board b shape x y val = Some b' /\ wf_board b' /\
    forall r c, in_board r c ->
      (footprint shape x y r c -> board_get b' r c = Some val) /\
      (~ footprint shape x y r c -> board_get b' r c = board_get b r c).
Proof.
  intros Hwf.
  destruct (fixPiece_board_spec b shape x y val Hwf) as (b' & Hrun & Hwf' & Hc).
  exists b'. split; [assumption |]. split; [assumption |].
  intros r c Hrc. rewrite <- covers_footprint. now apply Hc.
Qed.

Lemma row_full_cells (b : Board) (r : Z) (row : list ShapeState) :
  wf_board b -> 0 <= r < gameGridHeight -> index b r = Some row ->
  (row_full row = true <->
   forall c, 0 <= c < gameGridWidth -> board_get b r c = Some FixedState).
Proof.
  intros Hwf Hr Hrow.
  destruct (wf_board_row b r Hwf Hr) as (row' & Hrow' & Hlen).
  assert (row' = row) by congruence. subst row'.
  rewrite row_full_Forall, Forall_lookup. split.
  - intros Hall c Hc. rewrite (board_get_row b r row c Hrow).
    destruct (index_Some row c) as [v Hv].
    { unfold gameGridWidth in *. lia. }
    rewrite Hv. f_equal. unfold index in Hv.
    destruct (decide (0 <= c)); [| lia]. eauto.
  - intros Hall i v Hi.
    assert (Hlt : (i < length row)%nat) by (apply lookup_lt_is_Some; eauto).
    specialize (Hall (Z.of_nat i) ltac:(unfold gameGridWidth in *; lia)).
    rewrite (board_get_row b r row _ Hrow), index_of_nat in Hall. congruence.
Qed.

(** Writing a state other than [FixedState] cannot complete a row. *)
Lemma fixPiece_no_full_rows (b b' : Board) (shape x y : Z) (val : ShapeState) :
  wf_board b -> no_full_rows b -> val <> FixedState ->
  fixPiece_board b shape x y val = Some b' -> no_full_rows b'.
Proof.
  intros Hwf Hnf Hval Hrun.
  destruct (fixPiece_board_footprint b shape x y val Hwf)
    as (b2 & Hrun2 & Hwf' & Hcells).
  assert (b2 = b') by congruence. subst b2.
  unfold no_full_rows in *. rewrite Forall_lookup in *. intros i row' Hi.
  destruct (row_full row') eqn:Hfull; [exfalso | reflexivity].
  assert (Hlt : (i < length b')%nat) by (apply lookup_lt_is_Some; eauto).
  assert (Hr : 0 <= Z.of_nat i < gameGridHeight).
  { destruct Hwf' as [Hl _]. unfold gameGridHeight in *. lia. }
  assert (Hidx : index b' (Z.of_nat i) = Some row') by now rewrite index_of_nat.
  destruct (wf_board_row b _ Hwf Hr) as (row & Hrow & _).
  assert (Hrowfull : row_full row = true).
  { apply (row_full_cells b _ row Hwf Hr Hrow). intros c Hc.
    pose proof (proj1 (row_full_cells b' _ row' Hwf' Hr Hidx) Hfull c Hc)
      as Hcell.
    destruct (Hcells (Z.of_nat i) c (conj Hr Hc)) as [Hin Hout].
    destruct (footprint_dec shape x y (Z.of_nat i) c) as [Hf | Hf].
    - rewrite (Hin Hf) in Hcell. congruence.
    - now rewrite <- (Hout Hf). }
  rewrite index_of_nat in Hrow. specialize (Hnf _ _ Hrow). congruence.
Qed.

Lemma sync_piece_committed (p : Piece) : committed p -> sync_piece p = p.
Proof.
  destruct p as [s [x y ox oy] [ps pp pst]].
  intros (Hx & Hy & Hs & Hp). cbn in *. subst. reflexivity.
Qed.

(** [moveShape] on a falling piece. *)
Lemma moveShape_falling (g : Game) :
  wf_game g -> sh_state (pc_Shape (piece g)) = FallingState ->
  no_full_rows (board g) ->
  exists g', moveShape g = Some g' /\ wf_game g' /\
    piece g' = sync_piece (piece g) /\ cancelled g' = cancelled g /\
    stamped g' /\ no_full_rows (board g').
Proof.
  intros Hwf Hst Hnf.
  destruct (moveShape_spec g Hwf)
    as (mo & mc & b1 & b2 & Hmo & Hmc & Hb1 & Hb2 & Hwf1 & Hwf2 & Hmove).
  eexists. split; [exact Hmove |].
  destruct (valid_sync_piece (piece g) (proj1 (proj2 Hwf))) as (Hv1 & Hv2 & _).
  split; [split; [exact Hwf2 | split; assumption] |].
  split; [reflexivity |]. split; [reflexivity |]. split.
  - exists mc. split; [exact Hmc |]. cbn. intros r c Hrc Hfoot.
    destruct (fixPiece_board_footprint b1 mc (p_x (pc_Position (piece g)))
                (p_y (pc_Position (piece g))) (sh_state (pc_Shape (piece g)))
                Hwf1) as (b2' & Hb2' & _ & Hcells).
    assert (b2' = b2) by congruence. subst b2'.
    now apply Hcells.
  - cbn.
    assert (Hnf1 : no_full_rows b1).
    { eapply fixPiece_no_full_rows; [exact (proj1 Hwf) | exact Hnf | | exact Hb1].
      discriminate. }
    eapply fixPiece_no_full_rows; [exact Hwf1 | exact Hnf1 | | exact Hb2].
    rewrite Hst. discriminate.
Qed.

Lemma removeFullLines_no_full (g : Game) :
  wf_board (board g) -> no_full_rows (board g) -> removeFullLines g = Some g.
Proof.
  intros Hwf Hnf. unfold removeFullLines.
  rewrite (removeFullLines_board_compact _ Hwf), (compact_no_full _ Hnf).
  destruct g. reflexivity.
Qed.

(** [tick] on a falling piece over a board without full rows establishes
    the invariant. *)
Lemma tick_falling (g : Game) :
  wf_game g -> sh_state (pc_Shape (piece g)) = FallingState ->
  no_full_rows (board g) ->
  exists g', tick g = Some g' /\ game_inv g' /\
             piece g' = sync_piece (piece g) /\ cancelled g' = cancelled g.
Proof.
  intros Hwf Hst Hnf.
  destruct (moveShape_falling g Hwf Hst Hnf)
    as (g' & Hmove & Hwf' & Hp & Hc & Hstamped & Hnf').
  exists g'. unfold tick. rewrite Hmove. cbn.
  split; [now apply removeFullLines_no_full; [apply Hwf' |] |].
  split; [| split; assumption].
  split; [assumption |]. split; [| split; [| split; assumption]].
  - rewrite Hp. apply valid_sync_piece. apply Hwf.
  - rewrite Hp. exact Hst.
Qed.

Lemma game_inv_tick (g g' : Game) :
  wf_game g -> sh_state (pc_Shape (piece g)) = FallingState ->
  no_full_rows (board g) -> tick g = Some g' -> game_inv g'.
Proof.
  intros Hwf Hst Hnf Ht.
  destruct (tick_falling g Hwf Hst Hnf) as (g2 & Ht2 & Hinv & _).
  congruence.
Qed.

(** Between two commands a commit pass changes nothing. *)
Lemma tick_fixpoint (g : Game) :
  wf_game g -> committed (piece g) -> stamped g -> no_full_rows (board g) ->
  tick g = Some g.
Proof.
  intros Hwf Hcom (m & Hm & Hst) Hnf.
  destruct (moveShape_spec g Hwf)
    as (mo & mc & b1 & b2 & Hmo & Hmc & Hb1 & Hb2 & Hwf1 & Hwf2 & Hmove).
  assert (mc = m) by congruence. subst mc.
  pose proof Hcom as (Hox & Hoy & Hos & Hop).
  rewrite Hos, Hop in Hmo. unfold currentMask in Hm.
  assert (mo = m) by congruence. subst mo.
  rewrite Hox, Hoy in Hb1.
  destruct (fixPiece_board_footprint (board g) m (p_x (pc_Position (piece g)))
              (p_y (pc_Position (piece g))) EmptyState (proj1 Hwf))
    as (b1' & Hb1' & _ & Hcells1).
  assert (b1' = b1) by congruence. subst b1'.
  destruct (fixPiece_board_footprint b1 m (p_x (pc_Position (piece g)))
              (p_y (pc_Position (piece g))) (sh_state (pc_Shape (piece g))) Hwf1)
    as (b2' & Hb2' & _ & Hcells2).
  assert (b2' = b2) by congruence. subst b2'.
  assert (Hsame : b2 = board g).
  { apply board_ext; [assumption | apply Hwf |]. intros r c Hrc.
    destruct (footprint_dec m (p_x (pc_Position (piece g)))
                (p_y (pc_Position (piece g))) r c) as [Hf | Hf].
    - rewrite (proj1 (Hcells2 r c Hrc) Hf). symmetry. now apply Hst.
    - rewrite (proj2 (Hcells2 r c Hrc) Hf). now apply Hcells1. }
  unfold tick. rewrite Hmove, Hsame, (sync_piece_committed _ Hcom). cbn.
  replace (mkGame (piece g) (board g) (cancelled g)) with g
    by (destruct g; reflexivity).
  apply removeFullLines_no_full; [apply Hwf | assumption].
Qed.

Lemma game_inv_moveLeft (g g' : Game) :
  game_inv g -> moveLeft g = Some g' -> game_inv g'.
Proof.
  intros (Hwf & _ & Hst & _ & Hnf) Hrun.
  destruct (moveLeft_unfold g Hwf) as (m & ok & _ & _ & Hrun').
  rewrite Hrun' in Hrun.
  destruct ok; (eapply game_inv_tick; [| | | exact Hrun]); assumption.
Qed.

Lemma game_inv_moveRight (g g' : Game) :
  game_inv g -> moveRight g = Some g' -> game_inv g'.
Proof.
  intros (Hwf & _ & Hst & _ & Hnf) Hrun.
  destruct (moveRight_unfold g Hwf) as (m & ok & _ & _ & Hrun').
  rewrite Hrun' in Hrun.
  destruct ok; (eapply game_inv_tick; [| | | exact Hrun]); assumption.
Qed.

Lemma game_inv_rotate (g g' : Game) :
  game_inv g -> rotate g = Some g' -> game_inv g'.
Proof.
  intros (Hwf & _ & Hst & _ & Hnf) Hrun.
  destruct (rotate_search_spec g Hwf) as (pos' & x' & y' & Hpos' & Hsearch).
  unfold rotate in Hrun. rewrite Hsearch in Hrun. cbn in Hrun.
  set (g1 := set_piece g _) in Hrun.
  assert (Hwf1 : wf_game g1).
  { apply wf_game_set_piece; [apply Hwf | | apply Hwf].
    split; [apply Hwf | exact Hpos']. }
  destruct (hasCollision_total g1 x' y' pos' Hwf1 Hpos') as (res & Hres).
  rewrite Hres in Hrun. cbn in Hrun. destruct res; cbn in Hrun.
  - eapply game_inv_tick; [| | | exact Hrun]; try assumption.
    apply wf_game_set_piece; [exact Hwf1 | | apply Hwf].
    split; apply Hwf.
  - destruct (moveShape_falling g1 Hwf1 Hst Hnf)
      as (g2 & Hmove & Hwf2 & Hp2 & _ & _ & Hnf2).
    rewrite Hmove in Hrun. cbn in Hrun.
    eapply game_inv_tick; [exact Hwf2 | | exact Hnf2 | exact Hrun].
    rewrite Hp2. exact Hst.
Qed.

Lemma game_inv_moveDown (r : Z) (g g' : Game) :
  0 <= r < 4 -> game_inv g -> moveDown r g = Some g' -> game_inv g'.
Proof.
  intros Hr Hinv Hrun. pose proof Hinv as (Hwf & Hcom & Hst & Hstamp & Hnf).
  set (p := piece g) in *. set (q := pc_Position p) in *.
  destruct (hasCollision_total g (p_x q) (Int64.add (p_y q) 1)
              (sh_pos (pc_Shape p)) Hwf) as (res & Hres); [apply Hwf |].
  destruct (currentMask_valid g Hwf) as (m & Hm & _).
  unfold moveDown in Hrun. fold p q in Hrun. rewrite Hres in Hrun.
  cbn in Hrun. destruct res.
  - rewrite Hm in Hrun. cbn in Hrun.
    destruct (decide (p_y q = Int64.neg (getTopOffset m))).
    + injection Hrun as <-. exact Hinv.
    + unfold moveDown_commit in Hrun. cbn in Hrun.
      destruct (tick_spec (set_piece g (with_state p FixedState)))
        as (g1 & Ht1 & Hwf1 & _ & _ & Hnf1 & _).
      { apply wf_game_set_piece; apply Hwf. }
      rewrite Ht1 in Hrun. cbn in Hrun.
      destruct (newPiece_spec r g1 Hr (proj1 Hwf1))
        as (g2 & Hn & Hwf2 & _ & Hb2 & _ & Hst2).
      rewrite Hn in Hrun. cbn in Hrun.
      eapply game_inv_tick; [exact Hwf2 | exact Hst2 | | exact Hrun].
      now rewrite Hb2.
  - unfold moveDown_commit in Hrun. cbn in Hrun.
    eapply game_inv_tick; [| | | exact Hrun];
      first [assumption | reflexivity].
Qed.

Lemma no_full_rows_emptyBoard : no_full_rows emptyBoard.
Proof. unfold no_full_rows. apply Forall_replicate. reflexivity. Qed.

Lemma game_inv_initialGame (r : Z) (g : Game) :
  0 <= r < 4 -> initialGame r = Some g -> game_inv g.
Proof.
  intros Hr Hrun. unfold initialGame, newGame in Hrun.
  match type of Hrun with
  | context [newPiece r ?g0] =>
      destruct (newPiece_spec r g0 Hr wf_emptyBoard)
        as (g1 & Hn & Hwf1 & _ & Hb1 & _ & Hst1)
  end.
  rewrite Hn in Hrun. cbn in Hrun.
  eapply game_inv_tick; [exact Hwf1 | exact Hst1 | | exact Hrun].
  rewrite Hb1. exact no_full_rows_emptyBoard.
Qed.

(** Every state of a run satisfies the invariant. *)
Lemma reachable_inv (g : Game) : reachable g -> game_inv g.
Proof.
  induction 1 as [r g Hr Hrun | g g' _ IH Hrun | g g' _ IH Hrun
                  | r g g' Hr _ IH Hrun | g g' _ IH Hrun | g _ IH].
  - exact (game_inv_initialGame r g Hr Hrun).
  - exact (game_inv_moveLeft g g' IH Hrun).
  - exact (game_inv_moveRight g g' IH Hrun).
  - exact (game_inv_moveDown r g g' Hr IH Hrun).
  - exact (game_inv_rotate g g' IH Hrun).
  - exact IH.
Qed.

(** [rotate] up to its test after the loop changes the rotation, [x] and
    [y] of the piece and nothing else. *)
Lemma revert_after_search (g : Game) (pos' x' y' : Z) :
  committed (piece g) ->
  set_piece (set_piece g (with_y (with_x (with_pos (piece g) pos') x') y'))
            (revert_piece (with_y (with_x (with_pos (piece g) pos') x') y'))
  = g.
Proof.
  destruct g as [[[s p st] [x y ox oy] [ps pp pst]] b c].
  intros (Hx & Hy & Hs & Hp). cbn in *. subst. reflexivity.
Qed.

(** A failed rotation is a plain commit pass on the state as it was. *)
Lemma rotate_failure_is_tick (g g1 : Game) :
  wf_game g -> committed (piece g) ->
  rotate_search g = Some g1 ->
  hasCollision g1 (p_x (pc_Position (piece g1))) (p_y (pc_Position (piece g1)))
               (sh_pos (pc_Shape (piece g1))) = Some true ->
  rotate g = tick g /\
  exists g', tick g = Some g' /\ piece g' = piece g.
Proof.
  intros Hwf Hcom Hsearch Hcol. split.
  - destruct (rotate_search_spec g Hwf) as (pos' & x' & y' & _ & Hsearch').
    assert (Hg1 : g1 = set_piece g (with_y (with_x (with_pos (piece g) pos') x') y'))
      by congruence.
    unfold rotate. rewrite Hsearch. cbn. rewrite Hcol. cbn.
    rewrite Hg1. cbn [piece set_piece].
    now rewrite (revert_after_search g pos' x' y' Hcom).
  - destruct (tick_committed g Hwf) as (g' & Ht & _ & _ & Hp).
    exists g'. split; [exact Ht |].
    now rewrite Hp, (sync_piece_committed _ Hcom).
Qed.

(** C2.  In every state of a run in which the wall-kick search of [rotate]
    ends with the piece still colliding, [rotate] returns the state it was
    given: rotation index, [x] and [y] are the values from before the call,
    the rest of the piece is unchanged, and so is every cell of the
    board. *)
Theorem rotate_failure_restores (g g1 : Game) :
  reachable g ->
  rotate_search g = Some g1 ->
  hasCollision g1 (p_x (pc_Position (piece g1))) (p_y (pc_Position (piece g1)))
               (sh_pos (pc_Shape (piece g1))) = Some true ->
  rotate g = Some g /\
  forall g', rotate g = Some g' ->
    sh_pos (pc_Shape (piece g')) = sh_pos (pc_Shape (piece g)) /\
    p_x (pc_Position (piece g')) = p_x (pc_Position (piece g)) /\
    p_y (pc_Position (piece g')) = p_y (pc_Position (piece g)) /\
    piece g' = piece g /\ board g' = board g.
Proof.
  intros Hreach Hsearch Hcol.
  destruct (reachable_inv g Hreach) as (Hwf & Hcom & _ & Hstamp & Hnf).
  assert (Hrot : rotate g = Some g).
  { rewrite (proj1 (rotate_failure_is_tick g g1 Hwf Hcom Hsearch Hcol)).
    now apply tick_fixpoint. }
  split; [exact Hrot |].
  intros g' Hg'. assert (g' = g) by congruence. subst g'. now repeat split.
Qed.

Lemma initialGame_spawn_game : initialGame 0 = Some spawn_game.
Proof. vm_compute. reflexivity. Qed.

Lemma reachable_fall (n : nat) :
  forall g g', reachable g -> fall n g = Some g' -> reachable g'.
Proof.
  induction n as [|n IH]; intros g g' Hg Hrun; cbn in Hrun.
  - now injection Hrun as <-.
  - destruct (moveDown 0 g) as [g1|] eqn:Hstep; [| discriminate].
    cbn in Hrun. apply (IH g1 g'); [| assumption].
    apply (reach_moveDown 0 g g1); [lia | assumption | assumption].
Qed.

Lemma reachable_floor_game : reachable floor_game.
Proof.
  apply (reachable_fall 19 spawn_game).
  - apply (reach_init 0); [lia | exact initialGame_spawn_game].
  - vm_compute. reflexivity.
Qed.

Lemma rotate_failure_restores_witness :
  reachable floor_game /\ rotate floor_game = Some floor_game.
Proof.
  split; [exact reachable_floor_game |].
  eapply (proj1 (rotate_failure_restores floor_game _ reachable_floor_game _ _)).
  Unshelve.
  - exact (mkGame (mkPiece (mkShape 0 1 FallingState)
                           (mkPosition (-3) 19 0 18)
                           (mkShape 0 0 EmptyState))
                  (board floor_game) false).
  - vm_compute. reflexivity.
  - vm_compute. reflexivity.
Defined.

(** ** Geometry of the 16-bit masks *)

Lemma forall4_spec (f : Z -> bool) :
  forall4 f = true -> forall i, 0 <= i < 4 -> f i = true.
Proof.
  unfold forall4. rewrite !andb_true_iff. intros [[[H0 H1] H2] H3] i Hi.
  assert (Hc : i = 0 \/ i = 1 \/ i = 2 \/ i = 3) by lia.
  destruct Hc as [->|[->|[->| ->]]]; assumption.
Qed.

Lemma exists4_spec (f : Z -> bool) :
  exists4 f = true -> exists i, 0 <= i < 4 /\ f i = true.
Proof.
  unfold exists4. rewrite !orb_true_iff. intros [[[H | H] | H] | H];
    [exists 0 | exists 1 | exists 2 | exists 3]; (split; [lia | assumption]).
Qed.

Lemma first_row_spec (mask t : Z) :
  first_row mask t = true ->
  0 <= t <= 3 /\
  (exists c, 0 <= c < 4 /\ mask_cell mask c t = true) /\
  (forall r c, 0 <= r < t -> 0 <= c < 4 -> mask_cell mask c r = false).
Proof.
  unfold first_row. rewrite !andb_true_iff.
  intros [[[Hlo Hhi] Hex] Hall]. split; [lia |].
  split; [now apply exists4_spec |].
  intros r c Hr Hc. pose proof (forall4_spec _ Hall r ltac:(lia)) as Hrow.
  cbn beta in Hrow. apply orb_true_iff in Hrow as [Hrow | Hrow]; [lia |].
  apply negb_true_iff. exact (forall4_spec _ Hrow c Hc).
Qed.

Lemma leftmost_column_spec (mask l : Z) :
  leftmost_column mask l = true ->
  0 <= l <= 3 /\
  (exists r, 0 <= r < 4 /\ mask_cell mask l r = true) /\
  (forall c r, 0 <= c < l -> 0 <= r < 4 -> mask_cell mask c r = false).
Proof.
  unfold leftmost_column. rewrite !andb_true_iff.
  intros [[[Hlo Hhi] Hex] Hall]. split; [lia |].
  split; [now apply exists4_spec |].
  intros c r Hc Hr. pose proof (forall4_spec _ Hall c ltac:(lia)) as Hcol.
  cbn beta in Hcol. apply orb_true_iff in Hcol as [Hcol | Hcol]; [lia |].
  apply negb_true_iff. exact (forall4_spec _ Hcol r Hr).
Qed.

Lemma rightmost_column_spec (mask h : Z) :
  rightmost_column mask h = true ->
  0 <= h <= 3 /\
  (exists r, 0 <= r < 4 /\ mask_cell mask h r = true) /\
  (forall c r, h < c < 4 -> 0 <= r < 4 -> mask_cell mask c r = false).
Proof.
  unfold rightmost_column. rewrite !andb_true_iff.
  intros [[[Hlo Hhi] Hex] Hall]. split; [lia |].
  split; [now apply exists4_spec |].
  intros c r Hc Hr. pose proof (forall4_spec _ Hall c ltac:(lia)) as Hcol.
  cbn beta in Hcol. apply orb_true_iff in Hcol as [Hcol | Hcol]; [lia |].
  apply negb_true_iff. exact (forall4_spec _ Hcol r Hr).
Qed.

Lemma geometry_ok_range_spec (n : nat) :
  forall base mask,
    geometry_ok_range n base = true ->
    base <= mask < base + 2 ^ Z.of_nat n -> geometry_ok mask = true.
Proof.
  induction n as [|n IH]; intros base mask Hall Hm.
  - cbn in *. now replace mask with base by lia.
  - cbn [geometry_ok_range] in Hall. apply andb_true_iff in Hall as [Hlo Hhi].
    rewrite Nat2Z.inj_succ, Z.pow_succ_r in Hm by lia.
    destruct (Z.lt_ge_cases mask (base + 2 ^ Z.of_nat n)).
    + apply (IH base); [assumption | lia].
    + apply (IH (base + 2 ^ Z.of_nat n)); [assumption | lia].
Qed.

(** All 65536 masks, by evaluation. *)
Lemma geometry_ok_all : geometry_ok_range 16 0 = true.
Proof. vm_compute. reflexivity. Qed.

Lemma geometry_ok_mask (mask : Z) : 0 <= mask < 65536 -> geometry_ok mask = true.
Proof.
  intros Hm. apply (geometry_ok_range_spec 16 0 mask geometry_ok_all).
  change (2 ^ Z.of_nat 16) with 65536. lia.
Qed.

(** C7.  For every 16-bit mask with a set bit, [getTopOffset] is the index
    of the first occupied row, so the number of empty rows above it, and
    lies in 0..3; [findFirstNonEmptyColumn] is the index of the leftmost
    occupied column; and [getShapeDimensions] is the rightmost occupied
    column minus the leftmost one plus 1.  For the empty mask
    [findFirstNonEmptyColumn] is 4.  Cells are read off the mask by the
    engine's mapping, bit [15 - i] for column [i mod 4] and row
    [i div 4]. *)
Theorem geometry_matches_mask (mask : Z) :
  0 <= mask < 65536 ->
  (mask = 0 -> findFirstNonEmptyColumn mask = 4) /\
  (mask <> 0 ->
   let t := getTopOffset mask in
   let l := findFirstNonEmptyColumn mask in
   (0 <= t <= 3 /\
    (exists c, 0 <= c < 4 /\ mask_cell mask c t = true) /\
    (forall r c, 0 <= r < t -> 0 <= c < 4 -> mask_cell mask c r = false)) /\
   (0 <= l <= 3 /\
    (exists r, 0 <= r < 4 /\ mask_cell mask l r = true) /\
    (forall c r, 0 <= c < l -> 0 <= r < 4 -> mask_cell mask c r = false)) /\
   (exists h,
      0 <= h <= 3 /\
      (exists r, 0 <= r < 4 /\ mask_cell mask h r = true) /\
      (forall c r, h < c < 4 -> 0 <= r < 4 -> mask_cell mask c r = false) /\
      getShapeDimensions mask = h - l + 1)).
Proof.
  intros Hm. pose proof (geometry_ok_mask mask Hm) as Hok.
  unfold geometry_ok in Hok. split.
  - intros ->. now apply Z.eqb_eq in Hok.
  - intros Hne. destruct (Z.eqb_spec mask 0) as [? | _]; [contradiction |].
    apply andb_true_iff in Hok as [Hok Hright].
    apply andb_true_iff in Hok as [Htop Hleft].
    cbn zeta. split; [now apply first_row_spec |].
    split; [now apply leftmost_column_spec |].
    apply rightmost_column_spec in Hright as (Hh & Hex & Hall).
    eexists. split; [exact Hh |]. split; [exact Hex |].
    split; [exact Hall |]. lia.
Qed.

Lemma geometry_matches_mask_witness :
  getTopOffset 0x0F00 = 1 /\
  findFirstNonEmptyColumn 0x0F00 = 0 /\
  exists h, (forall c r, h < c < 4 -> 0 <= r < 4 -> mask_cell 0x0F00 c r = false) /\
            getShapeDimensions 0x0F00 = h - findFirstNonEmptyColumn 0x0F00 + 1.
Proof.
  split; [reflexivity |]. split; [reflexivity |].
  destruct (proj2 (geometry_matches_mask 0x0F00 ltac:(lia)) ltac:(lia))
    as (_ & _ & h & _ & _ & Hall & Hw).
  exists h. split; [exact Hall | exact Hw].
Defined.

(** ** Evaluations *)

(** The I piece: lying, it fills row 1 of its box; standing, column 2. *)
Example geometry_I_piece :
  (getTopOffset 0x0F00, findFirstNonEmptyColumn 0x0F00, getShapeDimensions 0x0F00)
  = (1, 0, 4) /\
  (getTopOffset 0x2222, findFirstNonEmptyColumn 0x2222, getShapeDimensions 0x2222)
  = (0, 2, 1).
Proof. split; reflexivity. Qed.

(** What the three helpers return on the mask without cells. *)
Example geometry_empty_mask :
  (getTopOffset 0, findFirstNonEmptyColumn 0, getShapeDimensions 0) = (0, 4, -3).
Proof. reflexivity. Qed.

(** Two stacked full rows go in one call, and the row above lands on the
    floor. *)
Example removeFullLines_two_rows :
  removeFullLines_board two_full_rows
  = Some (<[19%nat := replicate 3 FixedState ++ replicate 7 EmptyState]>
            emptyBoard).
Proof. vm_compute. reflexivity. Qed.

(** The lying I piece cannot leave the board on the left, and stops with
    its last cell in column 9 on the right. *)
Example moveLeft_at_wall :
  (fun g => p_x (pc_Position (piece g))) <$> moveLeft spawn_game = Some 0.
Proof. vm_compute. reflexivity. Qed.

Example moveRight_to_wall :
  (fun g => p_x (pc_Position (piece g))) <$>
    (g1 ← moveRight spawn_game; g2 ← moveRight g1; g3 ← moveRight g2;
     g4 ← moveRight g3; g5 ← moveRight g4; g6 ← moveRight g5;
     g7 ← moveRight g6; moveRight g7)
  = Some 6.
Proof. vm_compute. reflexivity. Qed.

(** On the floor the lying I piece locks with the next gravity step, and a
    new piece appears at the top. *)
Example moveDown_locks_on_floor :
  (fun g => (board_get (board g) 19 0, p_y (pc_Position (piece g)),
             sh_state (pc_Shape (piece g)))) <$> moveDown 0 floor_game
  = Some (Some FixedState, -1, FallingState).
Proof. vm_compute. reflexivity. Qed.

(** * Further properties of the engine *)

#[local] Arguments getTopOffset : simpl never.
#[local] Arguments findFirstNonEmptyColumn : simpl never.
#[local] Arguments getShapeDimensions : simpl never.
#[local] Arguments Int64.add : simpl never.
#[local] Arguments Int64.sub : simpl never.
#[local] Arguments Int64.neg : simpl never.
#[local] Arguments tick : simpl never.
#[local] Arguments hasCollision : simpl never.
#[local] Arguments moveShape : simpl never.

(** ** Masks of the table *)

Lemma geometry_facts (m : Z) :
  0 < m < 65536 ->
  first_row m (getTopOffset m) = true /\
  leftmost_column m (findFirstNonEmptyColumn m) = true /\
  rightmost_column m (findFirstNonEmptyColumn m + getShapeDimensions m - 1)
  = true.
Proof.
  intros Hm. pose proof (geometry_ok_mask m ltac:(lia)) as Hok.
  unfold geometry_ok in Hok.
  destruct (Z.eqb_spec m 0) as [? | _]; [lia |].
  apply andb_true_iff in Hok as [Hok Hright].
  apply andb_true_iff in Hok as [Htop Hleft]. auto.
Qed.

Lemma footprint_nonempty (m x y : Z) :
  0 < m < 65536 -> exists r c, footprint m x y r c.
Proof.
  intros Hm. destruct (geometry_facts m Hm) as (_ & Hleft & _).
  apply leftmost_column_spec in Hleft as (Hd & (row & Hrow & Hcell) & _).
  exists (Int64.add y row), (Int64.add x (findFirstNonEmptyColumn m)).
  exists (findFirstNonEmptyColumn m), row. repeat split; try lia; assumption.
Qed.

(** ** [fixPiece] and [hasCollision] together *)

Lemma hasCollision_false_iff (b : Board) (m x y : Z) :
  wf_board b ->
  (hasCollision_board b m x y = Some false <->
   forall r c, footprint m x y r c ->
     in_board r c /\ board_get b r c <> Some FixedState).
Proof.
  intros Hwf.
  destruct (hasCollision_board_spec b m x y Hwf) as (res & Hres & Hiff).
  rewrite blocked_footprint in Hiff. rewrite Hres. split.
  - intros Hf r c Hfoot. assert (res = false) by congruence. subst res.
    destruct (decide (in_board r c)) as [Hin | Hout].
    + split; [assumption |]. intros Hfix.
      assert (false = true); [| discriminate]. apply Hiff. eauto.
    + assert (false = true); [| discriminate]. apply Hiff. eauto.
  - intros Hall. destruct res; [| reflexivity].
    destruct (proj1 Hiff eq_refl) as (r & c & Hfoot & Hblock).
    destruct (Hall r c Hfoot) as [Hin Hnf]. tauto.
Qed.

Lemma hasCollision_true_iff (b : Board) (m x y : Z) :
  wf_board b ->
  (hasCollision_board b m x y = Some true <->
   exists r c, footprint m x y r c /\
     (~ in_board r c \/ board_get b r c = Some FixedState)).
Proof.
  intros Hwf.
  destruct (hasCollision_board_spec b m x y Hwf) as (res & Hres & Hiff).
  rewrite blocked_footprint in Hiff. rewrite Hres, <- Hiff.
  split; [congruence | now intros ->].
Qed.

(** X3.  Stamping the same footprint twice keeps the second state: the
    first call leaves no trace, whatever the mask and the origin. *)
Theorem fixPiece_last_write_wins (g : Game) (m x y : Z) (v1 v2 : ShapeState) :
  wf_board (board g) ->
  exists g1 g2,
    fixPiece g m x y v1 = Some g1 /\
    fixPiece g1 m x y v2 = Some g2 /\
    fixPiece g m x y v2 = Some g2.
Proof.
  intros Hwf. unfold fixPiece.
  destruct (fixPiece_board_footprint (board g) m x y v1 Hwf)
    as (b1 & Hb1 & Hwf1 & Hc1).
  destruct (fixPiece_board_footprint b1 m x y v2 Hwf1)
    as (b2 & Hb2 & Hwf2 & Hc2).
  destruct (fixPiece_board_footprint (board g) m x y v2 Hwf)
    as (b3 & Hb3 & Hwf3 & Hc3).
  assert (Heq : b2 = b3).
  { apply board_ext; [assumption | assumption |].
    intros r c Hrc. destruct (footprint_dec m x y r c) as [Hf | Hf].
    - now rewrite (proj1 (Hc3 r c Hrc) Hf), (proj1 (Hc2 r c Hrc) Hf).
    - now rewrite (proj2 (Hc3 r c Hrc) Hf), (proj2 (Hc2 r c Hrc) Hf),
        (proj2 (Hc1 r c Hrc) Hf). }
  subst b3. exists (set_board g b1), (set_board g b2).
  rewrite Hb1, Hb3. cbn [mbind option_bind board set_board].
  rewrite Hb2. cbn. auto.
Qed.

Lemma fixPiece_last_write_wins_witness :
  exists g1 g2,
    fixPiece spawn_game 0x2222 3 4 FixedState = Some g1 /\
    fixPiece g1 0x2222 3 4 EmptyState = Some g2 /\
    fixPiece spawn_game 0x2222 3 4 EmptyState = Some g2.
Proof.
  apply (fixPiece_last_write_wins spawn_game 0x2222 3 4 FixedState EmptyState).
  split; [reflexivity | repeat constructor].
Defined.

(** X4.  A piece of the table collides with itself once it is locked:
    after [fixPiece] with [FixedState], [hasCollision] at the same origin is
    true.  After [fixPiece] with another state it is true exactly when
    some cell of the piece is off the board. *)
Theorem hasCollision_after_fixPiece (g : Game) (x y pos m : Z) (val : ShapeState) :
  wf_game g -> 0 <= pos < 4 ->
  shapeAt (sh_shape (pc_Shape (piece g))) pos = Some m ->
  exists g',
    fixPiece g m x y val = Some g' /\
    (val = FixedState -> hasCollision g' x y pos = Some true) /\
    (val <> FixedState ->
     (hasCollision g' x y pos = Some true <->
      exists r c, footprint m x y r c /\ ~ in_board r c)).
Proof.
  intros (Hwf & [Hs _] & _) Hpos Hm.
  destruct (shapeAt_valid _ pos Hs Hpos) as (m' & Hm' & Hrange).
  assert (m' = m) by congruence. subst m'.
  unfold fixPiece.
  destruct (fixPiece_board_footprint (board g) m x y val Hwf)
    as (b1 & Hb1 & Hwf1 & Hc1).
  rewrite Hb1. cbn. eexists. split; [reflexivity |].
  unfold hasCollision. cbn. rewrite Hm. cbn.
  rewrite (hasCollision_true_iff b1 m x y Hwf1). split.
  - intros ->. destruct (footprint_nonempty m x y Hrange) as (r & c & Hf).
    exists r, c. split; [assumption |].
    destruct (decide (in_board r c)) as [Hin | Hout]; [right | now left].
    exact (proj1 (Hc1 r c Hin) Hf).
  - intros Hval. split.
    + intros (r & c & Hf & [Hout | Hfix]); [eauto |].
      destruct (decide (in_board r c)) as [Hin | Hout]; [| eauto].
      rewrite (proj1 (Hc1 r c Hin) Hf) in Hfix. congruence.
    + intros (r & c & Hf & Hout). eauto.
Qed.

Lemma hasCollision_after_fixPiece_witness :
  exists g', fixPiece spawn_game 0x2222 3 4 FixedState = Some g' /\
             hasCollision g' 3 4 1 = Some true.
Proof.
  destruct (hasCollision_after_fixPiece spawn_game 3 4 1 0x2222 FixedState
              wf_spawn_game ltac:(lia) eq_refl) as (g' & Hfix & Hcol & _).
  exists g'. split; [exact Hfix | now apply Hcol].
Defined.

(** ** [newPiece] *)

Lemma mask_cell_right_of (m col row : Z) :
  0 < m < 65536 -> 0 <= col < 4 -> 0 <= row < 4 ->
  mask_cell m col row = true ->
  findFirstNonEmptyColumn m <= col /\ getTopOffset m <= row /\
  col <= findFirstNonEmptyColumn m + getShapeDimensions m - 1.
Proof.
  intros Hm Hcol Hrow Hcell.
  destruct (geometry_facts m Hm) as (Htop & Hleft & Hright).
  apply first_row_spec in Htop as (_ & _ & Habove).
  apply leftmost_column_spec in Hleft as (_ & _ & Hbefore).
  apply rightmost_column_spec in Hright as (_ & _ & Hafter).
  repeat split.
  - destruct (Z.le_gt_cases (findFirstNonEmptyColumn m) col) as [? | Hlt];
      [assumption |].
    rewrite (Hbefore col row) in Hcell by lia. discriminate.
  - destruct (Z.le_gt_cases (getTopOffset m) row) as [? | Hlt]; [assumption |].
    rewrite (Habove row col) in Hcell by lia. discriminate.
  - destruct (Z.le_gt_cases col
                (findFirstNonEmptyColumn m + getShapeDimensions m - 1))
      as [? | Hlt]; [assumption |].
    rewrite (Hafter col row) in Hcell by lia. discriminate.
Qed.

(** A box pushed up and left by its own offsets has its cells in rows and
    columns 0..3, with a cell in row 0 and a cell in column 0. *)
Lemma spawn_footprint (m : Z) :
  0 < m < 65536 ->
  let x := Int64.neg (findFirstNonEmptyColumn m) in
  let y := Int64.neg (getTopOffset m) in
  (forall r c, footprint m x y r c -> 0 <= r < 4 /\ 0 <= c < 4) /\
  (exists c, footprint m x y 0 c) /\
  (exists r, footprint m x y r 0).
Proof.
  intros Hm x y.
  pose proof (findFirstNonEmptyColumn_bounds m) as Hd.
  pose proof (getTopOffset_bounds m) as Ht.
  assert (Hx : x = - findFirstNonEmptyColumn m).
  { apply Int64Facts.neg_small, small_in_range. lia. }
  assert (Hy : y = - getTopOffset m).
  { apply Int64Facts.neg_small, small_in_range. lia. }
  assert (Hadd : forall a k, -4 <= a <= 0 -> 0 <= k < 4 -> Int64.add a k = a + k).
  { intros a k Ha Hk. apply Int64Facts.add_small, small_in_range. lia. }
  destruct (geometry_facts m Hm) as (Htop & Hleft & _).
  apply first_row_spec in Htop as (Ht' & (c0 & Hc0 & Hcell0) & _).
  apply leftmost_column_spec in Hleft as (Hd' & (r0 & Hr0 & Hcell1) & _).
  split; [| split].
  - intros r c (col & row & Hcol & Hrow & Hcell & Hc & Hr).
    destruct (mask_cell_right_of m col row Hm Hcol Hrow Hcell) as (? & ? & _).
    rewrite Hx, Hadd in Hc by lia. rewrite Hy, Hadd in Hr by lia. lia.
  - exists (Int64.add x c0), c0, (getTopOffset m).
    repeat split; try lia; try assumption.
    rewrite Hy, Hadd by lia. lia.
  - exists (Int64.add y r0), (findFirstNonEmptyColumn m), r0.
    repeat split; try lia; try assumption.
    rewrite Hx, Hadd by lia. lia.
Qed.

Lemma newPiece_top_left (r : Z) (g : Game) :
  0 <= r < 4 ->
  exists g', newPiece r g = Some g' /\
    pc_Shape (piece g') = mkShape 0 r FallingState /\
    committed (piece g') /\
    board g' = board g /\ cancelled g' = cancelled g /\
    (forall row col, piece_footprint g' row col ->
                     0 <= row < 4 /\ 0 <= col < 4) /\
    (exists col, piece_footprint g' 0 col) /\
    (exists row, piece_footprint g' row 0) /\
    Int64.in_range (p_x (pc_Position (piece g'))) /\
    Int64.in_range (p_y (pc_Position (piece g'))).
Proof.
  intros Hr. destruct (shapeAt_valid 0 r ltac:(lia) Hr) as (m & Hm & Hrange).
  unfold newPiece. rewrite Hm. cbn [mbind option_bind].
  eexists. split; [reflexivity |].
  destruct (spawn_footprint m Hrange) as (Hall & (c0 & Hc0) & (r0 & Hr0)).
  unfold piece_footprint, currentMask, committed, set_piece.
  cbn [piece board cancelled pc_Shape pc_Position pc_PreviousShape
       sh_shape sh_pos sh_state p_x p_y p_oldX p_oldY].
  split; [reflexivity |]. split; [now repeat split |].
  split; [reflexivity |]. split; [reflexivity |].
  rewrite Hm. split; [| split; [| split; [| split]]].
  - intros row col (m' & Hm' & Hf). injection Hm' as <-. now apply Hall.
  - exists c0, m. auto.
  - exists r0, m. auto.
  - apply Int64Facts.wrap_in_range.
  - apply Int64Facts.wrap_in_range.
Qed.

(** X1.  [newPiece] always returns a piece of kind 0 in the rotation drawn,
    marked falling and committed; board and cancellation flag are not
    touched.  The piece is placed in the top left corner: its cells lie in
    rows and columns 0..3 of the board, one of them in row 0 and one in
    column 0. *)
Theorem newPiece_spawns_top_left (r : Z) (g : Game) :
  0 <= r < 4 ->
  exists g', newPiece r g = Some g' /\
    pc_Shape (piece g') = mkShape 0 r FallingState /\
    committed (piece g') /\
    board g' = board g /\ cancelled g' = cancelled g /\
    (forall row col, piece_footprint g' row col ->
                     0 <= row < 4 /\ 0 <= col < 4) /\
    (exists col, piece_footprint g' 0 col) /\
    (exists row, piece_footprint g' row 0).
Proof.
  intros Hr.
  destruct (newPiece_top_left r g Hr)
    as (g' & H1 & H2 & H3 & H4 & H5 & H6 & H7 & H8 & _).
  exists g'. auto 10.
Qed.

Lemma newPiece_spawns_top_left_witness :
  exists g', newPiece 1 floor_game = Some g' /\
             pc_Shape (piece g') = mkShape 0 1 FallingState /\
             board g' = board floor_game.
Proof.
  destruct (newPiece_spawns_top_left 1 floor_game ltac:(lia))
    as (g' & Hrun & Hs & _ & Hb & _).
  exists g'. auto.
Defined.

(** ** [moveShape] and [tick] *)

Lemma moveShape_cells (g : Game) :
  wf_game g ->
  exists mo mc g',
    shapeAt (sh_shape (pc_PreviousShape (piece g)))
            (sh_pos (pc_PreviousShape (piece g))) = Some mo /\
    currentMask g = Some mc /\
    moveShape g = Some g' /\
    piece g' = sync_piece (piece g) /\ cancelled g' = cancelled g /\
    wf_board (board g') /\
    forall r c, in_board r c ->
      let new := footprint mc (p_x (pc_Position (piece g)))
                              (p_y (pc_Position (piece g))) r c in
      let old := footprint mo (p_oldX (pc_Position (piece g)))
                              (p_oldY (pc_Position (piece g))) r c in
      (new -> board_get (board g') r c = Some (sh_state (pc_Shape (piece g)))) /\
      (~ new -> old -> board_get (board g') r c = Some EmptyState) /\
      (~ new -> ~ old -> board_get (board g') r c = board_get (board g) r c).
Proof.
  intros Hwf.
  destruct (moveShape_spec g Hwf)
    as (mo & mc & b1 & b2 & Hmo & Hmc & Hb1 & Hb2 & Hwf1 & Hwf2 & Hmove).
  destruct (fixPiece_board_footprint (board g) mo
              (p_oldX (pc_Position (piece g))) (p_oldY (pc_Position (piece g)))
              EmptyState (proj1 Hwf)) as (b1' & Hb1' & _ & Hc1).
  assert (b1' = b1) by congruence. subst b1'.
  destruct (fixPiece_board_footprint b1 mc
              (p_x (pc_Position (piece g))) (p_y (pc_Position (piece g)))
              (sh_state (pc_Shape (piece g))) Hwf1) as (b2' & Hb2' & _ & Hc2).
  assert (b2' = b2) by congruence. subst b2'.
  exists mo, mc. eexists. split; [exact Hmo |]. split; [exact Hmc |].
  split; [exact Hmove |]. cbn [piece board cancelled].
  split; [reflexivity |]. split; [reflexivity |]. split; [exact Hwf2 |].
  intros r c Hrc. cbn zeta.
  destruct (Hc1 r c Hrc) as [Hin1 Hout1]. destruct (Hc2 r c Hrc) as [Hin2 Hout2].
  split; [exact Hin2 |]. split.
  - intros Hn Ho. now rewrite (Hout2 Hn), (Hin1 Ho).
  - intros Hn Ho. now rewrite (Hout2 Hn), (Hout1 Ho).
Qed.

(** X2.  [moveShape] always returns.  It writes the piece's state into the
    cells of the piece at its current place, empties the cells of the old
    place that the piece no longer covers, leaves every other cell alone,
    and ends with the old fields equal to the current ones. *)
Theorem moveShape_erases_then_stamps (g : Game) :
  wf_game g ->
  exists mo g',
    shapeAt (sh_shape (pc_PreviousShape (piece g)))
            (sh_pos (pc_PreviousShape (piece g))) = Some mo /\
    moveShape g = Some g' /\
    wf_game g' /\ committed (piece g') /\
    pc_Shape (piece g') = pc_Shape (piece g) /\
    p_x (pc_Position (piece g')) = p_x (pc_Position (piece g)) /\
    p_y (pc_Position (piece g')) = p_y (pc_Position (piece g)) /\
    cancelled g' = cancelled g /\
    forall r c, in_board r c ->
      let old := footprint mo (p_oldX (pc_Position (piece g)))
                              (p_oldY (pc_Position (piece g))) r c in
      (piece_footprint g r c ->
       board_get (board g') r c = Some (sh_state (pc_Shape (piece g)))) /\
      (~ piece_footprint g r c -> old ->
       board_get (board g') r c = Some EmptyState) /\
      (~ piece_footprint g r c -> ~ old ->
       board_get (board g') r c = board_get (board g) r c).
Proof.
  intros Hwf.
  destruct (moveShape_cells g Hwf)
    as (mo & mc & g' & Hmo & Hmc & Hmove & Hp & Hc & Hwf' & Hcells).
  exists mo, g'. split; [exact Hmo |]. split; [exact Hmove |].
  destruct (valid_sync_piece (piece g) (proj1 (proj2 Hwf))) as (Hv1 & Hv2 & Hcom).
  rewrite Hp. split; [| split; [exact Hcom |]].
  { split; [exact Hwf' |]. rewrite Hp. split; assumption. }
  split; [reflexivity |]. split; [reflexivity |]. split; [reflexivity |].
  split; [exact Hc |].
  intros r c Hrc. cbn zeta.
  assert (Hpf : piece_footprint g r c <->
                footprint mc (p_x (pc_Position (piece g)))
                             (p_y (pc_Position (piece g))) r c).
  { unfold piece_footprint. rewrite Hmc. split.
    - intros (m & Hm & Hf). now injection Hm as <-.
    - eauto. }
  rewrite Hpf. exact (Hcells r c Hrc).
Qed.

Lemma moveShape_erases_then_stamps_witness :
  exists g', moveShape (set_piece spawn_game
                          (with_x (piece spawn_game) 5)) = Some g' /\
             committed (piece g') /\
             p_x (pc_Position (piece g')) = 5.
Proof.
  destruct (moveShape_erases_then_stamps
              (set_piece spawn_game (with_x (piece spawn_game) 5)))
    as (mo & g' & _ & Hrun & _ & Hcom & _ & Hx & _).
  { apply wf_game_with_x. exact wf_spawn_game. }
  exists g'. auto.
Defined.

(** X5.  [tick] always returns, and no row of the board it leaves is full:
    the board is the compacted board of [moveShape].  The piece is
    committed, with shape, rotation, state, [x] and [y] as before, and the
    cancellation flag is as before. *)
Theorem tick_leaves_no_full_row (g : Game) :
  wf_game g ->
  exists g1 g',
    moveShape g = Some g1 /\ tick g = Some g' /\
    board g' = compact (board g1) /\ no_full_rows (board g') /\
    wf_game g' /\ committed (piece g') /\
    pc_Shape (piece g') = pc_Shape (piece g) /\
    p_x (pc_Position (piece g')) = p_x (pc_Position (piece g)) /\
    p_y (pc_Position (piece g')) = p_y (pc_Position (piece g)) /\
    cancelled g' = cancelled g.
Proof.
  intros Hwf.
  destruct (tick_spec g Hwf)
    as (g' & Ht & Hwf' & Hp & Hc & Hnf & g1 & Hmove & Hb).
  exists g1, g'. repeat (split; [assumption |]).
  rewrite Hp. split; [apply valid_sync_piece, Hwf |]. now repeat split.
Qed.

Lemma tick_leaves_no_full_row_witness :
  exists g', tick (mkGame (mkPiece (mkShape 0 0 FixedState)
                                   (mkPosition 6 18 6 18)
                                   (mkShape 0 0 EmptyState))
                          (<[19%nat := replicate 6 FixedState
                                       ++ replicate 4 EmptyState]> emptyBoard)
                          false) = Some g' /\
             no_full_rows (board g').
Proof.
  destruct (tick_leaves_no_full_row
              (mkGame (mkPiece (mkShape 0 0 FixedState)
                               (mkPosition 6 18 6 18)
                               (mkShape 0 0 EmptyState))
                      (<[19%nat := replicate 6 FixedState
                                   ++ replicate 4 EmptyState]> emptyBoard)
                      false))
    as (g1 & g' & _ & Ht & _ & Hnf & _).
  { split; [split; [reflexivity | repeat constructor] |].
    split; split; cbn; lia. }
  exists g'. auto.
Defined.

(** X6.  On a falling piece over a board without full rows a second
    [tick] changes nothing: [tick] is idempotent there. *)
Theorem tick_idempotent (g : Game) :
  wf_game g -> sh_state (pc_Shape (piece g)) = FallingState ->
  no_full_rows (board g) ->
  exists g', tick g = Some g' /\ tick g' = Some g'.
Proof.
  intros Hwf Hst Hnf.
  destruct (tick_falling g Hwf Hst Hnf)
    as (g' & Ht & (Hwf' & Hcom & _ & Hstamp & Hnf') & _).
  exists g'. split; [exact Ht |]. now apply tick_fixpoint.
Qed.

Lemma tick_idempotent_witness :
  exists g', tick (set_piece spawn_game (with_x (piece spawn_game) 5)) = Some g' /\
             tick g' = Some g'.
Proof.
  apply tick_idempotent.
  - apply wf_game_with_x. exact wf_spawn_game.
  - reflexivity.
  - unfold no_full_rows. cbn. repeat constructor.
Defined.

(** ** Moves of a piece that lies on the board *)

Lemma no_wrap_add (x k : Z) :
  Int64.in_range x -> 0 <= k <= 4 -> 0 <= Int64.add x k ->
  Int64.add x k = x + k.
Proof.
  unfold Int64.add, Int64.wrap, Int64.in_range, Int64.half, Int64.modulus.
  intros Hx Hk Hpos.
  destruct (Z.lt_ge_cases (x + k) (2 ^ 63)) as [Hlt | Hge].
  - rewrite Z.mod_small by lia. lia.
  - exfalso.
    replace (x + k + 2 ^ 63) with (x + k + 2 ^ 63 - 2 ^ 64 + 1 * 2 ^ 64)
      in Hpos by lia.
    rewrite Z_mod_plus_full, Z.mod_small in Hpos by lia. lia.
Qed.

Lemma hasCollision_game (g : Game) (x y pos m : Z) :
  shapeAt (sh_shape (pc_Shape (piece g))) pos = Some m ->
  hasCollision g x y pos = hasCollision_board (board g) m x y.
Proof. intros Hm. unfold hasCollision. now rewrite Hm. Qed.

Lemma no_falling_cells (b : Board) :
  wf_board b ->
  (no_falling b <->
   forall r c, in_board r c -> board_get b r c <> Some FallingState).
Proof.
  intros Hwf. unfold no_falling. split.
  - intros Hall r c [Hr Hc] Hcell.
    destruct (wf_board_row b r Hwf Hr) as (row & Hrow & _).
    rewrite (board_get_row b r row c Hrow) in Hcell.
    unfold index in Hrow, Hcell.
    destruct (decide (0 <= r)); [| lia]. destruct (decide (0 <= c)); [| lia].
    rewrite Forall_lookup in Hall. specialize (Hall _ _ Hrow).
    rewrite Forall_lookup in Hall. now apply (Hall _ _ Hcell).
  - intros Hcells. apply Forall_lookup. intros i row Hrow.
    apply Forall_lookup. intros j v Hv ->.
    assert (Hi : (i < length b)%nat) by (apply lookup_lt_is_Some; eauto).
    assert (Hj : (j < length row)%nat) by (apply lookup_lt_is_Some; eauto).
    destruct Hwf as [Hlen Hrows].
    assert (Hlenr : length row = Z.to_nat gameGridWidth).
    { rewrite Forall_lookup in Hrows. eauto. }
    apply (Hcells (Z.of_nat i) (Z.of_nat j)).
    + unfold in_board, gameGridHeight, gameGridWidth in *. lia.
    + rewrite board_get_lookup, Nat2Z.id, Hrow by lia. cbn.
      now rewrite index_of_nat.
Qed.

Lemma no_falling_compact (b : Board) : no_falling b -> no_falling (compact b).
Proof.
  intros H. unfold compact, no_falling. apply Forall_app. split.
  - apply Forall_replicate. apply Forall_replicate. discriminate.
  - now apply Forall_filter_rows.
Qed.

Lemma currentMask_range (g : Game) (m : Z) :
  wf_game g -> currentMask g = Some m -> 0 < m < 65536.
Proof.
  intros Hwf Hm. destruct (currentMask_valid g Hwf) as (m' & Hm' & Hr).
  congruence.
Qed.

(** The columns and the top row of a piece that lies on the board. *)
Lemma on_board_bounds (g : Game) (m : Z) :
  wf_game g -> piece_on_board g -> currentMask g = Some m ->
  Int64.in_range (p_x (pc_Position (piece g))) ->
  Int64.in_range (p_y (pc_Position (piece g))) ->
  let x := p_x (pc_Position (piece g)) in
  let y := p_y (pc_Position (piece g)) in
  0 <= x + findFirstNonEmptyColumn m /\
  x + findFirstNonEmptyColumn m + getShapeDimensions m <= gameGridWidth /\
  0 <= y + getTopOffset m < gameGridHeight.
Proof.
  intros Hwf Hon Hm Hxr Hyr x y.
  pose proof (currentMask_range g m Hwf Hm) as Hrange.
  destruct (geometry_facts m Hrange) as (Htop & Hleft & Hright).
  apply first_row_spec in Htop as (Ht & (c0 & Hc0 & Hcell0) & _).
  apply leftmost_column_spec in Hleft as (Hd & (r1 & Hr1 & Hcell1) & _).
  apply rightmost_column_spec in Hright as (Hh & (r2 & Hr2 & Hcell2) & _).
  assert (Hcellin : forall col row, 0 <= col < 4 -> 0 <= row < 4 ->
            mask_cell m col row = true ->
            0 <= y + row < gameGridHeight /\ 0 <= x + col < gameGridWidth).
  { intros col row Hcol Hrow Hcell.
    destruct (Hon (Int64.add y row) (Int64.add x col)) as [Hr Hc].
    { exists m. split; [assumption |]. exists col, row. now repeat split. }
    rewrite (no_wrap_add x col) in Hc by (assumption || lia).
    rewrite (no_wrap_add y row) in Hr by (assumption || lia). tauto. }
  assert (Hd1 : 0 <= findFirstNonEmptyColumn m < 4) by lia.
  assert (Hh1 : 0 <= findFirstNonEmptyColumn m + getShapeDimensions m - 1 < 4)
    by lia.
  assert (Ht1 : 0 <= getTopOffset m < 4) by lia.
  pose proof (Hcellin _ _ Hd1 Hr1 Hcell1) as [_ H1].
  pose proof (Hcellin _ _ Hh1 Hr2 Hcell2) as [_ H2].
  pose proof (Hcellin _ _ Hc0 Ht1 Hcell0) as [H3 _].
  unfold gameGridWidth, gameGridHeight in *. lia.
Qed.

Lemma moved_facts (g : Game) (pos x y : Z) :
  board (moved g pos x y) = board g /\
  cancelled (moved g pos x y) = cancelled g /\
  pc_PreviousShape (piece (moved g pos x y)) = pc_PreviousShape (piece g) /\
  p_oldX (pc_Position (piece (moved g pos x y))) = p_oldX (pc_Position (piece g)) /\
  p_oldY (pc_Position (piece (moved g pos x y))) = p_oldY (pc_Position (piece g)) /\
  pc_Shape (piece (moved g pos x y))
  = mkShape (sh_shape (pc_Shape (piece g))) pos (sh_state (pc_Shape (piece g))) /\
  p_x (pc_Position (piece (moved g pos x y))) = x /\
  p_y (pc_Position (piece (moved g pos x y))) = y.
Proof. now repeat split. Qed.

Lemma wf_game_moved (g : Game) (pos x y : Z) :
  wf_game g -> 0 <= pos < 4 -> wf_game (moved g pos x y).
Proof.
  intros (Hb & [Hs _] & Hp) Hpos. split; [exact Hb |].
  split; [split; [exact Hs | exact Hpos] | exact Hp].
Qed.

(** The commit pass after the piece moved to a place where it does not
    collide. *)
Lemma commit_move (g : Game) (pos1 x1 y1 m m1 : Z) :
  run_inv g -> currentMask g = Some m -> 0 <= pos1 < 4 ->
  shapeAt (sh_shape (pc_Shape (piece g))) pos1 = Some m1 ->
  hasCollision g x1 y1 pos1 = Some false ->
  Int64.in_range x1 -> Int64.in_range y1 ->
  exists g',
    moveShape (moved g pos1 x1 y1) = Some g' /\
    tick (moved g pos1 x1 y1) = Some g' /\
    run_inv g' /\
    piece g' = sync_piece (piece (moved g pos1 x1 y1)) /\
    cancelled g' = cancelled g /\
    same_fixed (board g) (board g') /\
    forall r c, in_board r c ->
      (footprint m1 x1 y1 r c ->
       board_get (board g') r c = Some FallingState) /\
      (~ footprint m1 x1 y1 r c -> piece_footprint g r c ->
       board_get (board g') r c = Some EmptyState) /\
      (~ footprint m1 x1 y1 r c -> ~ piece_footprint g r c ->
       board_get (board g') r c = board_get (board g) r c).
Proof.
  intros ((Hwf & Hcom & Hst & Hstamp & Hnf) & Hon & Hfall & Hxr & Hyr)
         Hm Hpos1 Hm1 Hcol Hx1 Hy1.
  set (g1 := moved g pos1 x1 y1).
  assert (Hwf1 : wf_game g1) by now apply wf_game_moved.
  destruct (moveShape_cells g1 Hwf1)
    as (mo & mc & g' & Hmo & Hmc & Hmove & Hp & Hc & Hwf' & Hcells).
  destruct (moveShape_falling g1 Hwf1 Hst Hnf)
    as (g2 & Hmove2 & Hwfg' & _ & _ & Hstamp' & Hnf').
  assert (g2 = g') by congruence. subst g2.
  destruct Hcom as (Hox & Hoy & Hos & Hop).
  assert (mo = m).
  { cbn in Hmo. rewrite Hos, Hop in Hmo. unfold currentMask in Hm. congruence. }
  assert (mc = m1).
  { unfold currentMask in Hmc. cbn in Hmc. congruence. }
  subst mo mc. cbn in Hcells. rewrite Hox, Hoy in Hcells.
  assert (Hpf : forall r c, piece_footprint g r c <->
            footprint m (p_x (pc_Position (piece g)))
                        (p_y (pc_Position (piece g))) r c).
  { intros r c. unfold piece_footprint. rewrite Hm. split.
    - intros (m' & Hm' & Hf). now injection Hm' as <-.
    - eauto. }
  assert (Hpf' : forall r c, piece_footprint g' r c <-> footprint m1 x1 y1 r c).
  { intros r c. unfold piece_footprint, currentMask. rewrite Hp. cbn.
    rewrite Hm1. split.
    - intros (m' & Hm' & Hf). now injection Hm' as <-.
    - eauto. }
  rewrite (hasCollision_game g x1 y1 pos1 m1 Hm1) in Hcol.
  rewrite (hasCollision_false_iff (board g) m1 x1 y1 (proj1 Hwf)) in Hcol.
  assert (Hst' : sh_state (pc_Shape (piece g')) = FallingState).
  { rewrite Hp. exact Hst. }
  assert (Hcom' : committed (piece g')).
  { rewrite Hp. apply valid_sync_piece. apply Hwf1. }
  rewrite Hst in Hcells.
  exists g'. split; [exact Hmove |]. split.
  { unfold tick. rewrite Hmove. cbn.
    apply removeFullLines_no_full; [apply Hwfg' | assumption]. }
  split.
  { split; [split; [exact Hwfg' | split; [exact Hcom' |
             split; [exact Hst' | split; [exact Hstamp' | exact Hnf']]]] |].
    split; [| split; [| split]].
    - intros r c Hf. apply Hpf' in Hf. now apply Hcol.
    - intros r c Hrc Hcell. apply Hpf'.
      destruct (footprint_dec m1 x1 y1 r c) as [Hf | Hf]; [assumption |].
      destruct (Hcells r c Hrc) as (_ & Hold & Hsame).
      destruct (footprint_dec m (p_x (pc_Position (piece g)))
                  (p_y (pc_Position (piece g))) r c) as [Ho | Ho].
      + rewrite (Hold Hf Ho) in Hcell. discriminate.
      + rewrite (Hsame Hf Ho) in Hcell. exfalso. apply Ho, Hpf.
        now apply Hfall.
    - rewrite Hp. exact Hx1.
    - rewrite Hp. exact Hy1. }
  split; [exact Hp |]. split; [exact Hc |]. split.
  - intros r c Hrc. destruct (Hcells r c Hrc) as (Hnew & Hold & Hsame).
    destruct (footprint_dec m1 x1 y1 r c) as [Hf | Hf].
    + rewrite (Hnew Hf). split; [discriminate |].
      intros Hfix. now destruct (Hcol r c Hf).
    + destruct (footprint_dec m (p_x (pc_Position (piece g)))
                  (p_y (pc_Position (piece g))) r c) as [Ho | Ho].
      * rewrite (Hold Hf Ho). split; [discriminate |].
        destruct Hstamp as (m' & Hm' & Hcellsg).
        assert (m' = m) by congruence. subst m'.
        rewrite (Hcellsg r c Hrc Ho), Hst. discriminate.
      * now rewrite (Hsame Hf Ho).
  - intros r c Hrc. destruct (Hcells r c Hrc) as (Hnew & Hold & Hsame).
    rewrite Hpf. auto.
Qed.

(** Standing still: the commit pass returns the state it was given. *)
Lemma commit_still (g : Game) : run_inv g -> tick g = Some g.
Proof. intros ((Hwf & Hcom & _ & Hstamp & Hnf) & _). now apply tick_fixpoint. Qed.

Lemma piece_footprint_moved (g g' : Game) (pos1 x1 y1 m1 : Z) (r c : Z) :
  piece g' = sync_piece (piece (moved g pos1 x1 y1)) ->
  shapeAt (sh_shape (pc_Shape (piece g))) pos1 = Some m1 ->
  (piece_footprint g' r c <-> footprint m1 x1 y1 r c).
Proof.
  intros Hp Hm1. unfold piece_footprint, currentMask. rewrite Hp. cbn.
  rewrite Hm1. split.
  - intros (m' & Hm' & Hf). now injection Hm' as <-.
  - eauto.
Qed.

Lemma commit_move_placed (g : Game) (pos1 x1 y1 m1 : Z) :
  run_inv g -> 0 <= pos1 < 4 ->
  shapeAt (sh_shape (pc_Shape (piece g))) pos1 = Some m1 ->
  hasCollision g x1 y1 pos1 = Some false ->
  Int64.in_range x1 -> Int64.in_range y1 ->
  exists g',
    moveShape (moved g pos1 x1 y1) = Some g' /\
    tick (moved g pos1 x1 y1) = Some g' /\
    run_inv g' /\ same_fixed (board g) (board g') /\
    placed g g' pos1 x1 y1.
Proof.
  intros Hinv Hpos1 Hm1 Hcol Hx1 Hy1.
  destruct (currentMask_valid g (proj1 (proj1 Hinv))) as (m & Hm & _).
  destruct (commit_move g pos1 x1 y1 m m1 Hinv Hm Hpos1 Hm1 Hcol Hx1 Hy1)
    as (g' & Hmove & Ht & Hinv' & Hp & Hc & Hsf & Hcells).
  exists g'. split; [exact Hmove |]. split; [exact Ht |].
  split; [exact Hinv' |]. split; [exact Hsf |].
  split; [exact Hp |]. split; [exact Hc |].
  intros r c Hrc. rewrite (piece_footprint_moved g g' pos1 x1 y1 m1 r c Hp Hm1).
  now apply Hcells.
Qed.

Lemma same_fixed_refl (b : Board) : same_fixed b b.
Proof. intros r c _. reflexivity. Qed.

Lemma with_x_moved (g : Game) (v : Z) :
  set_piece g (with_x (piece g) v)
  = moved g (sh_pos (pc_Shape (piece g))) v (p_y (pc_Position (piece g))).
Proof. destruct g as [[[k p st] [x y ox oy] ps] b c]. reflexivity. Qed.

Lemma with_y_falling_moved (g : Game) (v : Z) :
  sh_state (pc_Shape (piece g)) = FallingState ->
  set_piece g (with_y (with_state (piece g) FallingState) v)
  = moved g (sh_pos (pc_Shape (piece g))) (p_x (pc_Position (piece g))) v.
Proof.
  destruct g as [[[k p st] [x y ox oy] ps] b c]. cbn. intros ->. reflexivity.
Qed.

Lemma getShapeDimensions_table (m : Z) :
  0 < m < 65536 -> 1 <= getShapeDimensions m <= 4.
Proof.
  intros Hm. destruct (geometry_facts m Hm) as (_ & Hleft & Hright).
  apply leftmost_column_spec in Hleft as (Hd & _).
  apply rightmost_column_spec in Hright as (Hh & (r & Hr & Hcell) & _).
  assert (Hh' : 0 <= findFirstNonEmptyColumn m + getShapeDimensions m - 1 < 4)
    by lia.
  destruct (mask_cell_right_of m _ r Hm Hh' Hr Hcell) as (Hle & _).
  lia.
Qed.

Lemma run_small (g : Game) :
  run_inv g ->
  -3 <= p_x (pc_Position (piece g)) <= 9 /\
  -3 <= p_y (pc_Position (piece g)) <= 19.
Proof.
  intros ((Hwf & _) & Hon & _ & Hxr & Hyr).
  destruct (currentMask_valid g Hwf) as (m & Hm & Hrange).
  pose proof (on_board_bounds g m Hwf Hon Hm Hxr Hyr) as (H1 & H2 & H3).
  destruct (geometry_facts m Hrange) as (Htop & Hleft & _).
  apply first_row_spec in Htop as (Ht & _).
  apply leftmost_column_spec in Hleft as (Hd & _).
  pose proof (getShapeDimensions_table m Hrange) as Hw.
  cbn zeta in *. unfold gameGridWidth, gameGridHeight in *. lia.
Qed.

(** [moveLeft] in a state of a run. *)
Lemma moveLeft_run (g : Game) (m : Z) :
  run_inv g -> currentMask g = Some m ->
  let x := p_x (pc_Position (piece g)) in
  let y := p_y (pc_Position (piece g)) in
  let pos := sh_pos (pc_Shape (piece g)) in
  let free := 0 <= x + findFirstNonEmptyColumn m - 1 /\
              hasCollision g (x - 1) y pos = Some false in
  exists g', moveLeft g = Some g' /\ run_inv g' /\
    same_fixed (board g) (board g') /\
    (free -> placed g g' pos (x - 1) y) /\
    (~ free -> g' = g).
Proof.
  intros Hinv Hm x y pos free.
  pose proof (run_small g Hinv) as [Hx Hy]. fold x in Hx. fold y in Hy.
  pose proof Hinv as ((Hwf & _) & _ & _ & _ & Hyr).
  pose proof (findFirstNonEmptyColumn_bounds m) as Hd.
  destruct (moveLeft_unfold g Hwf) as (m' & ok & Hm' & Hok & Hrun).
  assert (m' = m) by congruence. subst m'.
  fold x y pos in Hok, Hrun.
  rewrite (Int64Facts.add_small x) in Hok by (apply small_in_range; lia).
  rewrite (Int64Facts.sub_small (x + _)) in Hok by (apply small_in_range; lia).
  rewrite (Int64Facts.sub_small x 1) in Hok, Hrun by (apply small_in_range; lia).
  fold free in Hok. rewrite Hrun. destruct ok.
  - rewrite with_x_moved. fold pos y.
    destruct (commit_move_placed g pos (x - 1) y m Hinv)
      as (g' & _ & Ht & Hinv' & Hsf & Hpl); try assumption.
    + apply Hwf.
    + now apply Hok.
    + apply small_in_range. lia.
    + exists g'. split; [exact Ht |]. split; [exact Hinv' |].
      split; [exact Hsf |]. split; [auto |].
      intros Hn. exfalso. apply Hn. now apply Hok.
  - exists g. split; [now apply commit_still |]. split; [assumption |].
    split; [apply same_fixed_refl |]. split; [| reflexivity].
    intros Hf. apply Hok in Hf. discriminate.
Qed.

(** [moveRight] in a state of a run. *)
Lemma moveRight_run (g : Game) (m : Z) :
  run_inv g -> currentMask g = Some m ->
  let x := p_x (pc_Position (piece g)) in
  let y := p_y (pc_Position (piece g)) in
  let pos := sh_pos (pc_Shape (piece g)) in
  let free := x + findFirstNonEmptyColumn m + getShapeDimensions m
              < gameGridWidth /\
              hasCollision g (x + 1) y pos = Some false in
  exists g', moveRight g = Some g' /\ run_inv g' /\
    same_fixed (board g) (board g') /\
    (free -> placed g g' pos (x + 1) y) /\
    (~ free -> g' = g).
Proof.
  intros Hinv Hm x y pos free.
  pose proof (run_small g Hinv) as [Hx Hy]. fold x in Hx. fold y in Hy.
  pose proof Hinv as ((Hwf & _) & _ & _ & _ & Hyr).
  pose proof (findFirstNonEmptyColumn_bounds m) as Hd.
  pose proof (getShapeDimensions_bounds m) as Hw.
  destruct (moveRight_unfold g Hwf) as (m' & ok & Hm' & Hok & Hrun).
  assert (m' = m) by congruence. subst m'.
  fold x y pos in Hok, Hrun.
  rewrite (Int64Facts.add_small x (findFirstNonEmptyColumn m)) in Hok
    by (apply small_in_range; lia).
  rewrite (Int64Facts.add_small (x + _)) in Hok by (apply small_in_range; lia).
  rewrite (Int64Facts.add_small x 1) in Hok, Hrun by (apply small_in_range; lia).
  fold free in Hok. rewrite Hrun. destruct ok.
  - rewrite with_x_moved. fold pos y.
    destruct (commit_move_placed g pos (x + 1) y m Hinv)
      as (g' & _ & Ht & Hinv' & Hsf & Hpl); try assumption.
    + apply Hwf.
    + now apply Hok.
    + apply small_in_range. lia.
    + exists g'. split; [exact Ht |]. split; [exact Hinv' |].
      split; [exact Hsf |]. split; [auto |].
      intros Hn. exfalso. apply Hn. now apply Hok.
  - exists g. split; [now apply commit_still |]. split; [assumption |].
    split; [apply same_fixed_refl |]. split; [| reflexivity].
    intros Hf. apply Hok in Hf. discriminate.
Qed.

(** ** Gravity *)

(** A new piece on a board without falling cells and without full rows,
    and the commit pass that follows. *)
Lemma spawn_commit (r : Z) (g : Game) :
  0 <= r < 4 -> wf_board (board g) -> no_full_rows (board g) ->
  no_falling (board g) ->
  exists g1 g',
    newPiece r g = Some g1 /\ tick g1 = Some g' /\ run_inv g' /\
    piece g' = piece g1 /\ cancelled g' = cancelled g /\
    forall row col, in_board row col ->
      (piece_footprint g' row col ->
       board_get (board g') row col = Some FallingState) /\
      (~ piece_footprint g' row col ->
       board_get (board g') row col = board_get (board g) row col).
Proof.
  intros Hr Hwf Hnf Hnofall.
  destruct (newPiece_top_left r g Hr)
    as (g1 & Hnew & Hs1 & Hcom1 & Hb1 & Hc1 & Hspawn & _ & _ & Hxr & Hyr).
  assert (Hst1 : sh_state (pc_Shape (piece g1)) = FallingState)
    by now rewrite Hs1.
  assert (Hwf1 : wf_game g1).
  { destruct Hcom1 as (_ & _ & Hos & Hop).
    split; [now rewrite Hb1 |]. unfold valid_shape.
    rewrite Hos, Hop, Hs1. cbn. lia. }
  rewrite <- Hb1 in Hnf.
  destruct (moveShape_cells g1 Hwf1)
    as (mo & mc & g' & Hmo & Hmc & Hmove & Hp & Hc & Hwf' & Hcells).
  destruct (moveShape_falling g1 Hwf1 Hst1 Hnf)
    as (g2 & Hmove2 & Hwfg' & _ & _ & Hstamp' & Hnf').
  assert (g2 = g') by congruence. subst g2.
  pose proof Hcom1 as (Hox & Hoy & Hos & Hop).
  assert (mo = mc).
  { rewrite Hos, Hop in Hmo. unfold currentMask in Hmc. congruence. }
  subst mo. rewrite Hox, Hoy, Hst1 in Hcells. cbn zeta in Hcells.
  rewrite (sync_piece_committed _ Hcom1) in Hp.
  assert (Hpf : forall row col, piece_footprint g' row col <->
            piece_footprint g1 row col).
  { intros row col. unfold piece_footprint, currentMask. now rewrite Hp. }
  assert (Hpf1 : forall row col, piece_footprint g1 row col <->
            footprint mc (p_x (pc_Position (piece g1)))
                         (p_y (pc_Position (piece g1))) row col).
  { intros row col. unfold piece_footprint. rewrite Hmc. split.
    - intros (m' & Hm' & Hf). now injection Hm' as <-.
    - eauto. }
  assert (Hcells' : forall row col, in_board row col ->
            (piece_footprint g' row col ->
             board_get (board g') row col = Some FallingState) /\
            (~ piece_footprint g' row col ->
             board_get (board g') row col = board_get (board g) row col)).
  { intros row col Hrc. rewrite Hpf, Hpf1, <- Hb1.
    destruct (Hcells row col Hrc) as (Hn & _ & Hsame).
    split; [exact Hn |]. intros Hno. now apply Hsame. }
  exists g1, g'. split; [exact Hnew |]. split.
  { unfold tick. rewrite Hmove. cbn [mbind option_bind].
    apply removeFullLines_no_full; [apply Hwfg' | assumption]. }
  split; [| split; [exact Hp | split; [congruence | exact Hcells']]].
  split.
  { split; [exact Hwfg' |]. split; [now rewrite Hp |].
    split; [now rewrite Hp |]. split; assumption. }
  split; [| split; [| split]].
  - intros row col Hf. apply Hpf, Hspawn in Hf.
    unfold in_board, gameGridHeight, gameGridWidth. lia.
  - intros row col Hrc Hcell.
    destruct (footprint_dec mc (p_x (pc_Position (piece g1)))
                (p_y (pc_Position (piece g1))) row col) as [Hf | Hf];
      [now apply Hpf, Hpf1 |].
    rewrite <- Hpf1, <- Hpf in Hf.
    rewrite (proj2 (Hcells' row col Hrc) Hf) in Hcell.
    exfalso. now apply (proj1 (no_falling_cells (board g) Hwf) Hnofall row col).
  - now rewrite Hp.
  - now rewrite Hp.
Qed.

Lemma piece_footprint_mask (g : Game) (m r c : Z) :
  currentMask g = Some m ->
  (piece_footprint g r c <->
   footprint m (p_x (pc_Position (piece g))) (p_y (pc_Position (piece g))) r c).
Proof.
  intros Hm. unfold piece_footprint. rewrite Hm. split.
  - intros (m' & Hm' & Hf). now injection Hm' as <-.
  - eauto.
Qed.

(** The commit pass that locks the piece where it lies. *)
Lemma lock_commit (g : Game) :
  run_inv g ->
  exists g',
    tick (set_piece g (with_state (piece g) FixedState)) = Some g' /\
    wf_board (board g') /\ no_full_rows (board g') /\ no_falling (board g') /\
    cancelled g' = cancelled g /\
    exists b1, wf_board b1 /\ board g' = compact b1 /\
      forall r c, in_board r c ->
        (piece_footprint g r c -> board_get b1 r c = Some FixedState) /\
        (~ piece_footprint g r c -> board_get b1 r c = board_get (board g) r c).
Proof.
  intros ((Hwf & Hcom & Hst & Hstamp & Hnf) & Hon & Hfall & _).
  set (g1 := set_piece g (with_state (piece g) FixedState)).
  assert (Hwf1 : wf_game g1) by (apply wf_game_set_piece; apply Hwf).
  destruct (currentMask_valid g Hwf) as (m & Hm & _).
  destruct (tick_spec g1 Hwf1)
    as (g' & Ht & Hwf' & _ & Hc & Hnf' & gm & Hmove & Hb).
  destruct (moveShape_cells g1 Hwf1)
    as (mo & mc & gm' & Hmo & Hmc & Hmove' & _ & _ & Hwfm & Hcells).
  assert (gm' = gm) by congruence. subst gm'.
  destruct Hcom as (Hox & Hoy & Hos & Hop).
  assert (mo = m).
  { cbn in Hmo. rewrite Hos, Hop in Hmo. unfold currentMask in Hm. congruence. }
  assert (mc = m) by (unfold currentMask in Hmc, Hm; cbn in Hmc; congruence).
  subst mo mc. cbn in Hcells. rewrite Hox, Hoy in Hcells.
  assert (Hb1 : forall r c, in_board r c ->
            (piece_footprint g r c -> board_get (board gm) r c = Some FixedState) /\
            (~ piece_footprint g r c ->
             board_get (board gm) r c = board_get (board g) r c)).
  { intros r c Hrc. rewrite (piece_footprint_mask g m r c Hm).
    destruct (Hcells r c Hrc) as (Hn & _ & Hsame).
    split; [exact Hn |]. intros Hno. now apply Hsame. }
  assert (Hnofall : no_falling (board gm)).
  { apply (no_falling_cells _ Hwfm). intros r c Hrc Hcell.
    destruct (footprint_dec m (p_x (pc_Position (piece g)))
                (p_y (pc_Position (piece g))) r c) as [Hf | Hf].
    - apply (piece_footprint_mask g m r c Hm) in Hf.
      rewrite (proj1 (Hb1 r c Hrc) Hf) in Hcell. discriminate.
    - rewrite <- (piece_footprint_mask g m r c Hm) in Hf.
      rewrite (proj2 (Hb1 r c Hrc) Hf) in Hcell.
      apply Hf. now apply Hfall. }
  exists g'. split; [exact Ht |]. split; [apply Hwf' |].
  split; [exact Hnf' |]. split; [rewrite Hb; now apply no_falling_compact |].
  split; [exact Hc |].
  exists (board gm). auto.
Qed.

(** [moveDown] in a state of a run. *)
Lemma moveDown_run (r : Z) (g : Game) (m : Z) :
  0 <= r < 4 -> run_inv g -> currentMask g = Some m ->
  let x := p_x (pc_Position (piece g)) in
  let y := p_y (pc_Position (piece g)) in
  let pos := sh_pos (pc_Shape (piece g)) in
  exists g', moveDown r g = Some g' /\ run_inv g' /\
    (hasCollision g x (y + 1) pos = Some false ->
     placed g g' pos x (y + 1) /\ same_fixed (board g) (board g')) /\
    (hasCollision g x (y + 1) pos = Some true -> y = - getTopOffset m ->
     g' = cancel g) /\
    (hasCollision g x (y + 1) pos = Some true -> y <> - getTopOffset m ->
     exists g1 g2,
       tick (set_piece g (with_state (piece g) FixedState)) = Some g1 /\
       newPiece r g1 = Some g2 /\ tick g2 = Some g' /\
       piece g' = piece g2 /\ cancelled g' = cancelled g /\
       forall row col, in_board row col ->
         (piece_footprint g' row col ->
          board_get (board g') row col = Some FallingState) /\
         (~ piece_footprint g' row col ->
          board_get (board g') row col = board_get (board g1) row col)).
Proof.
  intros Hr Hinv Hm x y pos.
  pose proof (run_small g Hinv) as [Hx Hy]. fold x in Hx. fold y in Hy.
  pose proof Hinv as ((Hwf & _ & Hst & _) & _ & _ & Hxr & _).
  pose proof (getTopOffset_bounds m) as Htb.
  destruct (hasCollision_total g x (y + 1) pos Hwf) as (res & Hres);
    [apply Hwf |].
  unfold moveDown. fold x y pos.
  rewrite (Int64Facts.add_small y 1) by (apply small_in_range; lia).
  rewrite Hres. cbn [mbind option_bind]. destruct res.
  - rewrite Hm. cbn [mbind option_bind].
    rewrite Int64Facts.neg_small by (apply small_in_range; lia).
    destruct (decide (y = - getTopOffset m)) as [Hy0 | Hy0].
    + exists (cancel g). split; [reflexivity |]. split; [exact Hinv |].
      split; [discriminate |]. split; [reflexivity | contradiction].
    + unfold moveDown_commit. cbn [piece set_piece with_state pc_Shape sh_state].
      destruct (decide (FixedState = FixedState)) as [_ | Hn]; [| contradiction].
      destruct (lock_commit g Hinv)
        as (g1 & Ht1 & Hwf1 & Hnf1 & Hnofall1 & Hc1 & _).
      rewrite Ht1. cbn [mbind option_bind].
      destruct (spawn_commit r g1 Hr Hwf1 Hnf1 Hnofall1)
        as (g2 & g' & Hnew & Ht2 & Hinv' & Hp' & Hc' & Hcells).
      rewrite Hnew. cbn [mbind option_bind]. rewrite Ht2.
      exists g'. split; [reflexivity |]. split; [exact Hinv' |].
      split; [discriminate |]. split; [contradiction |].
      intros _ _. exists g1, g2.
      split; [first [exact Ht1 | reflexivity] |].
      split; [first [exact Hnew | reflexivity] |].
      split; [first [exact Ht2 | reflexivity] |].
      split; [exact Hp' |]. split; [congruence |].
      exact Hcells.
  - rewrite (with_y_falling_moved g (y + 1) Hst). fold pos x.
    unfold moveDown_commit.
    destruct (commit_move_placed g pos x (y + 1) m Hinv)
      as (g' & _ & Ht & Hinv' & Hsf & Hpl); try assumption.
    + apply Hwf.
    + apply small_in_range. lia.
    + destruct (decide (sh_state (pc_Shape (piece (moved g pos x (y + 1))))
                        = FixedState)) as [Hfix | _].
      { cbn in Hfix. congruence. }
      cbn [mbind option_bind]. rewrite Ht.
      exists g'. split; [reflexivity |]. split; [exact Hinv' |].
      split; [auto |]. split; discriminate.
Qed.

(** ** Rotation *)

Lemma set_piece_with_x_moved (g : Game) (pos x y v : Z) :
  set_piece (moved g pos x y) (with_x (piece (moved g pos x y)) v)
  = moved g pos v y.
Proof. destruct g as [[[k p st] [x0 y0 ox oy] ps] b c]. reflexivity. Qed.

(** The wall-kick loop only lowers [x], and keeps it a value of [int]. *)
Lemma kick_run (fuel : nat) :
  forall g g', wf_game g -> Int64.in_range (p_x (pc_Position (piece g))) ->
    kick fuel g = Some g' ->
    exists x', g' = set_piece g (with_x (piece g) x') /\
               Int64.in_range x' /\ x' <= p_x (pc_Position (piece g)).
Proof.
  induction fuel as [|fuel IH]; intros g g' Hwf Hxr Hrun.
  - cbn [kick] in Hrun.
    destruct (kick_cond g) as [[|]|]; cbn in Hrun; try discriminate.
    injection Hrun as <-. exists (p_x (pc_Position (piece g))).
    rewrite set_piece_with_x_id. split; [reflexivity |]. split; [assumption | lia].
  - cbn [kick] in Hrun.
    destruct (kick_cond g) as [[|]|] eqn:Hcond; cbn [mbind option_bind] in Hrun;
      try discriminate.
    + unfold kick_cond in Hcond.
      destruct (currentMask g) as [m|]; [| discriminate]. cbn in Hcond.
      destruct (0 <=? Int64.add (p_x (pc_Position (piece g)))
                                (findFirstNonEmptyColumn m)) eqn:Hpos;
        [| discriminate].
      pose proof (findFirstNonEmptyColumn_bounds m) as Hd.
      pose proof (no_wrap_add _ _ Hxr Hd ltac:(lia)) as Hadd.
      assert (Hsub : Int64.sub (p_x (pc_Position (piece g))) 1
                     = p_x (pc_Position (piece g)) - 1).
      { apply Int64Facts.sub_small.
        unfold Int64.in_range, Int64.half in *. lia. }
      destruct (IH _ g' (wf_game_with_x g _ Hwf)
                  ltac:(apply Int64Facts.wrap_in_range) Hrun)
        as (x' & Hg' & Hxr' & Hle).
      exists x'. split; [| split; [assumption |]].
      * rewrite Hg'. destruct g as [[[k p st] [x0 y0 ox oy] ps] b c].
        reflexivity.
      * unfold Int64.sub in Hsub. cbn in Hle. rewrite Hsub in Hle. lia.
    + injection Hrun as <-. exists (p_x (pc_Position (piece g))).
      rewrite set_piece_with_x_id. split; [reflexivity |].
      split; [assumption | lia].
Qed.

(** Every turn of the loop before the last one found the guard true. *)
Lemma kick_stops_first (fuel : nat) :
  forall g g', wf_game g -> Int64.in_range (p_x (pc_Position (piece g))) ->
    kick fuel g = Some g' ->
    forall x', p_x (pc_Position (piece g')) < x' <= p_x (pc_Position (piece g)) ->
      kick_cond (set_piece g (with_x (piece g) x')) = Some true.
Proof.
  induction fuel as [|fuel IH]; intros g g' Hwf Hxr Hrun x' Hx'.
  - cbn [kick] in Hrun.
    destruct (kick_cond g) as [[|]|]; cbn in Hrun; try discriminate.
    injection Hrun as <-. lia.
  - cbn [kick] in Hrun.
    destruct (kick_cond g) as [[|]|] eqn:Hcond; cbn [mbind option_bind] in Hrun;
      try discriminate.
    + assert (Hsub : Int64.sub (p_x (pc_Position (piece g))) 1
                     = p_x (pc_Position (piece g)) - 1).
      { unfold kick_cond in Hcond.
        destruct (currentMask g) as [m|]; [| discriminate]. cbn in Hcond.
        destruct (0 <=? Int64.add (p_x (pc_Position (piece g)))
                                  (findFirstNonEmptyColumn m)) eqn:Hpos;
          [| discriminate].
        pose proof (findFirstNonEmptyColumn_bounds m) as Hd.
        pose proof (no_wrap_add _ _ Hxr Hd ltac:(lia)) as Hadd.
        apply Int64Facts.sub_small.
        unfold Int64.in_range, Int64.half in *. lia. }
      destruct (decide (x' = p_x (pc_Position (piece g)))) as [-> | Hne].
      * now rewrite set_piece_with_x_id.
      * pose proof (IH _ g' (wf_game_with_x g _ Hwf)
                      ltac:(apply Int64Facts.wrap_in_range) Hrun x') as Hstep.
        cbn [piece set_piece with_x pc_Position p_x] in Hstep.
        unfold Int64.sub in Hsub. rewrite Hsub in Hstep.
        replace (set_piece g (with_x (piece g) x'))
          with (set_piece
                  (set_piece g (with_x (piece g)
                                  (p_x (pc_Position (piece g)) - 1)))
                  (with_x (with_x (piece g) (p_x (pc_Position (piece g)) - 1))
                          x'))
          by (destruct g as [[[k p st] [x0 y0 ox oy] ps] b c]; reflexivity).
        apply Hstep. lia.
    + injection Hrun as <-. lia.
Qed.

(** The guard of the wall-kick loop on the rotated piece. *)
Lemma kick_cond_moved (g : Game) (pos1 x1 y1 m1 : Z) :
  shapeAt (sh_shape (pc_Shape (piece g))) pos1 = Some m1 ->
  kick_cond (moved g pos1 x1 y1)
  = if 0 <=? Int64.add x1 (findFirstNonEmptyColumn m1)
    then hasCollision g x1 y1 pos1 else Some false.
Proof.
  intros Hm1. unfold kick_cond, currentMask.
  cbn [moved piece set_piece with_x with_y with_pos pc_Shape pc_Position
       sh_shape sh_pos p_x p_y].
  rewrite Hm1. reflexivity.
Qed.

(** [rotate] in a state of a run. *)
Lemma rotate_run (g : Game) (m : Z) :
  run_inv g -> currentMask g = Some m ->
  let x := p_x (pc_Position (piece g)) in
  let y := p_y (pc_Position (piece g)) in
  let pos1 := (sh_pos (pc_Shape (piece g)) + 1) mod 4 in
  exists m1 x1 g',
    shapeAt (sh_shape (pc_Shape (piece g))) pos1 = Some m1 /\
    let y1 := y + getTopOffset m - getTopOffset m1 in
    rotate_search g = Some (moved g pos1 x1 y1) /\
    x1 <= x + findFirstNonEmptyColumn m - findFirstNonEmptyColumn m1 /\
    kick_cond (moved g pos1 x1 y1) = Some false /\
    rotate g = Some g' /\ run_inv g' /\
    same_fixed (board g) (board g') /\
    (hasCollision g x1 y1 pos1 = Some false -> placed g g' pos1 x1 y1) /\
    (hasCollision g x1 y1 pos1 = Some true -> g' = g) /\
    (forall x',
       x1 < x' <= x + findFirstNonEmptyColumn m - findFirstNonEmptyColumn m1 ->
       hasCollision g x' y1 pos1 = Some true) /\
    (hasCollision g x1 y1 pos1 = Some true ->
     x1 + findFirstNonEmptyColumn m1 = -1).
Proof.
  intros Hinv Hm x y pos1.
  pose proof (run_small g Hinv) as [Hx Hy]. fold x in Hx. fold y in Hy.
  pose proof Hinv as ((Hwf & Hcom & _) & _).
  pose proof Hwf as (_ & [Hs Hp] & _).
  pose proof (findFirstNonEmptyColumn_bounds m) as Hd.
  pose proof (getTopOffset_bounds m) as Ht.
  assert (Hpos1 : 0 <= pos1 < 4) by (apply Z.mod_pos_bound; lia).
  destruct (shapeAt_valid _ pos1 Hs Hpos1) as (m1 & Hm1 & _).
  pose proof (findFirstNonEmptyColumn_bounds m1) as Hd1.
  pose proof (getTopOffset_bounds m1) as Ht1.
  set (y1 := y + getTopOffset m - getTopOffset m1).
  set (xs := x + findFirstNonEmptyColumn m - findFirstNonEmptyColumn m1).
  assert (Hsearch0 : rotate_search g
                     = kick (kick_fuel (moved g pos1 xs y1)) (moved g pos1 xs y1)).
  { unfold rotate_search. rewrite Hm. cbn [mbind option_bind]. fold x y.
    rewrite (Int64Facts.add_small (sh_pos _) 1) by (apply small_in_range; lia).
    rewrite Z.rem_mod_nonneg by lia. fold pos1.
    unfold currentMask at 1.
    cbn [piece set_piece with_pos pc_Shape sh_shape sh_pos].
    rewrite Hm1. cbn [mbind option_bind].
    rewrite (Int64Facts.add_small x) by (apply small_in_range; lia).
    rewrite (Int64Facts.add_small y) by (apply small_in_range; lia).
    rewrite !Int64Facts.sub_small by (apply small_in_range; lia).
    reflexivity. }
  assert (Hwfs : wf_game (moved g pos1 xs y1)) by now apply wf_game_moved.
  destruct (kick_total _ _ Hwfs (Nat.le_refl _)) as (x1 & Hkick & Hexit).
  destruct (kick_run _ _ _ Hwfs ltac:(apply small_in_range; cbn; lia) Hkick)
    as (x1' & Heq & Hx1r & Hle).
  rewrite !set_piece_with_x_moved in Heq, Hkick, Hexit.
  assert (x1' = x1).
  { apply (f_equal (fun g => p_x (pc_Position (piece g)))) in Heq.
    cbn in Heq. congruence. }
  subst x1'. cbn in Hle. clear Heq.
  assert (Hbefore : forall x', x1 < x' <= xs ->
            hasCollision g x' y1 pos1 = Some true
            /\ 0 <= Int64.add x' (findFirstNonEmptyColumn m1)).
  { intros x' Hx'.
    pose proof (kick_stops_first _ _ _ Hwfs
                  ltac:(apply small_in_range; cbn; lia) Hkick x'
                  ltac:(cbn; lia)) as Hc.
    rewrite set_piece_with_x_moved, (kick_cond_moved g pos1 x' y1 m1 Hm1) in Hc.
    destruct (0 <=? Int64.add x' (findFirstNonEmptyColumn m1)) eqn:Hpos;
      [split; [exact Hc | lia] | discriminate]. }
  assert (Hlast : hasCollision g x1 y1 pos1 = Some true ->
            x1 + findFirstNonEmptyColumn m1 = -1).
  { intros Hc. pose proof Hexit as Hexit'.
    rewrite (kick_cond_moved g pos1 x1 y1 m1 Hm1), Hc in Hexit'.
    destruct (0 <=? Int64.add x1 (findFirstNonEmptyColumn m1)) eqn:Hpos;
      [discriminate |].
    pose proof Hinv as (_ & Hon & _ & Hxr & Hyr).
    pose proof (on_board_bounds g m Hwf Hon Hm Hxr Hyr) as (Hb1 & _).
    fold x in Hb1.
    destruct (decide (x1 = xs)) as [Heq | Hne].
    - exfalso. subst x1. unfold xs in Hpos.
      rewrite Int64Facts.add_small in Hpos by (apply small_in_range; lia). lia.
    - destruct (Hbefore (x1 + 1) ltac:(lia)) as [_ Hnext].
      assert (Hx1lo : -5 <= x1).
      { destruct (Z.le_gt_cases (-5) x1) as [? | Hlt]; [assumption |].
        exfalso.
        destruct (Z.le_gt_cases (- 2 ^ 63) (x1 + 1 + findFirstNonEmptyColumn m1))
          as [Hge | Hlow].
        - rewrite Int64Facts.add_small in Hnext; [lia |].
          unfold Int64.in_range, Int64.half. lia.
        - unfold Int64.in_range, Int64.half in Hx1r. lia. }
      rewrite Int64Facts.add_small in Hpos by (apply small_in_range; lia).
      rewrite Int64Facts.add_small in Hnext by (apply small_in_range; lia).
      lia. }
  assert (Hsearch : rotate_search g = Some (moved g pos1 x1 y1)) by congruence.
  destruct (hasCollision_total g x1 y1 pos1 Hwf Hpos1) as (res & Hres).
  assert (Hrot : rotate g =
            g2 ← (if res then Some g else moveShape (moved g pos1 x1 y1));
            tick g2).
  { unfold rotate. rewrite Hsearch. cbn [mbind option_bind].
    change (hasCollision (moved g pos1 x1 y1)
              (p_x (pc_Position (piece (moved g pos1 x1 y1))))
              (p_y (pc_Position (piece (moved g pos1 x1 y1))))
              (sh_pos (pc_Shape (piece (moved g pos1 x1 y1)))))
      with (hasCollision g x1 y1 pos1).
    rewrite Hres. cbn [mbind option_bind]. destruct res; [| reflexivity].
    pose proof (revert_after_search g pos1 x1 y1 Hcom) as Hrev.
    fold (moved g pos1 x1 y1) in Hrev.
    change (with_y (with_x (with_pos (piece g) pos1) x1) y1)
      with (piece (moved g pos1 x1 y1)) in Hrev.
    now rewrite Hrev. }
  exists m1, x1.
  destruct res.
  - exists g. split; [exact Hm1 |]. cbn zeta. fold y1 xs.
    split; [exact Hsearch |]. split; [exact Hle |]. split; [exact Hexit |].
    split; [now rewrite Hrot; apply commit_still |]. split; [exact Hinv |].
    split; [apply same_fixed_refl |]. rewrite Hres.
    split; [discriminate |]. split; [reflexivity |].
    split; [intros x' Hx'; now apply Hbefore | intros _; now apply Hlast].
  - destruct (commit_move_placed g pos1 x1 y1 m1 Hinv Hpos1 Hm1 Hres Hx1r)
      as (g' & Hmove & _ & Hinv' & Hsf & Hpl).
    { apply small_in_range. unfold y1. lia. }
    exists g'. split; [exact Hm1 |]. cbn zeta. fold y1 xs.
    split; [exact Hsearch |]. split; [exact Hle |]. split; [exact Hexit |].
    split.
    { rewrite Hrot, Hmove. cbn [mbind option_bind]. now apply commit_still. }
    split; [exact Hinv' |]. split; [exact Hsf |]. rewrite Hres.
    split; [auto |]. split; [discriminate |].
    split; [intros x' Hx'; now apply Hbefore | discriminate].
Qed.

(** ** Every state of a run *)

Lemma run_inv_initialGame (r : Z) (g : Game) :
  0 <= r < 4 -> initialGame r = Some g -> run_inv g.
Proof.
  intros Hr Hrun. unfold initialGame, newGame in Hrun.
  match type of Hrun with
  | context [newPiece r ?g0] =>
      destruct (spawn_commit r g0 Hr wf_emptyBoard no_full_rows_emptyBoard)
        as (g1 & g' & Hnew & Ht & Hinv & _)
  end.
  { unfold no_falling. cbn [board]. apply Forall_replicate.
    apply Forall_replicate. discriminate. }
  rewrite Hnew in Hrun. cbn [mbind option_bind] in Hrun. congruence.
Qed.

Lemma reachable_run_inv (g : Game) : reachable g -> run_inv g.
Proof.
  induction 1 as [r g Hr Hrun | g g' _ IH Hrun | g g' _ IH Hrun
                  | r g g' Hr _ IH Hrun | g g' _ IH Hrun | g _ IH].
  - exact (run_inv_initialGame r g Hr Hrun).
  - destruct (currentMask_valid g (proj1 (proj1 IH))) as (m & Hm & _).
    destruct (moveLeft_run g m IH Hm) as (g2 & Hrun2 & Hinv & _). congruence.
  - destruct (currentMask_valid g (proj1 (proj1 IH))) as (m & Hm & _).
    destruct (moveRight_run g m IH Hm) as (g2 & Hrun2 & Hinv & _). congruence.
  - destruct (currentMask_valid g (proj1 (proj1 IH))) as (m & Hm & _).
    destruct (moveDown_run r g m Hr IH Hm) as (g2 & Hrun2 & Hinv & _).
    congruence.
  - destruct (currentMask_valid g (proj1 (proj1 IH))) as (m & Hm & _).
    destruct (rotate_run g m IH Hm)
      as (m1 & x1 & g2 & _ & _ & _ & _ & Hrun2 & Hinv & _). congruence.
  - exact IH.
Qed.

Lemma run_no_collision (g : Game) :
  run_inv g ->
  hasCollision g (p_x (pc_Position (piece g))) (p_y (pc_Position (piece g)))
               (sh_pos (pc_Shape (piece g))) = Some false.
Proof.
  intros ((Hwf & _ & Hst & (m & Hm & Hstamp) & _) & Hon & _).
  rewrite (hasCollision_game g _ _ _ m Hm).
  apply (hasCollision_false_iff _ _ _ _ (proj1 Hwf)).
  intros r c Hf.
  assert (Hin : in_board r c) by (apply Hon; exists m; auto).
  split; [exact Hin |]. rewrite (Hstamp r c Hin Hf), Hst. discriminate.
Qed.

(** X7.  In every state of a run the piece lies on the board and does not
    collide where it is: each of its cells is a cell of the board,
    [hasCollision] at its own place is false, and its leftmost column, its
    right edge and its top row are within the board, in plain arithmetic
    (no wrap-around). *)
Theorem piece_stays_on_board (g : Game) :
  reachable g ->
  exists m, currentMask g = Some m /\
    let x := p_x (pc_Position (piece g)) in
    let y := p_y (pc_Position (piece g)) in
    (forall r c, footprint m x y r c -> in_board r c) /\
    hasCollision g x y (sh_pos (pc_Shape (piece g))) = Some false /\
    0 <= x + findFirstNonEmptyColumn m /\
    x + findFirstNonEmptyColumn m + getShapeDimensions m <= gameGridWidth /\
    0 <= y + getTopOffset m < gameGridHeight.
Proof.
  intros Hreach. pose proof (reachable_run_inv g Hreach) as Hinv.
  pose proof Hinv as ((Hwf & _) & Hon & _ & Hxr & Hyr).
  destruct (currentMask_valid g Hwf) as (m & Hm & _).
  exists m. split; [exact Hm |]. cbn zeta.
  split; [intros r c Hf; apply Hon; exists m; auto |].
  split; [now apply run_no_collision |].
  exact (on_board_bounds g m Hwf Hon Hm Hxr Hyr).
Qed.

Lemma piece_stays_on_board_witness :
  exists m, currentMask floor_game = Some m /\
    (forall r c, footprint m 0 18 r c -> in_board r c) /\
    hasCollision floor_game 0 18 0 = Some false /\
    0 <= 0 + findFirstNonEmptyColumn m /\
    0 + findFirstNonEmptyColumn m + getShapeDimensions m <= gameGridWidth /\
    0 <= 18 + getTopOffset m < gameGridHeight.
Proof. exact (piece_stays_on_board floor_game reachable_floor_game). Defined.

(** X8.  In every state of a run the falling cells of the board are
    exactly the cells of the piece. *)
Theorem falling_cells_are_the_piece (g : Game) (r c : Z) :
  reachable g -> in_board r c ->
  (board_get (board g) r c = Some FallingState <-> piece_footprint g r c).
Proof.
  intros Hreach Hrc.
  destruct (reachable_run_inv g Hreach)
    as ((_ & _ & Hst & (m & Hm & Hstamp) & _) & _ & Hfall & _).
  split; [now apply Hfall |].
  intros Hf. apply (piece_footprint_mask g m r c Hm) in Hf.
  now rewrite (Hstamp r c Hrc Hf), Hst.
Qed.

Lemma falling_cells_are_the_piece_witness :
  board_get (board floor_game) 19 2 = Some FallingState
  <-> piece_footprint floor_game 19 2.
Proof.
  apply falling_cells_are_the_piece; [exact reachable_floor_game |].
  unfold in_board, gameGridHeight, gameGridWidth. lia.
Defined.

(** ** What the commands keep *)

Lemma placed_piece (g g' : Game) (pos x y : Z) :
  placed g g' pos x y ->
  cancelled g' = cancelled g /\
  sh_shape (pc_Shape (piece g')) = sh_shape (pc_Shape (piece g)) /\
  sh_pos (pc_Shape (piece g')) = pos /\
  p_x (pc_Position (piece g')) = x /\ p_y (pc_Position (piece g')) = y.
Proof. intros (Hp & Hc & _). rewrite Hp. now repeat split. Qed.

Lemma step_keeps (g g' : Game) (free : Prop) (pos x y : Z) :
  Decision free ->
  (free -> placed g g' pos x y) -> (~ free -> g' = g) ->
  cancelled g' = cancelled g /\
  sh_shape (pc_Shape (piece g')) = sh_shape (pc_Shape (piece g)).
Proof.
  intros [Hf | Hn] Hyes Hno.
  - destruct (placed_piece _ _ _ _ _ (Hyes Hf)) as (? & ? & _). auto.
  - rewrite (Hno Hn). auto.
Qed.

Lemma moveLeft_keeps (g : Game) :
  run_inv g ->
  exists g', moveLeft g = Some g' /\ run_inv g' /\
    same_fixed (board g) (board g') /\ cancelled g' = cancelled g /\
    sh_shape (pc_Shape (piece g')) = sh_shape (pc_Shape (piece g)).
Proof.
  intros Hinv. destruct (currentMask_valid g (proj1 (proj1 Hinv))) as (m & Hm & _).
  destruct (moveLeft_run g m Hinv Hm) as (g' & Hrun & Hinv' & Hsf & Hyes & Hno).
  exists g'. split; [exact Hrun |]. split; [exact Hinv' |].
  split; [exact Hsf |].
  eapply step_keeps; [| exact Hyes | exact Hno]. apply _.
Qed.

Lemma moveRight_keeps (g : Game) :
  run_inv g ->
  exists g', moveRight g = Some g' /\ run_inv g' /\
    same_fixed (board g) (board g') /\ cancelled g' = cancelled g /\
    sh_shape (pc_Shape (piece g')) = sh_shape (pc_Shape (piece g)).
Proof.
  intros Hinv. destruct (currentMask_valid g (proj1 (proj1 Hinv))) as (m & Hm & _).
  destruct (moveRight_run g m Hinv Hm) as (g' & Hrun & Hinv' & Hsf & Hyes & Hno).
  exists g'. split; [exact Hrun |]. split; [exact Hinv' |].
  split; [exact Hsf |].
  eapply step_keeps; [| exact Hyes | exact Hno]. apply _.
Qed.

Lemma rotate_keeps (g : Game) :
  run_inv g ->
  exists g', rotate g = Some g' /\ run_inv g' /\
    same_fixed (board g) (board g') /\ cancelled g' = cancelled g /\
    sh_shape (pc_Shape (piece g')) = sh_shape (pc_Shape (piece g)).
Proof.
  intros Hinv. pose proof Hinv as ((Hwf & _) & _).
  destruct (currentMask_valid g Hwf) as (m & Hm & _).
  destruct (rotate_run g m Hinv Hm)
    as (m1 & x1 & g' & _ & _ & _ & _ & Hrun & Hinv' & Hsf & Hyes & Hno & _).
  exists g'. split; [exact Hrun |]. split; [exact Hinv' |].
  split; [exact Hsf |].
  match type of Hno with
  | hasCollision g ?a ?b ?p = _ -> _ =>
      destruct (hasCollision_total g a b p Hwf) as ([|] & Hres);
        [apply Z.mod_pos_bound; lia | |]
  end.
  - rewrite (Hno Hres). auto.
  - destruct (placed_piece _ _ _ _ _ (Hyes Hres)) as (? & ? & _). auto.
Qed.

Lemma moveDown_keeps (r : Z) (g : Game) :
  0 <= r < 4 -> run_inv g ->
  exists g', moveDown r g = Some g' /\ run_inv g' /\
    (g' = cancel g \/ cancelled g' = cancelled g) /\
    (sh_shape (pc_Shape (piece g')) = sh_shape (pc_Shape (piece g)) \/
     sh_shape (pc_Shape (piece g')) = 0).
Proof.
  intros Hr Hinv. pose proof Hinv as ((Hwf & _) & _).
  destruct (currentMask_valid g Hwf) as (m & Hm & _).
  destruct (moveDown_run r g m Hr Hinv Hm)
    as (g' & Hrun & Hinv' & Hfree & Hover & Hlock).
  exists g'. split; [exact Hrun |]. split; [exact Hinv' |].
  match type of Hover with
  | hasCollision g ?a ?b ?p = _ -> _ =>
      destruct (hasCollision_total g a b p Hwf) as ([|] & Hres); [apply Hwf | |]
  end.
  - destruct (decide (p_y (pc_Position (piece g)) = - getTopOffset m))
      as [Hy | Hy].
    + rewrite (Hover Hres Hy). auto.
    + destruct (Hlock Hres Hy) as (g1 & g2 & _ & Hnew & _ & Hp & Hc & _).
      split; [now right |]. right. rewrite Hp.
      destruct (newPiece_top_left r g1 Hr) as (g2' & Hnew' & Hs & _).
      assert (g2' = g2) by congruence. subst g2'. now rewrite Hs.
  - destruct (Hfree Hres) as [Hpl _].
    destruct (placed_piece _ _ _ _ _ Hpl) as (? & ? & _). auto.
Qed.

(** X9.  In a state of a run [moveLeft], [moveRight] and [rotate] always
    return and never change which cells of the board are locked; neither
    does [moveDown] when the piece is free to fall. *)
Theorem moves_keep_locked_cells (r : Z) (g : Game) :
  0 <= r < 4 -> reachable g ->
  (exists g', moveLeft g = Some g' /\ same_fixed (board g) (board g')) /\
  (exists g', moveRight g = Some g' /\ same_fixed (board g) (board g')) /\
  (exists g', rotate g = Some g' /\ same_fixed (board g) (board g')) /\
  (hasCollision g (p_x (pc_Position (piece g)))
                  (p_y (pc_Position (piece g)) + 1)
                  (sh_pos (pc_Shape (piece g))) = Some false ->
   exists g', moveDown r g = Some g' /\ same_fixed (board g) (board g')).
Proof.
  intros Hr Hreach. pose proof (reachable_run_inv g Hreach) as Hinv.
  destruct (moveLeft_keeps g Hinv) as (gl & Hl & _ & Hsl & _).
  destruct (moveRight_keeps g Hinv) as (gr & Hrt & _ & Hsr & _).
  destruct (rotate_keeps g Hinv) as (go & Ho & _ & Hso & _).
  split; [exists gl; split; assumption |].
  split; [exists gr; split; assumption |].
  split; [exists go; split; assumption |].
  intros Hfree.
  destruct (currentMask_valid g (proj1 (proj1 Hinv))) as (m & Hm & _).
  destruct (moveDown_run r g m Hr Hinv Hm) as (gd & Hd & _ & Hyes & _).
  exists gd. split; [exact Hd |]. now apply Hyes.
Qed.

Lemma moves_keep_locked_cells_witness :
  (exists g', moveLeft floor_game = Some g' /\
              same_fixed (board floor_game) (board g')) /\
  (exists g', moveRight floor_game = Some g' /\
              same_fixed (board floor_game) (board g')) /\
  (exists g', rotate floor_game = Some g' /\
              same_fixed (board floor_game) (board g')).
Proof.
  destruct (moves_keep_locked_cells 0 floor_game ltac:(lia) reachable_floor_game)
    as (Hl & Hr & Ho & _).
  split; [exact Hl | split; [exact Hr | exact Ho]].
Defined.

Lemma reachable_shape_zero (g : Game) :
  reachable g -> sh_shape (pc_Shape (piece g)) = 0.
Proof.
  induction 1 as [r g Hr Hrun | g g' Hg IH Hrun | g g' Hg IH Hrun
                  | r g g' Hr Hg IH Hrun | g g' Hg IH Hrun | g _ IH].
  - unfold initialGame, newGame in Hrun.
    match type of Hrun with
    | context [newPiece r ?g0] =>
        destruct (newPiece_top_left r g0 Hr) as (g1 & Hnew & Hs & _);
        destruct (newPiece_spec r g0 Hr wf_emptyBoard)
          as (g1' & Hnew' & Hwf1 & _)
    end.
    assert (g1' = g1) by congruence. subst g1'.
    rewrite Hnew in Hrun. cbn [mbind option_bind] in Hrun.
    destruct (tick_keeps_position g1 g Hrun Hwf1) as (_ & _ & Hshape).
    now rewrite Hshape, Hs.
  - destruct (moveLeft_keeps g (reachable_run_inv g Hg)) as (g2 & Hrun2 & _ & _ & _ & Hk).
    assert (g2 = g') by congruence. subst g2. congruence.
  - destruct (moveRight_keeps g (reachable_run_inv g Hg)) as (g2 & Hrun2 & _ & _ & _ & Hk).
    assert (g2 = g') by congruence. subst g2. congruence.
  - destruct (moveDown_keeps r g Hr (reachable_run_inv g Hg))
      as (g2 & Hrun2 & _ & _ & [Hk | Hk]);
      assert (g2 = g') by congruence; subst g2; congruence.
  - destruct (rotate_keeps g (reachable_run_inv g Hg)) as (g2 & Hrun2 & _ & _ & _ & Hk).
    assert (g2 = g') by congruence. subst g2. congruence.
  - exact IH.
Qed.

(** X10.  Every piece of a run is of kind 0, the first row of the shape
    table: its mask is [0x0F00] or [0x2222], and the other six rows of the
    table are never read. *)
Theorem run_uses_first_shape_only (g : Game) :
  reachable g ->
  sh_shape (pc_Shape (piece g)) = 0 /\
  (currentMask g = Some 0x0F00 \/ currentMask g = Some 0x2222).
Proof.
  intros Hreach. pose proof (reachable_shape_zero g Hreach) as Hk.
  split; [exact Hk |].
  destruct (reachable_run_inv g Hreach) as (((_ & [_ Hp] & _) & _) & _).
  unfold currentMask. rewrite Hk.
  assert (Hc : sh_pos (pc_Shape (piece g)) = 0 \/ sh_pos (pc_Shape (piece g)) = 1
               \/ sh_pos (pc_Shape (piece g)) = 2
               \/ sh_pos (pc_Shape (piece g)) = 3) by lia.
  destruct Hc as [-> | [-> | [-> | ->]]]; cbn; auto.
Qed.

Lemma run_uses_first_shape_only_witness :
  sh_shape (pc_Shape (piece floor_game)) = 0 /\
  (currentMask floor_game = Some 0x0F00 \/ currentMask floor_game = Some 0x2222).
Proof. exact (run_uses_first_shape_only floor_game reachable_floor_game). Defined.

(** ** Gravity and rotation in a run *)

(** X11.  A piece of a run that is free one row down falls by exactly one
    row: [moveDown] returns a state with [y + 1] and the same [x] and
    rotation, the cells of the piece at the new place hold [FallingState],
    the cells it left are empty, and every other cell, the kind of the piece
    and the cancellation flag are as before. *)
Theorem moveDown_falls_one_row (r : Z) (g : Game) :
  0 <= r < 4 -> reachable g ->
  let x := p_x (pc_Position (piece g)) in
  let y := p_y (pc_Position (piece g)) in
  let pos := sh_pos (pc_Shape (piece g)) in
  hasCollision g x (y + 1) pos = Some false ->
  exists g', moveDown r g = Some g' /\ placed g g' pos x (y + 1) /\
    p_y (pc_Position (piece g')) = y + 1 /\
    p_x (pc_Position (piece g')) = x /\
    pc_Shape (piece g') = pc_Shape (piece g).
Proof.
  intros Hr Hreach x y pos Hfree.
  pose proof (reachable_run_inv g Hreach) as Hinv.
  destruct (currentMask_valid g (proj1 (proj1 Hinv))) as (m & Hm & _).
  destruct (moveDown_run r g m Hr Hinv Hm) as (g' & Hrun & _ & Hyes & _).
  destruct (Hyes Hfree) as [Hpl _].
  exists g'. split; [exact Hrun |]. split; [exact Hpl |].
  destruct Hpl as (Hp & _). rewrite Hp.
  split; [reflexivity |]. split; [reflexivity |].
  destruct g as [[[k p st] q ps] b c]. reflexivity.
Qed.

Lemma moveDown_falls_one_row_witness :
  exists g', moveDown 2 spawn_game = Some g' /\
             p_y (pc_Position (piece g')) = 0 /\
             p_x (pc_Position (piece g')) = 0.
Proof.
  destruct (moveDown_falls_one_row 2 spawn_game ltac:(lia)
              (reach_init 0 spawn_game ltac:(lia) initialGame_spawn_game))
    as (g' & Hrun & _ & Hy & Hx & _).
  - vm_compute. reflexivity.
  - exists g'. split; [exact Hrun |]. split; [exact Hy | exact Hx].
Defined.

(** X12.  A piece of a run that is blocked one row down and not at its
    spawn row locks: its cells become [FixedState] on the board, the board
    is then compacted, and a new piece of kind 0 in the rotation drawn
    appears in the top left corner, its cells stamped [FallingState] over
    the compacted board.  The cancellation flag is as before. *)
Theorem moveDown_locks_and_spawns (r : Z) (g : Game) (m : Z) :
  0 <= r < 4 -> reachable g -> currentMask g = Some m ->
  let x := p_x (pc_Position (piece g)) in
  let y := p_y (pc_Position (piece g)) in
  hasCollision g x (y + 1) (sh_pos (pc_Shape (piece g))) = Some true ->
  y <> - getTopOffset m ->
  exists b1 g',
    moveDown r g = Some g' /\
    wf_board b1 /\
    (forall row col, in_board row col ->
       (piece_footprint g row col -> board_get b1 row col = Some FixedState) /\
       (~ piece_footprint g row col ->
        board_get b1 row col = board_get (board g) row col)) /\
    pc_Shape (piece g') = mkShape 0 r FallingState /\
    cancelled g' = cancelled g /\
    (forall row col, piece_footprint g' row col ->
                     0 <= row < 4 /\ 0 <= col < 4) /\
    (forall row col, in_board row col ->
       (piece_footprint g' row col ->
        board_get (board g') row col = Some FallingState) /\
       (~ piece_footprint g' row col ->
        board_get (board g') row col = board_get (compact b1) row col)).
Proof.
  intros Hr Hreach Hm x y Hblocked Hy.
  pose proof (reachable_run_inv g Hreach) as Hinv.
  destruct (moveDown_run r g m Hr Hinv Hm) as (g' & Hrun & _ & _ & _ & Hlock).
  destruct (Hlock Hblocked Hy) as (g1 & g2 & Ht1 & Hnew & _ & Hp & Hc & Hcells).
  destruct (lock_commit g Hinv)
    as (g1' & Ht1' & _ & _ & _ & _ & b1 & Hwf1 & Hb1 & Hcells1).
  assert (g1' = g1) by congruence. subst g1'.
  destruct (newPiece_top_left r g1 Hr)
    as (g2' & Hnew' & Hs & _ & _ & _ & Hbox & _).
  assert (g2' = g2) by congruence. subst g2'.
  assert (Hpf : forall row col, piece_footprint g' row col <->
                                piece_footprint g2 row col).
  { intros row col. unfold piece_footprint, currentMask. now rewrite Hp. }
  exists b1, g'. split; [exact Hrun |]. split; [exact Hwf1 |].
  split; [exact Hcells1 |]. split; [now rewrite Hp |]. split; [exact Hc |].
  split.
  - intros row col Hf. apply Hbox. now apply Hpf.
  - rewrite <- Hb1. exact Hcells.
Qed.

Lemma moveDown_locks_and_spawns_witness :
  exists b1 g',
    moveDown 1 floor_game = Some g' /\
    board_get b1 19 3 = Some FixedState /\
    pc_Shape (piece g') = mkShape 0 1 FallingState /\
    cancelled g' = cancelled floor_game.
Proof.
  destruct (moveDown_locks_and_spawns 1 floor_game 0x0F00 ltac:(lia)
              reachable_floor_game eq_refl)
    as (b1 & g' & Hrun & _ & Hcells & Hs & Hc & _).
  - vm_compute. reflexivity.
  - vm_compute. discriminate.
  - exists b1, g'. split; [exact Hrun |]. split; [| split; [exact Hs | exact Hc]].
    apply Hcells.
    + unfold in_board, gameGridHeight, gameGridWidth. lia.
    + exists 0x0F00. split; [reflexivity |]. exists 3, 1.
      repeat split; try lia; vm_compute; reflexivity.
Defined.

(** X13.  [rotate] in a state of a run always returns.  It tries the next
    rotation with the top row of the piece kept and the left column kept,
    then moves left while the piece collides: the place [x1] it ends at is
    the first one from there, going left, that is free or has the piece's
    left column past the left wall.  When it is free the piece is placed
    there; when it is not, the left column is at -1 and the state is the
    one before the call. *)
Theorem rotate_wall_kick (g : Game) (m : Z) :
  reachable g -> currentMask g = Some m ->
  let x := p_x (pc_Position (piece g)) in
  let y := p_y (pc_Position (piece g)) in
  let pos1 := (sh_pos (pc_Shape (piece g)) + 1) mod 4 in
  exists m1 x1 g',
    shapeAt (sh_shape (pc_Shape (piece g))) pos1 = Some m1 /\
    let y1 := y + getTopOffset m - getTopOffset m1 in
    let xs := x + findFirstNonEmptyColumn m - findFirstNonEmptyColumn m1 in
    rotate g = Some g' /\
    x1 <= xs /\
    (forall x', x1 < x' <= xs -> hasCollision g x' y1 pos1 = Some true) /\
    (hasCollision g x1 y1 pos1 = Some false -> placed g g' pos1 x1 y1) /\
    (hasCollision g x1 y1 pos1 = Some true ->
     x1 + findFirstNonEmptyColumn m1 = -1 /\ g' = g).
Proof.
  intros Hreach Hm x y pos1.
  pose proof (reachable_run_inv g Hreach) as Hinv.
  destruct (rotate_run g m Hinv Hm)
    as (m1 & x1 & g' & Hm1 & _ & Hle & _ & Hrun & _ & _ & Hyes & Hno
        & Hbefore & Hlast).
  exists m1, x1, g'. split; [exact Hm1 |]. cbn zeta.
  split; [exact Hrun |]. split; [exact Hle |]. split; [exact Hbefore |].
  split; [exact Hyes |]. intros Hc. split; [now apply Hlast | now apply Hno].
Qed.

Lemma rotate_wall_kick_witness :
  exists m1 x1 g',
    shapeAt 0 1 = Some m1 /\
    rotate spawn_game = Some g' /\
    x1 <= 0 + findFirstNonEmptyColumn 0x0F00 - findFirstNonEmptyColumn m1.
Proof.
  destruct (rotate_wall_kick spawn_game 0x0F00
              (reach_init 0 spawn_game ltac:(lia) initialGame_spawn_game)
              eq_refl)
    as (m1 & x1 & g' & Hm1 & Hrun & Hle & _).
  exists m1, x1, g'. split; [exact Hm1 |]. split; [exact Hrun | exact Hle].
Defined.

(** ** There and back *)

Lemma piece_footprint_dec (g : Game) (r c : Z) :
  piece_footprint g r c \/ ~ piece_footprint g r c.
Proof.
  destruct (currentMask g) as [m|] eqn:Hm.
  - rewrite (piece_footprint_mask g m r c Hm). apply footprint_dec.
  - right. intros (m & Hm' & _). congruence.
Qed.

Lemma piece_moved_back (g g' : Game) (pos1 x1 y1 : Z) :
  committed (piece g) ->
  piece g' = sync_piece (piece (moved g pos1 x1 y1)) ->
  sync_piece (piece (moved g' (sh_pos (pc_Shape (piece g)))
                              (p_x (pc_Position (piece g)))
                              (p_y (pc_Position (piece g)))))
  = piece g.
Proof.
  destruct g as [[[k p st] [x y ox oy] [pk pp pst]] b c], g' as [p' b' c'].
  unfold committed. cbn. intros (-> & -> & -> & ->) ->. reflexivity.
Qed.

(** The place a piece of a run has just left is free for it. *)
Lemma return_is_free (g g' : Game) (m pos1 x1 y1 : Z) :
  run_inv g -> wf_board (board g') -> currentMask g = Some m ->
  placed g g' pos1 x1 y1 ->
  hasCollision g' (p_x (pc_Position (piece g))) (p_y (pc_Position (piece g)))
               (sh_pos (pc_Shape (piece g))) = Some false.
Proof.
  intros Hinv Hwf' Hm Hpl.
  destruct (placed_piece _ _ _ _ _ Hpl) as (_ & Hk & _).
  destruct Hpl as (_ & _ & Hcells).
  destruct Hinv as (_ & Hon & _).
  rewrite (hasCollision_game g' _ _ _ m) by (rewrite Hk; exact Hm).
  apply (hasCollision_false_iff _ _ _ _ Hwf'). intros r c Hf.
  apply (piece_footprint_mask g m r c Hm) in Hf.
  pose proof (Hon r c Hf) as Hin. split; [exact Hin |].
  destruct (Hcells r c Hin) as (Hnew & Hold & _).
  destruct (piece_footprint_dec g' r c) as [Hf' | Hf'].
  - rewrite (Hnew Hf'). discriminate.
  - rewrite (Hold Hf' Hf). discriminate.
Qed.

(** A piece placed somewhere free and then placed back leaves the state it
    started from. *)
Lemma placed_back (g g' g'' : Game) (m1 pos1 x1 y1 : Z) :
  run_inv g -> wf_board (board g'') ->
  shapeAt (sh_shape (pc_Shape (piece g))) pos1 = Some m1 ->
  hasCollision g x1 y1 pos1 = Some false ->
  placed g g' pos1 x1 y1 ->
  placed g' g'' (sh_pos (pc_Shape (piece g))) (p_x (pc_Position (piece g)))
                (p_y (pc_Position (piece g))) ->
  g'' = g.
Proof.
  intros Hinv Hwf'' Hm1 Hfree (Hp' & Hc' & Hcells') (Hp'' & Hc'' & Hcells'').
  pose proof Hinv as ((Hwf & Hcom & Hst & (m & Hm & Hstamp) & _) & _ & Hfall & _).
  rewrite (piece_moved_back g g' pos1 x1 y1 Hcom Hp') in Hp''.
  assert (Hpf : forall r c, piece_footprint g'' r c <-> piece_footprint g r c).
  { intros r c. unfold piece_footprint, currentMask. now rewrite Hp''. }
  rewrite (hasCollision_game g _ _ _ m1 Hm1) in Hfree.
  rewrite (hasCollision_false_iff _ _ _ _ (proj1 Hwf)) in Hfree.
  assert (Hb : board g'' = board g).
  { apply board_ext; [exact Hwf'' | exact (proj1 Hwf) |].
    intros r c Hrc. destruct (Hcells'' r c Hrc) as (Hnew & Hold & Hrest).
    rewrite !Hpf in Hnew, Hold, Hrest.
    destruct (piece_footprint_dec g r c) as [Hf | Hf].
    - rewrite (Hnew Hf). symmetry.
      apply (piece_footprint_mask g m r c Hm) in Hf.
      now rewrite (Hstamp r c Hrc Hf), Hst.
    - destruct (piece_footprint_dec g' r c) as [Hf' | Hf'].
      + rewrite (Hold Hf Hf'). symmetry.
        destruct (board_get_Some (board g) r c (proj1 Hwf) Hrc) as (v & Hv).
        rewrite Hv. destruct v; [reflexivity | |].
        * exfalso. apply Hf. now apply Hfall.
        * exfalso.
          apply (piece_footprint_moved g g' pos1 x1 y1 m1 r c Hp' Hm1) in Hf'.
          now destruct (Hfree r c Hf') as [_ Hnf].
      + rewrite (Hrest Hf Hf').
        destruct (Hcells' r c Hrc) as (_ & _ & Hrest'). now apply Hrest'. }
  destruct g as [p b c], g'' as [p2 b2 c2]. cbn in Hp'', Hb, Hc', Hc''.
  subst p2 b2. f_equal. congruence.
Qed.

(** X14.  In a state of a run a step to the left that moved the piece is
    undone by a step to the right, and a step to the right that moved the
    piece is undone by a step to the left: the second call returns the
    state before the first one, piece, board and flag. *)
Theorem moveLeft_moveRight_round_trip (g : Game) (m : Z) :
  reachable g -> currentMask g = Some m ->
  let x := p_x (pc_Position (piece g)) in
  let y := p_y (pc_Position (piece g)) in
  let pos := sh_pos (pc_Shape (piece g)) in
  (0 <= x + findFirstNonEmptyColumn m - 1 ->
   hasCollision g (x - 1) y pos = Some false ->
   exists g', moveLeft g = Some g' /\
              p_x (pc_Position (piece g')) = x - 1 /\
              moveRight g' = Some g) /\
  (x + findFirstNonEmptyColumn m + getShapeDimensions m < gameGridWidth ->
   hasCollision g (x + 1) y pos = Some false ->
   exists g', moveRight g = Some g' /\
              p_x (pc_Position (piece g')) = x + 1 /\
              moveLeft g' = Some g).
Proof.
  intros Hreach Hm x y pos.
  pose proof (reachable_run_inv g Hreach) as Hinv.
  pose proof Hinv as ((Hwf & _) & Hon & _ & Hxr & Hyr).
  pose proof (on_board_bounds g m Hwf Hon Hm Hxr Hyr) as (Hlo & Hhi & _).
  fold x in Hlo, Hhi.
  assert (Hmpos : shapeAt (sh_shape (pc_Shape (piece g))) pos = Some m)
    by exact Hm.
  split.
  - intros H1 H2.
    destruct (moveLeft_run g m Hinv Hm) as (g' & Hrun & Hinv' & _ & Hyes & _).
    pose proof (Hyes (conj H1 H2)) as Hpl. fold x y pos in Hpl.
    destruct (placed_piece _ _ _ _ _ Hpl) as (_ & Hk & Hpos' & Hx' & Hy').
    assert (Hm' : currentMask g' = Some m).
    { unfold currentMask. now rewrite Hk, Hpos'. }
    exists g'. split; [exact Hrun |]. split; [exact Hx' |].
    destruct (moveRight_run g' m Hinv' Hm')
      as (g'' & Hrun2 & Hinv'' & _ & Hyes2 & _).
    rewrite Hx', Hy', Hpos' in Hyes2.
    replace (x - 1 + 1) with x in Hyes2 by lia.
    rewrite Hrun2. f_equal.
    apply (placed_back g g' g'' m pos (x - 1) y Hinv); try assumption.
    + apply Hinv''.
    + apply Hyes2. split; [lia |].
      exact (return_is_free g g' m pos (x - 1) y Hinv
               (proj1 (proj1 (proj1 Hinv'))) Hm Hpl).
  - intros H1 H2.
    destruct (moveRight_run g m Hinv Hm) as (g' & Hrun & Hinv' & _ & Hyes & _).
    pose proof (Hyes (conj H1 H2)) as Hpl. fold x y pos in Hpl.
    destruct (placed_piece _ _ _ _ _ Hpl) as (_ & Hk & Hpos' & Hx' & Hy').
    assert (Hm' : currentMask g' = Some m).
    { unfold currentMask. now rewrite Hk, Hpos'. }
    exists g'. split; [exact Hrun |]. split; [exact Hx' |].
    destruct (moveLeft_run g' m Hinv' Hm')
      as (g'' & Hrun2 & Hinv'' & _ & Hyes2 & _).
    rewrite Hx', Hy', Hpos' in Hyes2.
    replace (x + 1 - 1) with x in Hyes2 by lia.
    rewrite Hrun2. f_equal.
    apply (placed_back g g' g'' m pos (x + 1) y Hinv); try assumption.
    + apply Hinv''.
    + apply Hyes2. split; [lia |].
      exact (return_is_free g g' m pos (x + 1) y Hinv
               (proj1 (proj1 (proj1 Hinv'))) Hm Hpl).
Qed.

Lemma moveLeft_moveRight_round_trip_witness :
  exists g', moveRight floor_game = Some g' /\
             p_x (pc_Position (piece g')) = 1 /\
             moveLeft g' = Some floor_game.
Proof.
  apply (moveLeft_moveRight_round_trip floor_game 0x0F00
           reachable_floor_game eq_refl).
  - vm_compute. reflexivity.
  - vm_compute. reflexivity.
Defined.

(** ** The cancellation flag *)

(** X15.  In a state of a run [moveLeft], [moveRight] and [rotate] never
    touch the cancellation flag.  [moveDown] sets it exactly when the piece
    is blocked one row down while at its spawn row, and then changes nothing
    else; on its other paths the flag is as before. *)
Theorem only_game_over_cancels (r : Z) (g : Game) (m : Z) :
  0 <= r < 4 -> reachable g -> currentMask g = Some m ->
  let x := p_x (pc_Position (piece g)) in
  let y := p_y (pc_Position (piece g)) in
  let over := hasCollision g x (y + 1) (sh_pos (pc_Shape (piece g))) = Some true
              /\ y = - getTopOffset m in
  (exists g', moveLeft g = Some g' /\ cancelled g' = cancelled g) /\
  (exists g', moveRight g = Some g' /\ cancelled g' = cancelled g) /\
  (exists g', rotate g = Some g' /\ cancelled g' = cancelled g) /\
  (exists g', moveDown r g = Some g' /\
     (over -> g' = cancel g) /\ (~ over -> cancelled g' = cancelled g)).
Proof.
  intros Hr Hreach Hm x y over.
  pose proof (reachable_run_inv g Hreach) as Hinv.
  destruct (moveLeft_keeps g Hinv) as (gl & Hl & _ & _ & Hcl & _).
  destruct (moveRight_keeps g Hinv) as (gr & Hrt & _ & _ & Hcr & _).
  destruct (rotate_keeps g Hinv) as (go & Ho & _ & _ & Hco & _).
  split; [exists gl; split; assumption |].
  split; [exists gr; split; assumption |].
  split; [exists go; split; assumption |].
  destruct (moveDown_run r g m Hr Hinv Hm)
    as (gd & Hd & _ & Hfree & Hover & Hlock).
  fold x y in Hfree, Hover, Hlock.
  exists gd. split; [exact Hd |]. split.
  - intros [Hc Hy]. now apply Hover.
  - intros Hn.
    destruct (hasCollision_total g x (y + 1) (sh_pos (pc_Shape (piece g)))
                (proj1 (proj1 Hinv))) as ([|] & Hres);
      [apply (proj1 (proj1 Hinv)) | |].
    + destruct (decide (y = - getTopOffset m)) as [Hy | Hy].
      * exfalso. apply Hn. now split.
      * destruct (Hlock Hres Hy) as (g1 & g2 & _ & _ & _ & _ & Hc & _).
        exact Hc.
    + destruct (Hfree Hres) as [Hpl _].
      now destruct (placed_piece _ _ _ _ _ Hpl) as (Hc & _).
Qed.

Lemma only_game_over_cancels_witness :
  exists g', moveDown 3 floor_game = Some g' /\
             cancelled g' = cancelled floor_game.
Proof.
  destruct (only_game_over_cancels 3 floor_game 0x0F00 ltac:(lia)
              reachable_floor_game eq_refl)
    as (_ & _ & _ & g' & Hrun & _ & Hkeep).
  exists g'. split; [exact Hrun |]. apply Hkeep.
  intros [_ Hy]. vm_compute in Hy. discriminate.
Defined.

(** ** Keys *)



(** ** The board on the screen *)

Lemma shown_cons (c : SetContent) (s : Screen) (x y : Z) :
  shown (c :: s) x y
  = if decide (sc_x c = x /\ sc_y c = y) then Some (sc_mainc c, sc_style c)
    else shown s x y.
Proof.
  cbn [shown]. destruct (Z.eqb_spec (sc_x c) x), (Z.eqb_spec (sc_y c) y);
    destruct (decide (sc_x c = x /\ sc_y c = y)) as [[? ?] | Hn];
    cbn; try reflexivity; try contradiction.
  exfalso. apply Hn. now split.
Qed.

(** A scan of the grid by rows with a body that touches the cell it stands
    on and no other one. *)
Lemma scan_cells (cell : Z -> Z -> Screen -> option Screen)
    (R : Z -> Z -> option (Z * Style) -> option (Z * Style) -> Prop) :
  (forall y x s, in_board y x ->
     exists s', cell y x s = Some s' /\
       R y x (shown s x y) (shown s' x y) /\
       forall x' y', ~ (x' = x /\ y' = y) -> shown s' x' y' = shown s x' y') ->
  forall s, exists s',
    for_each (fun y s => for_each (cell y) (seqZ 0 gameGridWidth) s)
             (seqZ 0 gameGridHeight) s = Some s' /\
    (forall r c, in_board r c -> R r c (shown s c r) (shown s' c r)) /\
    (forall x y, ~ in_board y x -> shown s' x y = shown s x y).
Proof.
  intros Hcell s.
  set (I := fun (y x : Z) (t : Screen) =>
              forall r c,
                (passed y x r c -> R r c (shown s c r) (shown t c r)) /\
                (~ passed y x r c -> shown t c r = shown s c r)).
  destruct (for_each_up
              (fun y s => for_each (cell y) (seqZ 0 gameGridWidth) s)
              (fun y t => I y 0 t) (Z.to_nat gameGridHeight) 0 s)
    as (s' & Hrun & Hs').
  - intros r c. split; [| reflexivity].
    unfold passed. intros (Hc & Hr & [Hlt | [_ Hlt]]); lia.
  - intros y t Hy Ht.
    destruct (for_each_up (cell y) (fun x u => I y x u)
                (Z.to_nat gameGridWidth) 0 t) as (u & Hrow & Hu).
    + exact Ht.
    + intros x u Hx Hu.
      assert (Hin : in_board y x).
      { unfold in_board, gameGridHeight, gameGridWidth in *. lia. }
      destruct (Hcell y x u Hin) as (u' & Hstep & Hhere & Hrest).
      exists u'. split; [exact Hstep |]. intros r c.
      destruct (decide (c = x /\ r = y)) as [[-> ->] | Hne].
      * split.
        -- intros _.
           assert (Hnot : ~ passed y x y x) by (unfold passed; lia).
           now rewrite <- (proj2 (Hu y x) Hnot).
        -- intros Hn. exfalso. apply Hn. unfold passed.
           unfold gameGridWidth in *. lia.
      * rewrite (Hrest c r Hne).
        assert (Hiff : passed y (x + 1) r c <-> passed y x r c)
          by (unfold passed; lia).
        rewrite Hiff. exact (Hu r c).
    + exists u. split; [exact Hrow |]. intros r c.
      assert (Hiff : passed (y + 1) 0 r c
                     <-> passed y (0 + Z.of_nat (Z.to_nat gameGridWidth)) r c).
      { unfold passed, gameGridWidth. cbn. lia. }
      rewrite Hiff. exact (Hu r c).
  - exists s'. split; [exact Hrun |]. split.
    + intros r c Hrc. apply (Hs' r c).
      unfold passed, in_board, gameGridHeight, gameGridWidth in *. cbn. lia.
    + intros x y Hout. apply (Hs' y x).
      unfold passed, in_board, gameGridHeight, gameGridWidth in *. cbn. lia.
Qed.

(** X17.  [drawBoard] on a board of 20 rows of 10 cells always returns.
    Afterwards every cell of the grid shows ['#'], in the shape style where
    the board is not empty - falling and locked cells alike - and in the
    background style where it is; no cell of the screen outside the grid is
    written. *)
Theorem drawBoard_shows_board (g : Game) (s : Screen) :
  wf_board (board g) ->
  exists s', drawBoard g s = Some s' /\
    (forall r c v, in_board r c -> board_get (board g) r c = Some v ->
       shown s' c r
       = Some (35, if decide (v = EmptyState) then ForegroundLightCyan
                   else ForegroundBlue)) /\
    (forall x y, ~ in_board y x -> shown s' x y = shown s x y).
Proof.
  intros Hwf. unfold drawBoard.
  destruct (scan_cells
              (fun y x s => Some (mkSetContent x y 35 ForegroundLightCyan :: s))
              (fun _ _ _ new => new = Some (35, ForegroundLightCyan)))
    with (s := s) as (s1 & Hrun1 & Hin1 & Hout1).
  { intros y x t _. eexists. split; [reflexivity |]. split.
    - rewrite shown_cons. cbn.
      destruct (decide (x = x /\ y = y)) as [_ | Hn]; [reflexivity |].
      exfalso. apply Hn. now split.
    - intros x' y' Hne. rewrite shown_cons. cbn.
      destruct (decide (x = x' /\ y = y')) as [[-> ->] | _]; [| reflexivity].
      exfalso. apply Hne. now split. }
  destruct (scan_cells (draw_cell (board g))
              (fun r c old new =>
                 forall v, board_get (board g) r c = Some v ->
                   new = if decide (v = EmptyState) then old
                         else Some (35, ForegroundBlue)))
    with (s := s1) as (s2 & Hrun2 & Hin2 & Hout2).
  { intros y x t Hin.
    destruct (board_get_Some (board g) y x Hwf Hin) as (v & Hv).
    unfold draw_cell. rewrite Hv. cbn [mbind option_bind].
    destruct (decide (v <> EmptyState)) as [Hne | He].
    - eexists. split; [reflexivity |]. split.
      + intros v' Hv'. assert (v' = v) by congruence. subst v'.
        rewrite shown_cons. cbn.
        destruct (decide (x = x /\ y = y)) as [_ | Hn];
          [| exfalso; apply Hn; now split].
        destruct (decide (v = EmptyState)); [contradiction | reflexivity].
      + intros x' y' Hne'. rewrite shown_cons. cbn.
        destruct (decide (x = x' /\ y = y')) as [[-> ->] | _]; [| reflexivity].
        exfalso. apply Hne'. now split.
    - exists t. split; [reflexivity |]. split; [| reflexivity].
      intros v' Hv'. assert (v' = v) by congruence. subst v'.
      destruct (decide (v = EmptyState)) as [_ | Hn]; [reflexivity |].
      contradiction. }
  exists s2. split.
  { cbn zeta. rewrite Hrun1. cbn [mbind option_bind]. exact Hrun2. }
  split.
  - intros r c v Hrc Hv. rewrite (Hin2 r c Hrc v Hv), (Hin1 r c Hrc).
    now destruct (decide (v = EmptyState)).
  - intros x y Hout. now rewrite (Hout2 x y Hout), (Hout1 x y Hout).
Qed.

Lemma drawBoard_shows_board_witness :
  exists s', drawBoard floor_game [] = Some s' /\
             shown s' 2 19 = Some (35, ForegroundBlue) /\
             shown s' 7 19 = Some (35, ForegroundLightCyan) /\
             shown s' 10 19 = None.
Proof.
  destruct (drawBoard_shows_board floor_game [])
    as (s' & Hrun & Hin & Hout).
  { split; [reflexivity | repeat constructor]. }
  exists s'. split; [exact Hrun |]. split; [| split].
  - apply (Hin 19 2 FallingState); [| reflexivity].
    unfold in_board, gameGridHeight, gameGridWidth. lia.
  - apply (Hin 19 7 EmptyState); [| reflexivity].
    unfold in_board, gameGridHeight, gameGridWidth. lia.
  - rewrite (Hout 10 19); [reflexivity |].
    unfold in_board, gameGridHeight, gameGridWidth. lia.
Defined.

(** ** The first state and the fall of a piece *)

Lemma board_get_emptyBoard (r c : Z) :
  in_board r c -> board_get emptyBoard r c = Some EmptyState.
Proof.
  unfold in_board, gameGridHeight, gameGridWidth. intros [Hr Hc].
  unfold board_get, emptyBoard, emptyRow, index, gameGridHeight, gameGridWidth.
  destruct (decide (0 <= r)); [| lia].
  rewrite lookup_replicate_2 by lia. cbn [mbind option_bind].
  destruct (decide (0 <= c)); [| lia].
  now rewrite lookup_replicate_2 by lia.
Qed.

(** X18.  The game starts ([newGame] and the first [tick]) with a piece of
    kind 0 in the rotation drawn, in the top left corner; its cells hold
    [FallingState], every other cell of the board is empty, and the game is
    not cancelled. *)
Theorem initialGame_board (r : Z) :
  0 <= r < 4 ->
  exists g, initialGame r = Some g /\
    pc_Shape (piece g) = mkShape 0 r FallingState /\
    cancelled g = false /\
    (forall row col, piece_footprint g row col ->
                     0 <= row < 4 /\ 0 <= col < 4) /\
    forall row col, in_board row col ->
      (piece_footprint g row col ->
       board_get (board g) row col = Some FallingState) /\
      (~ piece_footprint g row col ->
       board_get (board g) row col = Some EmptyState).
Proof.
  intros Hr. unfold initialGame, newGame.
  match goal with
  | |- context [newPiece r ?g0] =>
      destruct (spawn_commit r g0 Hr wf_emptyBoard no_full_rows_emptyBoard)
        as (g1 & g & Hnew & Ht & _ & Hp & Hc & Hcells);
      [| destruct (newPiece_top_left r g0 Hr)
           as (g1' & Hnew' & Hs & _ & _ & _ & Hbox & _)]
  end.
  { unfold no_falling. cbn [board]. apply Forall_replicate.
    apply Forall_replicate. discriminate. }
  assert (g1' = g1) by congruence. subst g1'.
  rewrite Hnew. cbn [mbind option_bind].
  exists g. split; [exact Ht |]. split; [now rewrite Hp |].
  split; [exact Hc |]. split.
  - intros row col Hf. apply Hbox.
    unfold piece_footprint, currentMask in *. now rewrite <- Hp.
  - intros row col Hrc. destruct (Hcells row col Hrc) as [Hin Hout].
    split; [exact Hin |]. intros Hn. rewrite (Hout Hn).
    now apply board_get_emptyBoard.
Qed.

Lemma initialGame_board_witness :
  exists g, initialGame 2 = Some g /\
            pc_Shape (piece g) = mkShape 0 2 FallingState /\
            cancelled g = false.
Proof.
  destruct (initialGame_board 2 ltac:(lia)) as (g & Hrun & Hs & Hc & _).
  exists g. split; [exact Hrun |]. split; [exact Hs | exact Hc].
Defined.

Lemma same_fixed_trans (b1 b2 b3 : Board) :
  same_fixed b1 b2 -> same_fixed b2 b3 -> same_fixed b1 b3.
Proof.
  intros H12 H23 r c Hrc. rewrite (H23 r c Hrc). exact (H12 r c Hrc).
Qed.

(** One free gravity step. *)
Lemma moveDown_free_run (r : Z) (g : Game) :
  0 <= r < 4 -> run_inv g ->
  hasCollision g (p_x (pc_Position (piece g)))
               (p_y (pc_Position (piece g)) + 1)
               (sh_pos (pc_Shape (piece g))) = Some false ->
  exists g', moveDown r g = Some g' /\ run_inv g' /\
    same_fixed (board g) (board g') /\
    p_y (pc_Position (piece g')) = p_y (pc_Position (piece g)) + 1 /\
    p_x (pc_Position (piece g')) = p_x (pc_Position (piece g)) /\
    pc_Shape (piece g') = pc_Shape (piece g).
Proof.
  intros Hr Hinv Hfree.
  destruct (currentMask_valid g (proj1 (proj1 Hinv))) as (m & Hm & _).
  destruct (moveDown_run r g m Hr Hinv Hm) as (g' & Hrun & Hinv' & Hyes & _).
  destruct (Hyes Hfree) as [(Hp & _) Hsf].
  exists g'. split; [exact Hrun |]. split; [exact Hinv' |].
  split; [exact Hsf |]. rewrite Hp.
  split; [reflexivity |]. split; [reflexivity |].
  destruct g as [[[k p st] q ps] b c]. reflexivity.
Qed.

Lemma fall_lands (k : nat) :
  forall g, run_inv g -> 19 - p_y (pc_Position (piece g)) <= Z.of_nat k ->
    exists n g',
      (n <= k)%nat /\ fall n g = Some g' /\ run_inv g' /\
      p_y (pc_Position (piece g'))
      = p_y (pc_Position (piece g)) + Z.of_nat n /\
      p_x (pc_Position (piece g')) = p_x (pc_Position (piece g)) /\
      pc_Shape (piece g') = pc_Shape (piece g) /\
      same_fixed (board g) (board g') /\
      hasCollision g' (p_x (pc_Position (piece g')))
                   (p_y (pc_Position (piece g')) + 1)
                   (sh_pos (pc_Shape (piece g'))) = Some true.
Proof.
  induction k as [|k IH]; intros g Hinv Hk;
    (destruct (hasCollision_total g (p_x (pc_Position (piece g)))
                 (p_y (pc_Position (piece g)) + 1)
                 (sh_pos (pc_Shape (piece g))) (proj1 (proj1 Hinv)))
       as ([|] & Hres); [apply (proj1 (proj1 Hinv)) | |]).
  - exists O, g. split; [lia |]. split; [reflexivity |].
    split; [exact Hinv |]. split; [lia |]. split; [reflexivity |].
    split; [reflexivity |]. split; [apply same_fixed_refl | exact Hres].
  - exfalso.
    destruct (moveDown_free_run 0 g ltac:(lia) Hinv Hres)
      as (g1 & _ & Hinv1 & _ & Hy1 & _).
    pose proof (run_small g1 Hinv1) as [_ Hy]. lia.
  - exists O, g. split; [lia |]. split; [reflexivity |].
    split; [exact Hinv |]. split; [lia |]. split; [reflexivity |].
    split; [reflexivity |]. split; [apply same_fixed_refl | exact Hres].
  - destruct (moveDown_free_run 0 g ltac:(lia) Hinv Hres)
      as (g1 & Hrun1 & Hinv1 & Hsf1 & Hy1 & Hx1 & Hs1).
    destruct (IH g1 Hinv1 ltac:(lia))
      as (n & g' & Hn & Hfall & Hinv' & Hy' & Hx' & Hs' & Hsf' & Hrest).
    exists (S n), g'. split; [lia |]. split.
    { cbn [fall]. rewrite Hrun1. exact Hfall. }
    split; [exact Hinv' |]. split; [lia |]. split; [congruence |].
    split; [congruence |].
    split; [exact (same_fixed_trans _ _ _ Hsf1 Hsf') | exact Hrest].
Qed.

(** X19.  Gravity alone brings every piece of a run to rest: after at
    most 22 free gravity steps - each one a [moveDown] that lowers the piece
    by one row - the piece is blocked one row down.  Until then its column,
    its shape and rotation, and the locked cells of the board do not
    change. *)
Theorem gravity_brings_piece_to_rest (g : Game) :
  reachable g ->
  exists n g',
    (n <= 22)%nat /\ fall n g = Some g' /\ reachable g' /\
    p_y (pc_Position (piece g')) = p_y (pc_Position (piece g)) + Z.of_nat n /\
    p_x (pc_Position (piece g')) = p_x (pc_Position (piece g)) /\
    pc_Shape (piece g') = pc_Shape (piece g) /\
    same_fixed (board g) (board g') /\
    hasCollision g' (p_x (pc_Position (piece g')))
                 (p_y (pc_Position (piece g')) + 1)
                 (sh_pos (pc_Shape (piece g'))) = Some true.
Proof.
  intros Hreach. pose proof (reachable_run_inv g Hreach) as Hinv.
  pose proof (run_small g Hinv) as [_ Hy].
  destruct (fall_lands 22 g Hinv ltac:(lia))
    as (n & g' & Hn & Hfall & _ & Hrest).
  exists n, g'. split; [exact Hn |]. split; [exact Hfall |].
  split; [exact (reachable_fall n g g' Hreach Hfall) | exact Hrest].
Qed.

Lemma gravity_brings_piece_to_rest_witness :
  exists n g',
    (n <= 22)%nat /\ fall n spawn_game = Some g' /\ reachable g' /\
    p_y (pc_Position (piece g')) = -1 + Z.of_nat n.
Proof.
  destruct (gravity_brings_piece_to_rest spawn_game
              (reach_init 0 spawn_game ltac:(lia) initialGame_spawn_game))
    as (n & g' & Hn & Hfall & Hreach & Hy & _).
  exists n, g'. split; [exact Hn |]. split; [exact Hfall |].
  split; [exact Hreach | exact Hy].
Defined.
